(** * EmulationResourceParser: a shallow embedding of [EmulationResourceParser.py]

    The report text is a Python [str]; it is modelled as a list of 8-bit
    characters read as the code points U+0000..U+00FF, and the character
    classes below are Python's on that range.  Exceptions are values of
    [result]; [datetime.now().isoformat()] is an input of [parse_output]. *)

From Stdlib Require Import String Ascii List ZArith QArith Qround Qabs Qpower Bool Arith Lia Lqa Permutation.
From Stdlib Require DecimalString DecimalPos DecimalFacts.
Import ListNotations.

(** ** Python built-ins used by the parser *)

Module Py.

Definition str := list ascii.

Definition lit (s : string) : str := list_ascii_of_string s.

Inductive exn := ValueError | IndexError.

Inductive result (A : Type) : Type :=
| Ok (a : A)
| Raise (e : exn).

Arguments Ok {A} a.
Arguments Raise {A} e.

Definition bind {A B} (r : result A) (f : A -> result B) : result B :=
  match r with
  | Ok a => f a
  | Raise e => Raise e
  end.

Definition code (c : ascii) : nat := nat_of_ascii c.

Definition between (lo hi : nat) (c : ascii) : bool :=
  (lo <=? code c)%nat && (code c <=? hi)%nat.

(** [str.isspace] on one character; also the class [\s] of [re]. *)
Definition isspace (c : ascii) : bool :=
  between 9 13 c || between 28 32 c || between 133 133 c || between 160 160 c.

(** [str.isdecimal] on one character; also the class [\d] of [re]. *)
Definition isdecimal (c : ascii) : bool := between 48 57 c.

(** [str.isalnum] on one character. *)
Definition isalnum (c : ascii) : bool :=
  isdecimal c || between 65 90 c || between 97 122 c
  || between 170 170 c || between 178 179 c || between 181 181 c
  || between 185 186 c || between 188 190 c
  || between 192 214 c || between 216 246 c || between 248 255 c.

(** The class [\w] of [re]. *)
Definition isword (c : ascii) : bool := isalnum c || Ascii.eqb c "_".

Fixpoint str_eqb (a b : str) : bool :=
  match a, b with
  | [], [] => true
  | x :: a', y :: b' => Ascii.eqb x y && str_eqb a' b'
  | _, _ => false
  end.

(** [s.lstrip()], [s.rstrip()], [s.strip()]. *)
Fixpoint lstrip (s : str) : str :=
  match s with
  | [] => []
  | c :: s' => if isspace c then lstrip s' else s
  end.

Definition rstrip (s : str) : str := rev (lstrip (rev s)).

Definition strip (s : str) : str := rstrip (lstrip s).

(** [s.startswith(p)]. *)
Fixpoint startswith (s p : str) : bool :=
  match p, s with
  | [], _ => true
  | x :: p', y :: s' => Ascii.eqb x y && startswith s' p'
  | _ :: _, [] => false
  end.

(** [p in s] for strings. *)
Fixpoint contains (p s : str) : bool :=
  startswith s p ||
  match s with
  | [] => false
  | _ :: s' => contains p s'
  end.

(** [s.split(sep)] for a one-character separator. *)
Fixpoint split_on (sep : ascii) (s : str) : list str :=
  match s with
  | [] => [[]]
  | c :: s' =>
      if Ascii.eqb c sep then [] :: split_on sep s'
      else match split_on sep s' with
           | h :: t => (c :: h) :: t
           | [] => [[c]]
           end
  end.

(** [s.split()]: the maximal runs of characters that are not whitespace. *)
Fixpoint split_ws (s : str) : list str :=
  match s with
  | [] => []
  | c :: s' =>
      if isspace c then split_ws s'
      else match s' with
           | [] => [[c]]
           | c' :: _ =>
               if isspace c' then [c] :: split_ws s'
               else match split_ws s' with
                    | h :: t => (c :: h) :: t
                    | [] => [[c]]
                    end
           end
  end.

(** [l[i]]. *)
Definition getitem {A} (l : list A) (i : nat) : result A :=
  match nth_error l i with
  | Some x => Ok x
  | None => Raise IndexError
  end.

(** [s[:n]]. *)
Definition slice_to (n : nat) (s : str) : str := firstn n s.

(** The digits of [int(s)] after the sign: decimal digits, with single
    underscores allowed between two digits.  [us] holds at the start and
    after an underscore, where a digit must follow. *)
Fixpoint int_digits (acc : Z) (us : bool) (s : str) : option Z :=
  match s with
  | [] => if us then None else Some acc
  | c :: s' =>
      if Ascii.eqb c "_" then
        if us then None else int_digits acc true s'
      else if isdecimal c then
        int_digits (10 * acc + (Z.of_nat (code c) - 48)) false s'
      else None
  end.

(** The whitespace that [int] drops around a numeral: the characters that
    C's [isspace] takes, and U+0085 and U+00A0.  The separators
    U+001C..U+001F, which [str.isspace] takes, are not dropped. *)
Definition int_space (c : ascii) : bool :=
  between 9 13 c || between 32 32 c || between 133 133 c || between 160 160 c.

Fixpoint int_lstrip (s : str) : str :=
  match s with
  | [] => []
  | c :: s' => if int_space c then int_lstrip s' else s
  end.

Definition int_strip (s : str) : str := rev (int_lstrip (rev (int_lstrip s))).

(** [sys.get_int_max_str_digits()], at its default: the most digits that
    [int] reads from a decimal string and that [str] writes (CPython 3.11
    and later). *)
Definition max_str_digits : nat := 4300.

(** The digits of a numeral: underscores and the sign do not count. *)
Definition digit_count (s : str) : nat := length (filter isdecimal s).

(** [int(s)]: surrounding whitespace is dropped, then an optional sign and
    the digits; anything else raises [ValueError], and so does a numeral of
    more than [max_str_digits] digits. *)
Definition int_of_str (s : str) : result Z :=
  let t := int_strip s in
  let (neg, body) :=
    match t with
    | c :: r =>
        if Ascii.eqb c "-" then (true, r)
        else if Ascii.eqb c "+" then (false, r)
        else (false, t)
    | [] => (false, t)
    end in
  match int_digits 0 true body with
  | Some n =>
      if (digit_count body <=? max_str_digits)%nat
      then Ok (if neg then (- n)%Z else n)
      else Raise ValueError
  | None => Raise ValueError
  end.

End Py.

(** ** The fragment of Python's [re] the parser uses

    A backtracking matcher in continuation-passing style.  It tries the
    alternatives in the order of [re]: a greedy repetition the longest run
    first, a lazy one the shortest first, an alternation left to right.
    A group records the text it matched when it closes; the patterns of
    the parser have no nested groups, so the groups close in the order of
    their numbers. *)

Module Re.
Import Py.

Inductive regex :=
| RLit (l : str)                 (* literal text *)
| RStar (c : ascii -> bool)      (* c*  *)
| RPlus (c : ascii -> bool)      (* c+  *)
| RPlusLazy (c : ascii -> bool)  (* c+? *)
| RGroup (r : regex)             (* ( r ) *)
| RSeq (r1 r2 : regex)           (* r1 r2 *)
| RAlt (r1 r2 : regex)           (* r1 | r2 *)
| RLook (r : regex)              (* (?= r ) *)
| REnd.                          (* $ *)

(** A match object: the texts of the groups, group 1 first. *)
Definition groups := list str.

Definition cont := str -> groups -> option groups.

(** [strip_prefix l s]: the rest of [s] after the literal [l]. *)
Fixpoint strip_prefix (l s : str) : option str :=
  match l, s with
  | [], _ => Some s
  | x :: l', y :: s' => if Ascii.eqb x y then strip_prefix l' s' else None
  | _ :: _, [] => None
  end.

Fixpoint star_greedy (c : ascii -> bool) (k : str -> option groups) (s : str)
  : option groups :=
  match s with
  | x :: s' =>
      if c x then
        match star_greedy c k s' with
        | Some g => Some g
        | None => k s
        end
      else k s
  | [] => k []
  end.

Fixpoint star_lazy (c : ascii -> bool) (k : str -> option groups) (s : str)
  : option groups :=
  match k s with
  | Some g => Some g
  | None =>
      match s with
      | x :: s' => if c x then star_lazy c k s' else None
      | [] => None
      end
  end.

(** [$]: at the end of the text, or before a newline that ends it. *)
Definition at_end (s : str) : bool :=
  match s with
  | [] => true
  | [c] => Ascii.eqb c "010"
  | _ => false
  end.

Fixpoint rmatch (r : regex) (k : cont) (s : str) (g : groups) : option groups :=
  match r with
  | RLit l =>
      match strip_prefix l s with
      | Some s' => k s' g
      | None => None
      end
  | RStar c => star_greedy c (fun s' => k s' g) s
  | RPlus c =>
      match s with
      | x :: s' => if c x then star_greedy c (fun s'' => k s'' g) s' else None
      | [] => None
      end
  | RPlusLazy c =>
      match s with
      | x :: s' => if c x then star_lazy c (fun s'' => k s'' g) s' else None
      | [] => None
      end
  | RGroup r' =>
      rmatch r'
        (fun s' g' => k s' (g' ++ [firstn (length s - length s') s])) s g
  | RSeq r1 r2 => rmatch r1 (rmatch r2 k) s g
  | RAlt r1 r2 =>
      match rmatch r1 k s g with
      | Some res => Some res
      | None => rmatch r2 k s g
      end
  | RLook r' =>
      match rmatch r' (fun _ g' => Some g') s g with
      | Some _ => k s g
      | None => None
      end
  | REnd => if at_end s then k s g else None
  end.

Definition accept : cont := fun _ g => Some g.

(** [re.match(r, s)]. *)
Definition re_match (r : regex) (s : str) : option groups :=
  rmatch r accept s [].

(** [re.search(r, s)]: the first position, from the left, with a match. *)
Fixpoint re_search (r : regex) (s : str) : option groups :=
  match re_match r s with
  | Some g => Some g
  | None =>
      match s with
      | [] => None
      | _ :: s' => re_search r s'
      end
  end.

(** [m.group(n)] for [n >= 1]. *)
Definition group (m : groups) (n : nat) : str := nth (n - 1) m [].

Fixpoint seq (rs : list regex) : regex :=
  match rs with
  | [] => RLit []
  | [r] => r
  | r :: rs' => RSeq r (seq rs')
  end.

Definition d : ascii -> bool := isdecimal.
Definition w : ascii -> bool := isword.
Definition s : ascii -> bool := isspace.
Definition S : ascii -> bool := fun c => negb (isspace c).
Definition w_or_s : ascii -> bool := fun c => isword c || isspace c.

End Re.

(** ** The data model *)

(** [oid] is the identity of the Python object: the number of [Domain]
    objects that the running [parse_output] call had built before this
    one.  The other fields are the attributes [Domain.__init__] sets. *)
Record Domain := mkDomain {
  oid : nat;
  board : Z;
  domain : Z;
  owner : Py.str;
  pid : Py.str;
  t_pod : Py.str;
  design : Py.str;
  elapsed_time : Py.str;
  reserved_key : Py.str;
  is_free : bool
}.

Definition Domain_init (o : nat) (board domain : Z)
    (owner pid t_pod design elapsed_time reserved_key : Py.str) : Domain :=
  mkDomain o board domain owner pid t_pod design elapsed_time reserved_key
           (Py.str_eqb owner (Py.lit "NONE")).

Record Board := mkBoard {
  board_id : Z;
  cluster_id : option Z;
  status : Py.str;
  domains : list Domain
}.

Definition Board_init (board_id : Z) (cluster_id : option Z) (status : Py.str)
  : Board := mkBoard board_id cluster_id status [].

Definition add_domain (b : Board) (dm : Domain) : Board :=
  mkBoard (board_id b) (cluster_id b) (status b) (domains b ++ [dm]).

Definition Board_get_free_domains (b : Board) : list Domain :=
  filter is_free (domains b).

Definition Board_get_used_domains (b : Board) : list Domain :=
  filter (fun dm => negb (is_free dm)) (domains b).

Record EmulatorResourceParser := mkParser {
  emulator_name : option Py.str;
  hardware : option Py.str;
  configmgr : option Py.str;
  system_status : option Py.str;
  boards : list Board;
  raw_output : Py.str;
  timestamp : option Py.str
}.

Definition Parser_init : EmulatorResourceParser :=
  mkParser None None None None [] [] None.

(** ** The parser *)

Import Py.

Definition nl : ascii := "010"%char.

Module Patterns.
Import Re.

(** [r'Cluster (\d+) has \d+ boards\s+CCD: (\w+)'] *)
Definition cluster_re : regex :=
  seq [RLit (lit "Cluster "); RGroup (RPlus d); RLit (lit " has "); RPlus d;
       RLit (lit " boards"); RPlus s; RLit (lit "CCD: "); RGroup (RPlus w)].

(** [r'Board\s+(\d+) has\s+\d+ domains\s+Board: (\w+)'] *)
Definition board_re : regex :=
  seq [RLit (lit "Board"); RPlus s; RGroup (RPlus d); RLit (lit " has");
       RPlus s; RPlus d; RLit (lit " domains"); RPlus s; RLit (lit "Board: ");
       RGroup (RPlus w)].

(** [r'Emulator:\s*(\S+)'] *)
Definition emulator_re : regex :=
  seq [RLit (lit "Emulator:"); RStar s; RGroup (RPlus S)].

(** [r'Hardware:\s*([\w\s]+?)(?=Configmgr:|$)'] *)
Definition hardware_re : regex :=
  seq [RLit (lit "Hardware:"); RStar s; RGroup (RPlusLazy w_or_s);
       RLook (RAlt (RLit (lit "Configmgr:")) REnd)].

(** [r'Configmgr:\s*(\S+)'] *)
Definition configmgr_re : regex :=
  seq [RLit (lit "Configmgr:"); RStar s; RGroup (RPlus S)].

(** [r'System Status:\s*(\w+)'] *)
Definition status_re : regex :=
  seq [RLit (lit "System Status:"); RStar s; RGroup (RPlus w)].

End Patterns.

Definition _parse_header (self : EmulatorResourceParser) (header : str)
  : EmulatorResourceParser :=
  let emulator_match := Re.re_search Patterns.emulator_re header in
  let hardware_match := Re.re_search Patterns.hardware_re header in
  let configmgr_match := Re.re_search Patterns.configmgr_re header in
  let status_match := Re.re_search Patterns.status_re header in
  mkParser
    (match emulator_match with Some m => Some (Re.group m 1) | None => None end)
    (match hardware_match with
     | Some m => Some (strip (Re.group m 1))
     | None => None
     end)
    (match configmgr_match with Some m => Some (Re.group m 1) | None => None end)
    (match status_match with Some m => Some (Re.group m 1) | None => None end)
    (boards self) (raw_output self) (timestamp self).

(** The variables of the loop of [parse_output].  [current_board] is a
    reference to a [Board] that is also in [self.boards]: it is kept as the
    position of that board in the list.  [allocated] counts the [Domain]
    objects built so far. *)
Record frame := mkFrame {
  self_boards : list Board;
  current_cluster : option Z;
  current_board : option nat;
  allocated : nat
}.

Fixpoint alter_nth {A} (f : A -> A) (i : nat) (l : list A) : list A :=
  match l, i with
  | [], _ => []
  | x :: l', O => f x :: l'
  | x :: l', S i' => x :: alter_nth f i' l'
  end.

(** [board_num, domain_num = map(int, pieces)]: [map] is lazy, so the
    pieces are converted one at a time while the two targets are filled,
    and a third piece is converted before the unpacking fails. *)
Definition unpack2_ints (pieces : list str) : result (Z * Z) :=
  match pieces with
  | [] => Raise ValueError
  | a :: rest =>
      bind (int_of_str a) (fun x =>
      match rest with
      | [] => Raise ValueError
      | b :: rest' =>
          bind (int_of_str b) (fun y =>
          match rest' with
          | [] => Ok (x, y)
          | c :: _ => bind (int_of_str c) (fun _ => Raise ValueError)
          end)
      end)
  end.

(** The body of the [try] block on a domain line: [Ok None] when field 0
    has no dot, [Ok (Some dm)] when a [Domain] is built. *)
Definition domain_of_parts (o : nat) (parts : list str) : result (option Domain) :=
  bind (getitem parts 0) (fun domain_id =>
  if contains (lit ".") domain_id then
    bind (unpack2_ints (split_on "."%char domain_id)) (fun nums =>
    bind (getitem parts 1) (fun owner =>
    bind (getitem parts 2) (fun pid =>
    bind (getitem parts 5) (fun p5 =>
    bind (if negb (str_eqb p5 (lit "--")) then getitem parts 5 else Ok [])
      (fun t_pod =>
    bind (getitem parts 6) (fun design =>
    bind (if (7 <? length parts)%nat then getitem parts 7 else Ok (lit "--"))
      (fun elapsed_time =>
    bind (if (8 <? length parts)%nat then getitem parts 8 else Ok (lit "--"))
      (fun reserved_key =>
    Ok (Some (Domain_init o (fst nums) (snd nums) owner pid t_pod design
                          elapsed_time reserved_key))))))))))
  else Ok None).

(** [except (ValueError, IndexError)] *)
Definition caught (e : exn) : bool :=
  match e with
  | ValueError => true
  | IndexError => true
  end.

(** [line.startswith('Domain') or (len(line) >= 5 and '.' in line[:5])] *)
Definition domain_shaped (line : str) : bool :=
  startswith line (lit "Domain")
  || ((5 <=? length line)%nat && contains (lit ".") (slice_to 5 line)).

(** ['Owner' in line and 'PID' in line] *)
Definition column_header (line : str) : bool :=
  contains (lit "Owner") line && contains (lit "PID") line.

(** One turn of the loop of [parse_output]. *)
Definition process_line (fr : frame) (line0 : str) : result frame :=
  let line := strip line0 in
  match line with
  | [] => Ok fr
  | _ :: _ =>
  if startswith line (lit "Cluster") then
    match Re.re_match Patterns.cluster_re line with
    | Some m =>
        bind (int_of_str (Re.group m 1)) (fun c =>
        Ok (mkFrame (self_boards fr) (Some c) (current_board fr) (allocated fr)))
    | None => Ok fr
    end
  else if startswith line (lit "Board") && contains (lit "has") line
          && contains (lit "domains") line then
    match Re.re_match Patterns.board_re line with
    | Some m =>
        bind (int_of_str (Re.group m 1)) (fun board_id =>
        let board_status := Re.group m 2 in
        let b := Board_init board_id (current_cluster fr) board_status in
        Ok (mkFrame (self_boards fr ++ [b]) (current_cluster fr)
                    (Some (length (self_boards fr))) (allocated fr)))
    | None => Ok fr
    end
  else if domain_shaped line then
    if column_header line then Ok fr
    else
      let parts := split_ws line in
      if (8 <=? length parts)%nat then
        match current_board fr with
        | Some i =>
            match domain_of_parts (allocated fr) parts with
            | Ok (Some dm) =>
                Ok (mkFrame (alter_nth (fun b => add_domain b dm) i (self_boards fr))
                            (current_cluster fr) (current_board fr)
                            (S (allocated fr)))
            | Ok None => Ok fr
            | Raise e => if caught e then Ok fr else Raise e
            end
        | None => Ok fr
        end
      else Ok fr
  else Ok fr
  end.

Fixpoint run_lines (fr : frame) (lines : list str) : result frame :=
  match lines with
  | [] => Ok fr
  | l :: ls => bind (process_line fr l) (fun fr' => run_lines fr' ls)
  end.

(** [parse_output(self, output)]; [now] is [datetime.now().isoformat()]. *)
Definition parse_output (self : EmulatorResourceParser) (now : str) (output : str)
  : result EmulatorResourceParser :=
  let ts := match timestamp self with None => Some now | Some t => Some t end in
  let self1 := mkParser (emulator_name self) (hardware self) (configmgr self)
                        (system_status self) [] (raw_output self) ts in
  let lines := split_on nl (strip output) in
  let self2 := match lines with
               | header :: _ => _parse_header self1 header
               | [] => self1
               end in
  bind (run_lines (mkFrame (boards self2) None None 0) (tl lines)) (fun fr =>
  Ok (mkParser (emulator_name self2) (hardware self2) (configmgr self2)
               (system_status self2) (self_boards fr) (raw_output self2)
               (timestamp self2))).

(** ** Queries and summaries *)

(** [cluster is None or board.cluster_id == cluster] *)
Definition cluster_selected (cluster : option Z) (b : Board) : bool :=
  match cluster with
  | None => true
  | Some c =>
      match cluster_id b with
      | Some c' => Z.eqb c' c
      | None => false
      end
  end.

Definition get_free_domains (self : EmulatorResourceParser) (cluster : option Z)
  : list Domain :=
  fold_left
    (fun free b =>
       if cluster_selected cluster b then free ++ Board_get_free_domains b
       else free)
    (boards self) [].

Definition get_used_domains (self : EmulatorResourceParser) (cluster : option Z)
  : list Domain :=
  fold_left
    (fun used b =>
       if cluster_selected cluster b then used ++ Board_get_used_domains b
       else used)
    (boards self) [].

(** A [defaultdict(list)], in insertion order of its keys. *)
Definition user_dict := list (str * list Domain).

(** [user_domains[k].append(v)] *)
Fixpoint dict_append (k : str) (v : Domain) (dct : user_dict) : user_dict :=
  match dct with
  | [] => [(k, [v])]
  | (k', vs) :: rest =>
      if str_eqb k' k then (k', vs ++ [v]) :: rest
      else (k', vs) :: dict_append k v rest
  end.

Definition get_domains_by_user (self : EmulatorResourceParser) : user_dict :=
  fold_left
    (fun user_domains b =>
       fold_left (fun ud dm => dict_append (owner dm) dm ud)
                 (Board_get_used_domains b) user_domains)
    (boards self) [].

Definition get_board (self : EmulatorResourceParser) (id : Z) : option Board :=
  find (fun b => Z.eqb (board_id b) id) (boards self).

(** The decimal numeral of [n], with a minus sign when [n] is negative. *)
Definition decimal (n : Z) : str :=
  list_ascii_of_string (DecimalString.NilZero.string_of_int (Z.to_int n)).

(** [str(n)] for an integer, also as ["{}".format(n)] writes it:
    [ValueError] when the numeral has more than [max_str_digits] digits. *)
Definition str_of_int (n : Z) : result str :=
  if (digit_count (decimal n) <=? max_str_digits)%nat then Ok (decimal n)
  else Raise ValueError.

(** ["{}.{}".format(self.board, self.domain)] *)
Definition get_full_id (dm : Domain) : result str :=
  bind (str_of_int (board dm)) (fun b =>
  bind (str_of_int (domain dm)) (fun d =>
  Ok (b ++ lit "." ++ d))).

(** *** binary64

    A finite [float] is kept as the rational number it stands for.
    [b64 q] is the float nearest to [q], ties going to the even mantissa:
    a mantissa of 53 bits, the exponent of its last bit at least -1074.
    Overflow is not modelled; the floats of this program are at most 100. *)

(** [round(x)] to the nearest integer, ties to the even one. *)
Definition round_half_even (q : Q) : Z :=
  let f := Qfloor q in
  match Qcompare (q - inject_Z f) (1 # 2) with
  | Lt => f
  | Gt => (f + 1)%Z
  | Eq => if Z.even f then f else (f + 1)%Z
  end.

(** The integer part of the binary logarithm of [q], for [0 < q]. *)
Definition floor_log2 (q : Q) : Z :=
  let e := (Z.log2 (Qnum q) - Z.log2 (Zpos (Qden q)))%Z in
  if Qle_bool (2 ^ e) q then e else (e - 1)%Z.

(** The exponent of the last bit of the mantissa of the float nearest to
    [q]; -1074 in the subnormal range. *)
Definition ulp_exp (q : Q) : Z := Z.max (floor_log2 q - 52) (-1074).

Definition b64_pos (q : Q) : Q :=
  let e := ulp_exp q in inject_Z (round_half_even (q / 2 ^ e)) * 2 ^ e.

Definition b64 (q : Q) : Q :=
  match Qcompare q 0 with
  | Eq => 0
  | Gt => b64_pos q
  | Lt => - b64_pos (- q)
  end.

(** [a / b] for two integers, [b] not zero: the float nearest to the
    quotient. *)
Definition int_truediv (a b : Z) : Q := b64 (inject_Z a / inject_Z b).

(** [x * n] for a float and an integer below 2^53, which is a float as it
    is. *)
Definition float_mul_int (x : Q) (n : Z) : Q := b64 (x * inject_Z n).

(** [round(x, 2)]: the value of [x] is rounded to a whole number of
    hundredths, ties to the even one, and the float nearest to that
    decimal is returned. *)
Definition round2 (x : Q) : Q := b64 (inject_Z (round_half_even (x * 100)) / 100).

(** The dictionary [get_resource_summary] returns.  The percentage is a
    Python [float], or the [int] 0. *)
Record Summary := mkSummary {
  sum_emulator : option str;
  sum_hardware : option str;
  sum_system_status : option str;
  total_boards : nat;
  total_domains : nat;
  free_domains : nat;
  used_domains : nat;
  utilization_percent : Q;
  users : list str
}.

Definition Qnat (n : nat) : Q := inject_Z (Z.of_nat n).

Definition get_resource_summary (self : EmulatorResourceParser) : Summary :=
  let total := fold_left Nat.add (map (fun b => length (domains b)) (boards self)) 0%nat in
  let free := length (get_free_domains self None) in
  let used := length (get_used_domains self None) in
  mkSummary (emulator_name self) (hardware self) (system_status self)
    (length (boards self)) total free used
    (if (0 <? total)%nat
     then float_mul_int (int_truediv (Z.of_nat used) (Z.of_nat total)) 100
     else 0)
    (map fst (get_domains_by_user self)).

Record DomainDetail := mkDetail {
  dd_id : str; dd_board : Z; dd_domain : Z; dd_pid : str; dd_t_pod : str;
  dd_design : str; dd_elapsed_time : str; dd_reserved_key : str
}.

Record UserEntry := mkUserEntry {
  domain_count : nat;
  ue_domains : list DomainDetail
}.

Record FreeEntry := mkFreeEntry { fe_id : str; fe_board : Z; fe_domain : Z }.

Record JsonResourceSummary := mkJsonRS {
  js_total_boards : nat;
  js_total_domains : nat;
  js_used_domains : nat;
  js_free_domains : nat;
  js_utilization_percent : Q
}.

(** The dictionary [json_data] that [get_json_summary] hands to
    [json.dumps]. *)
Record JsonData := mkJson {
  j_timestamp : option str;
  j_emulator : option str;
  j_hardware : option str;
  j_configmgr : option str;
  j_system_status : option str;
  j_resource_summary : JsonResourceSummary;
  j_domains_by_user : list (str * UserEntry);
  j_free_domains : list FreeEntry
}.

(** [[f(x) for x in l]], where [f] can raise. *)
Fixpoint map_result {A B} (f : A -> result B) (l : list A) : result (list B) :=
  match l with
  | [] => Ok []
  | x :: l' =>
      bind (f x) (fun y =>
      bind (map_result f l') (fun ys => Ok (y :: ys)))
  end.

(** The entry of a used domain, and of a free one. *)
Definition domain_detail (dm : Domain) : result DomainDetail :=
  bind (get_full_id dm) (fun id =>
  Ok (mkDetail id (board dm) (domain dm) (pid dm) (t_pod dm) (design dm)
               (elapsed_time dm) (reserved_key dm))).

Definition free_entry (dm : Domain) : result FreeEntry :=
  bind (get_full_id dm) (fun id => Ok (mkFreeEntry id (board dm) (domain dm))).

Definition json_data (self : EmulatorResourceParser) : result JsonData :=
  let summary := get_resource_summary self in
  bind (map_result
          (fun ud : str * list Domain =>
             bind (map_result domain_detail (snd ud)) (fun details =>
             Ok (fst ud, mkUserEntry (length (snd ud)) details)))
          (get_domains_by_user self)) (fun domains_by_user =>
  bind (map_result free_entry (get_free_domains self None))
    (fun free_domains_list =>
  Ok (mkJson (timestamp self) (sum_emulator summary) (sum_hardware summary)
        (configmgr self) (sum_system_status summary)
        (mkJsonRS (total_boards summary) (total_domains summary)
           (used_domains summary) (free_domains summary)
           (round2 (utilization_percent summary)))
        domains_by_user free_domains_list))).

(** ** Running the command *)

(** What the subprocess does, as [run_command] sees it: [communicate]
    returns the text of the standard output, or raises [TimeoutExpired], or
    [Popen] or [communicate] raise another exception. *)
Inductive process :=
| Completed (stdout : str)
| TimedOut
| Failed.

(** The two [RuntimeError]s of [run_command], by their messages. *)
Inductive run_error :=
| Timed_out       (* "Command '{}' timed out" *)
| Failed_to_run.  (* "Failed to run command '{}': {}" *)

(** The frame at which the loop of [parse_output] stops: after the last
    line, or before the line on which [int] raises, which has changed
    nothing by then. *)
Fixpoint run_lines_reach (fr : frame) (lines : list str) : frame :=
  match lines with
  | [] => fr
  | l :: ls =>
      match process_line fr l with
      | Ok fr' => run_lines_reach fr' ls
      | Raise _ => fr
      end
  end.

(** [self] as the call [parse_output(output)] leaves it, whether it
    returns or raises: the timestamp and the header fields are set before
    the loop, and [self.boards] holds the boards of the lines read. *)
Definition parse_output_leaves (self : EmulatorResourceParser) (now : str)
    (output : str) : EmulatorResourceParser :=
  let ts := match timestamp self with None => Some now | Some t => Some t end in
  let self1 := mkParser (emulator_name self) (hardware self) (configmgr self)
                        (system_status self) [] (raw_output self) ts in
  let lines := split_on nl (strip output) in
  let self2 := match lines with
               | header :: _ => _parse_header self1 header
               | [] => self1
               end in
  let fr := run_lines_reach (mkFrame (boards self2) None None 0) (tl lines) in
  mkParser (emulator_name self2) (hardware self2) (configmgr self2)
           (system_status self2) (self_boards fr) (raw_output self2)
           (timestamp self2).

(** [run_command(self, command)]: the parser after the call, and the
    [RuntimeError] raised, if any.  [now] is [datetime.now().isoformat()].
    An exception of [parse_output] is caught by [except Exception]. *)
Definition run_command (self : EmulatorResourceParser) (now : str) (p : process)
  : EmulatorResourceParser * option run_error :=
  let self1 := mkParser (emulator_name self) (hardware self) (configmgr self)
                        (system_status self) (boards self) (raw_output self)
                        (Some now) in
  match p with
  | Completed stdout =>
      let self2 := mkParser (emulator_name self1) (hardware self1)
                            (configmgr self1) (system_status self1)
                            (boards self1) stdout (timestamp self1) in
      (parse_output_leaves self2 now (raw_output self2),
       match parse_output self2 now (raw_output self2) with
       | Ok _ => None
       | Raise _ => Some Failed_to_run
       end)
  | TimedOut => (self1, Some Timed_out)
  | Failed => (self1, Some Failed_to_run)
  end.

(** ** The example report of the documentation *)

Definition join_lines (ls : list str) : str :=
  match ls with
  | [] => []
  | l :: rest => fold_left (fun acc x => acc ++ nl :: x) rest l
  end.

Definition example_report : str :=
  join_lines
    [lit "Emulator: EMU1 Hardware: Box3000 Configmgr: CM7 System Status: OK";
     lit "Cluster 0 has 1 boards CCD: X";
     lit "Board 0 has 2 domains Board: UP";
     lit "0.0 NONE -- -- -- -- DESIGNA 00:01:00 --";
     lit "0.1 alice 1234 -- -- -- DESIGNB 01:02:03 KEY1"].

Definition now0 : str := lit "2024-01-01T00:00:00".

(** ** The vocabulary of the statements *)

(** What [int] accepts: the characters of an accepted string. *)
Definition int_char (c : ascii) : Prop :=
  int_space c = true \/ c = "_"%char \/ c = "-"%char \/ c = "+"%char
  \/ isdecimal c = true.

Definition loop_start : frame := mkFrame [] None None 0.

(** [lines[0]] and [lines[1:]] of [parse_output]. *)
Definition header_line (output : str) : str := hd [] (split_on nl (strip output)).
Definition body_lines (output : str) : list str := tl (split_on nl (strip output)).

(** The text that [parse_output] hands to [int] outside the [try] block:
    group 1 of a cluster line or of a board line. *)
Definition number_of_line (line : str) : option str :=
  if startswith line (lit "Cluster") then
    option_map (fun m => Re.group m 1) (Re.re_match Patterns.cluster_re line)
  else if startswith line (lit "Board") && contains (lit "has") line
          && contains (lit "domains") line then
    option_map (fun m => Re.group m 1) (Re.re_match Patterns.board_re line)
  else None.

(** The number that the line carries, if any, has no more digits than
    [int] reads. *)
Definition fits (line0 : str) : bool :=
  match number_of_line (strip line0) with
  | Some n => (length n <=? max_str_digits)%nat
  | None => true
  end.

(** [u / t * 100], as [get_resource_summary] computes it. *)
Definition percent (u t : Z) : Q := float_mul_int (int_truediv u t) 100.

(** A [Domain] as [Domain.__init__] leaves it. *)
Definition constructed (dm : Domain) : Prop :=
  dm = Domain_init (oid dm) (board dm) (domain dm) (owner dm) (pid dm)
         (t_pod dm) (design dm) (elapsed_time dm) (reserved_key dm).

Definition model_domains (bs : list Board) : list Domain := flat_map domains bs.

(** Field [i] of a split line. *)
Definition field (parts : list str) (i : nat) : str := nth i parts [].

(** [f] reads as [<int>.<int>], with the values [x] and [y]: two strings
    that [int] accepts, joined by a dot. *)
Definition int_dot_int (f : str) (x y : Z) : Prop :=
  exists a b, f = a ++ "."%char :: b
              /\ int_of_str a = Ok x /\ int_of_str b = Ok y.

(** The [Domain] of an accepted line, by the field numbers. *)
Definition domain_of_fields (o : nat) (parts : list str) (x y : Z) : Domain :=
  Domain_init o x y (field parts 1) (field parts 2)
    (if str_eqb (field parts 5) (lit "--") then [] else field parts 5)
    (field parts 6) (field parts 7)
    (if (9 <=? length parts)%nat then field parts 8 else lit "--").

(** [fr] after [current_board.add_domain(dm)] on the board at [i]. *)
Definition attach (fr : frame) (i : nat) (dm : Domain) : frame :=
  mkFrame (alter_nth (fun b => add_domain b dm) i (self_boards fr))
          (current_cluster fr) (current_board fr) (S (allocated fr)).

(** The current board is one of the boards of the model. *)
Definition frame_ok (fr : frame) : Prop :=
  match current_board fr with
  | Some i => (i < length (self_boards fr))%nat
  | None => True
  end.

(** The conditions under which a line of the domain branch gives a
    [Domain]. *)
Definition accepted (fr : frame) (line : str) : Prop :=
  column_header line = false
  /\ (8 <= length (split_ws line))%nat
  /\ current_board fr <> None
  /\ exists x y, int_dot_int (field (split_ws line) 0) x y.

(** The numbers of [dm] were read from field 0 of a line of [all]. *)
Definition read_from (all : list str) (dm : Domain) : Prop :=
  exists line, In line all
    /\ int_dot_int (field (split_ws (strip line)) 0) (board dm) (domain dm).

(** What holds of the frame after any number of turns over lines of
    [all]: the current board is in the model, the [Domain] objects are
    pairwise distinct and older than the next one, and each was read from
    one of the lines. *)
Definition loop_inv (all : list str) (fr : frame) : Prop :=
  frame_ok fr
  /\ NoDup (map oid (model_domains (self_boards fr)))
  /\ forall dm, In dm (model_domains (self_boards fr)) ->
                (oid dm < allocated fr)%nat /\ read_from all dm.

(** The hardware descriptor as the documentation words it: the text after
    the first "Hardware:" up to the next "Configmgr:" or the end of the
    line, trimmed.  [find_after] and [up_to] follow those words, not the
    code; they are compared with [_parse_header] below. *)
Fixpoint find_after (label s : str) : option str :=
  match Re.strip_prefix label s with
  | Some r => Some r
  | None =>
      match s with
      | [] => None
      | _ :: s' => find_after label s'
      end
  end.

Fixpoint up_to (label s : str) : str :=
  if startswith s label then []
  else match s with
       | [] => []
       | c :: s' => c :: up_to label s'
       end.

Definition hardware_as_documented (header : str) : option str :=
  match find_after (lit "Hardware:") header with
  | Some r => Some (strip (up_to (lit "Configmgr:") r))
  | None => None
  end.

(** The test that the lookahead [(?=Configmgr:|$)] of the hardware pattern
    makes, and that lookahead. *)
Definition ahead (s : str) : bool :=
  startswith s (lit "Configmgr:") || Re.at_end s.

Definition look : Re.regex :=
  Re.RLook (Re.RAlt (Re.RLit (lit "Configmgr:")) Re.REnd).

(** ** Inputs used as examples *)

Definition two_cluster_model : EmulatorResourceParser :=
  mkParser None None None None
    [mkBoard 0 (Some 0%Z) (lit "UP")
       [Domain_init 0 0 0 (lit "NONE") (lit "--") [] (lit "A") (lit "--") (lit "--");
        Domain_init 1 0 1 (lit "alice") (lit "7") [] (lit "B") (lit "1:00") (lit "K")];
     mkBoard 1 (Some 1%Z) (lit "UP")
       [Domain_init 2 1 0 (lit "bob") (lit "9") [] (lit "C") (lit "2:00") (lit "--")]]
    [] None.

Definition one_board_frame : frame :=
  mkFrame [Board_init 0 (Some 0%Z) (lit "UP")] (Some 0%Z) (Some 0%nat) 0.

Definition alice_line : str :=
  lit "0.1 alice 1234 -- -- -- DESIGNB 01:02:03 KEY1".

Definition alice_frame : frame :=
  attach one_board_frame 0
    (domain_of_fields 0 (split_ws (strip alice_line)) 0 1).

Definition minus_report : str :=
  join_lines
    [lit "Emulator: EMU1";
     lit "Board 0 has 1 domains Board: UP";
     lit "-1.0 NONE -- -- -- -- DESIGNA 00:01:00 --"].

(** The models of two of the reports. *)
Definition model_of (output : str) : EmulatorResourceParser :=
  match parse_output Parser_init now0 output with
  | Ok m => m
  | Raise _ => Parser_init
  end.

Definition example_model : EmulatorResourceParser :=
  Eval vm_compute in model_of example_report.

Definition minus_model : EmulatorResourceParser :=
  Eval vm_compute in model_of minus_report.




(** A model with one board of [used] domains of alice and [free] free
    domains. *)
Definition sample_domain (owner : str) (i : nat) : Domain :=
  Domain_init i 0 (Z.of_nat i) owner (lit "1") [] (lit "D") (lit "0:01")
              (lit "--").

Definition sample_model (used free : nat) : EmulatorResourceParser :=
  mkParser None None None None
    [mkBoard 0 None (lit "UP")
       (map (sample_domain (lit "alice")) (seq 0 used)
        ++ map (sample_domain (lit "NONE")) (seq used free))]
    [] None.

Definition board_first_report : str :=
  [nl; " "%char; nl]
  ++ lit "Board 0 has 2 domains Board: UP"
  ++ nl :: lit "0.0 NONE -- -- -- -- DESIGNA 00:01:00 --".

Definition example_header : str :=
  lit "Emulator: EMU1 Hardware: Box3000 Configmgr: CM7 System Status: OK".

Definition dashed_header : str :=
  lit "Emulator: EMU1 Hardware: Box-3000 Configmgr: CM7 System Status: OK".

(** ** The vocabulary of the further properties *)

(** [d.get(k)] on the dictionary of [get_domains_by_user]. *)
Definition dict_get (k : str) (dct : user_dict) : option (list Domain) :=
  option_map snd (find (fun e => str_eqb (fst e) k) dct).

(** The distinct elements of [l], each at its first occurrence. *)
Definition first_seen (l : list str) : list str :=
  fold_left
    (fun seen k => if existsb (fun k' => str_eqb k' k) seen then seen
                   else seen ++ [k])
    l [].

(** [dm.owner == k] *)
Definition owned_by (k : str) (dm : Domain) : bool := str_eqb (owner dm) k.

(** A field of [split]: not empty, and without whitespace. *)
Definition token (f : str) : Prop :=
  f <> [] /\ forallb (fun c => negb (isspace c)) f = true.

(** What [parse_output] reads from a cluster line: the cluster number,
    when [int] returns it. *)
Definition cluster_of_line (line : str) : option Z :=
  if startswith line (lit "Cluster") then
    match Re.re_match Patterns.cluster_re line with
    | Some m =>
        match int_of_str (Re.group m 1) with
        | Ok c => Some c
        | Raise _ => None
        end
    | None => None
    end
  else None.

(** What [parse_output] reads from a board line: the board id, when [int]
    returns it, and the status. *)
Definition board_of_line (line : str) : option (Z * str) :=
  if startswith line (lit "Board") && contains (lit "has") line
     && contains (lit "domains") line then
    match Re.re_match Patterns.board_re line with
    | Some m =>
        match int_of_str (Re.group m 1) with
        | Ok id => Some (id, Re.group m 2)
        | Raise _ => None
        end
    | None => None
    end
  else None.

(** The boards a text declares, without their domains: one scan of the
    lines that keeps the last cluster number seen. *)
Fixpoint declared_boards (cur : option Z) (lines : list str)
  : list (Z * option Z * str) :=
  match lines with
  | [] => []
  | l :: ls =>
      match cluster_of_line (strip l) with
      | Some c => declared_boards (Some c) ls
      | None =>
          match board_of_line (strip l) with
          | Some (id, st) => (id, cur, st) :: declared_boards cur ls
          | None => declared_boards cur ls
          end
      end
  end.

(** The id, cluster and status of a board. *)
Definition board_head (b : Board) : Z * option Z * str :=
  (board_id b, cluster_id b, status b).

(** A board as a board line gives it: numbers that are not negative and a
    status made of word characters. *)
Definition board_ok (b : Board) : Prop :=
  (0 <= board_id b)%Z
  /\ (forall c, cluster_id b = Some c -> (0 <= c)%Z)
  /\ status b <> []
  /\ forallb isword (status b) = true.

(** A [Domain] as a domain line gives it. *)
Definition domain_ok (dm : Domain) : Prop :=
  constructed dm
  /\ token (owner dm) /\ token (pid dm) /\ token (design dm)
  /\ token (elapsed_time dm) /\ token (reserved_key dm)
  /\ t_pod dm <> lit "--"
  /\ forallb (fun c => negb (isspace c)) (t_pod dm) = true.

(** What every turn of the loop keeps. *)
Definition model_ok (fr : frame) : Prop :=
  (forall c, current_cluster fr = Some c -> (0 <= c)%Z)
  /\ Forall board_ok (self_boards fr)
  /\ Forall domain_ok (model_domains (self_boards fr)).

(** From [bs1] to [bs2] no board is lost or renamed, the lists of domains
    only grow at their end, and only the last board of [bs1] grows. *)
Definition grows (bs1 bs2 : list Board) : Prop :=
  forall i b,
    nth_error bs1 i = Some b ->
    exists b' more,
      nth_error bs2 i = Some b'
      /\ board_head b' = board_head b
      /\ domains b' = domains b ++ more
      /\ ((S i < length bs1)%nat -> more = []).

(** The current board is the last board of the list. *)
Definition current_is_last (fr : frame) : Prop :=
  current_board fr
  = match self_boards fr with
    | [] => None
    | _ :: _ => Some (length (self_boards fr) - 1)%nat
    end.

(** The lines that [parse_output] passes over, whatever the frame. *)
Definition ignored (line : str) : Prop :=
  line = []
  \/ (startswith line (lit "Cluster") = true
      /\ Re.re_match Patterns.cluster_re line = None)
  \/ (startswith line (lit "Cluster") = false
      /\ startswith line (lit "Board") && contains (lit "has") line
         && contains (lit "domains") line = true
      /\ Re.re_match Patterns.board_re line = None)
  \/ (startswith line (lit "Cluster") = false
      /\ startswith line (lit "Board") && contains (lit "has") line
         && contains (lit "domains") line = false
      /\ domain_shaped line = false)
  \/ (domain_shaped line = true
      /\ (column_header line = true
          \/ (length (split_ws line) < 8)%nat
          \/ forall x y, ~ int_dot_int (field (split_ws line) 0) x y)).

(** Runs of characters of one class, not empty. *)
Definition run_of (c : ascii -> bool) (a : str) : Prop :=
  a <> [] /\ forallb c a = true.

(** [s] does not go on with a character of the class [c]. *)
Definition stops (c : ascii -> bool) (s : str) : Prop :=
  match s with
  | [] => True
  | x :: _ => c x = false
  end.

Definition orphan_report : str :=
  join_lines
    [lit "Emulator: EMU1";
     lit "Cluster 0 has 1 boards CCD: X";
     lit "0.0 NONE -- -- -- -- DESIGNA 00:01:00 --"].

(** One turn of the loops of [get_domains_by_user]. *)
Definition step (ud : user_dict) (dm : Domain) : user_dict :=
  dict_append (owner dm) dm ud.

(** The digits of a decimal numeral, as characters. *)
Definition chars (d : Decimal.uint) : str :=
  list_ascii_of_string (DecimalString.NilEmpty.string_of_uint d).

(** ** Facts about the built-ins *)

Section PyFacts.

Lemma str_eqb_eq (a b : str) : str_eqb a b = true <-> a = b.
Proof.
  revert b; induction a as [|x a IH]; intros [|y b]; simpl;
    try (split; [discriminate | congruence]); try tauto.
  rewrite andb_true_iff, Ascii.eqb_eq, IH.
  split; [intros [-> ->]; reflexivity | intros [= -> ->]; auto].
Qed.

Lemma startswith_app (s p : str) :
  startswith s p = true <-> exists r, s = p ++ r.
Proof.
  revert s; induction p as [|x p IH]; intros s; simpl.
  - split; [intros _; exists s; reflexivity | destruct s; reflexivity].
  - destruct s as [|y s].
    + split; [discriminate | intros [r Hr]; discriminate].
    + simpl. rewrite andb_true_iff, Ascii.eqb_eq, IH. split.
      * intros [-> [r ->]]. exists r; reflexivity.
      * intros [r [= -> ->]]. split; [reflexivity | exists r; reflexivity].
Qed.

Lemma contains_char (c : ascii) (s : str) :
  contains [c] s = true <-> In c s.
Proof.
  induction s as [|y s IH]; simpl.
  - split; [discriminate | tauto].
  - rewrite orb_true_iff, andb_true_iff, Ascii.eqb_eq, IH.
    destruct s; simpl; intuition congruence.
Qed.

Lemma lstrip_split (s : str) :
  exists w, s = w ++ lstrip s /\ forallb isspace w = true.
Proof.
  induction s as [|c s [w [Hs Hw]]]; simpl.
  - exists []; auto.
  - destruct (isspace c) eqn:E.
    + exists (c :: w); simpl. rewrite E, Hw, <- Hs. auto.
    + exists []; auto.
Qed.

Lemma lstrip_head (s : str) (c : ascii) (r : str) :
  lstrip s = c :: r -> isspace c = false.
Proof.
  induction s as [|x s IH]; simpl; [discriminate|].
  destruct (isspace x) eqn:E; [exact IH | intros [= <- _]; exact E].
Qed.

Lemma lstrip_spaces (w s : str) :
  forallb isspace w = true -> lstrip (w ++ s) = lstrip s.
Proof.
  induction w as [|c w IH]; simpl; [reflexivity|].
  rewrite andb_true_iff; intros [-> Hw]; auto.
Qed.

Lemma lstrip_nonspace (c : ascii) (s : str) :
  isspace c = false -> lstrip (c :: s) = c :: s.
Proof. simpl; intros ->; reflexivity. Qed.

Lemma lstrip_all_spaces (w : str) :
  forallb isspace w = true -> lstrip w = [].
Proof.
  intros H. rewrite <- (app_nil_r w), lstrip_spaces by exact H. reflexivity.
Qed.

Lemma lstrip_In (c : ascii) (s : str) : In c (lstrip s) -> In c s.
Proof.
  destruct (lstrip_split s) as [w [Hs _]]. intros H.
  rewrite Hs. apply in_or_app; right; exact H.
Qed.

Lemma rstrip_In (c : ascii) (s : str) : In c (rstrip s) -> In c s.
Proof.
  unfold rstrip. intros H. apply in_rev in H. apply lstrip_In in H.
  apply in_rev; exact H.
Qed.

Lemma strip_In (c : ascii) (s : str) : In c (strip s) -> In c s.
Proof. unfold strip. intros H. apply lstrip_In, rstrip_In, H. Qed.

Lemma forallb_rev {A} (f : A -> bool) (l : list A) :
  forallb f (rev l) = forallb f l.
Proof.
  induction l as [|x l IH]; simpl; [reflexivity|].
  rewrite forallb_app, IH; simpl. rewrite andb_true_r, andb_comm. reflexivity.
Qed.

(** [rstrip] drops a whitespace suffix and stops at the last character
    that is not whitespace. *)
Lemma rstrip_spaces (s w : str) :
  forallb isspace w = true -> rstrip (s ++ w) = rstrip s.
Proof.
  intros H. unfold rstrip. rewrite rev_app_distr, lstrip_spaces; [reflexivity|].
  rewrite forallb_rev; exact H.
Qed.

Lemma rstrip_keep (a s : str) :
  rstrip s <> [] -> rstrip (a ++ s) = a ++ rstrip s.
Proof.
  unfold rstrip. intros H. rewrite rev_app_distr.
  destruct (lstrip_split (rev s)) as [w [Hs Hw]].
  destruct (lstrip (rev s)) as [|c r] eqn:E; [contradiction|].
  rewrite Hs at 1. rewrite <- app_assoc, lstrip_spaces by exact Hw.
  simpl. rewrite (lstrip_head _ _ _ E). 
  change (c :: r ++ rev a) with ((c :: r) ++ rev a).
  rewrite rev_app_distr, rev_involutive. reflexivity.
Qed.

Lemma decimal_range (c : ascii) :
  isdecimal c = true -> (0 <= Z.of_nat (code c) - 48 <= 9)%Z.
Proof.
  unfold isdecimal, between. rewrite andb_true_iff, !Nat.leb_le. lia.
Qed.

Lemma decimal_not (c x : ascii) :
  isdecimal c = true -> isdecimal x = false -> Ascii.eqb c x = false.
Proof.
  intros H Hx. destruct (Ascii.eqb_spec c x) as [->|]; congruence.
Qed.

Lemma decimal_nonspace (c : ascii) : isdecimal c = true -> isspace c = false.
Proof.
  unfold isdecimal, isspace, between.
  rewrite andb_true_iff, !Nat.leb_le. intros [H1 H2].
  repeat (apply orb_false_iff; split); apply andb_false_iff;
    rewrite !Nat.leb_gt; lia.
Qed.

Lemma int_digits_digits (a : str) : forall acc us,
  forallb isdecimal a = true -> a <> [] \/ us = false ->
  exists z, int_digits acc us a = Some z.
Proof.
  induction a as [|c a IH]; intros acc us Ha Hne; cbn [int_digits].
  - destruct Hne as [Hne | ->]; [congruence | eauto].
  - simpl in Ha. apply andb_true_iff in Ha as [Hc Ha].
    rewrite (decimal_not c "_" Hc eq_refl), Hc. apply IH; auto.
Qed.

Lemma int_digits_nonneg (s : str) : forall acc us z,
  (0 <= acc)%Z -> int_digits acc us s = Some z -> (0 <= z)%Z.
Proof.
  induction s as [|c s IH]; intros acc us z Hacc; cbn [int_digits].
  - destruct us; [discriminate | intros [= <-]; exact Hacc].
  - destruct (Ascii.eqb c "_").
    + destruct us; [discriminate | apply IH; exact Hacc].
    + destruct (isdecimal c) eqn:Hc; [|discriminate].
      apply IH. pose proof (decimal_range _ Hc). lia.
Qed.

Lemma int_digits_chars (s : str) : forall acc us z,
  int_digits acc us s = Some z ->
  forall c, In c s -> c = "_"%char \/ isdecimal c = true.
Proof.
  induction s as [|x s IH]; intros acc us z H c Hin; [contradiction|].
  cbn [int_digits] in H. destruct (Ascii.eqb_spec x "_") as [->|Hx].
  - destruct us; [discriminate|]. destruct Hin as [<-|Hin]; [auto | eauto].
  - destruct (isdecimal x) eqn:Hd; [|discriminate].
    destruct Hin as [<-|Hin]; [auto | eauto].
Qed.

Lemma int_space_isspace (c : ascii) : int_space c = true -> isspace c = true.
Proof.
  unfold int_space, isspace, between.
  rewrite !orb_true_iff, !andb_true_iff, !Nat.leb_le. lia.
Qed.

Lemma int_lstrip_split (s : str) :
  exists w, s = w ++ int_lstrip s /\ forallb int_space w = true.
Proof.
  induction s as [|c s [w [Hs Hw]]]; simpl.
  - exists []; auto.
  - destruct (int_space c) eqn:E.
    + exists (c :: w); simpl. rewrite E, Hw, <- Hs. auto.
    + exists []; auto.
Qed.

Lemma int_strip_split (s : str) :
  exists w1 w2, s = w1 ++ int_strip s ++ w2
                /\ forallb int_space w1 = true /\ forallb int_space w2 = true.
Proof.
  destruct (int_lstrip_split s) as [w1 [H1 Hw1]].
  destruct (int_lstrip_split (rev (int_lstrip s))) as [w2 [H2 Hw2]].
  exists w1, (rev w2). repeat split; [|exact Hw1|rewrite forallb_rev; exact Hw2].
  unfold int_strip. rewrite <- rev_app_distr, <- H2, rev_involutive.
  exact H1.
Qed.

Lemma int_strip_In (c : ascii) (s : str) : In c (int_strip s) -> In c s.
Proof.
  destruct (int_strip_split s) as [w1 [w2 [Hs _]]]. intros H.
  rewrite Hs. apply in_or_app; right. apply in_or_app; left; exact H.
Qed.

(** [int] drops nothing from a text without whitespace. *)
Lemma int_strip_nonspace (s : str) :
  forallb (fun c => negb (isspace c)) s = true -> int_strip s = s.
Proof.
  intros H. unfold int_strip.
  assert (L : forall t, forallb (fun c => negb (isspace c)) t = true ->
                        int_lstrip t = t).
  { intros [|c t]; simpl; [reflexivity|].
    rewrite andb_true_iff, negb_true_iff. intros [Hc _].
    destruct (int_space c) eqn:E; [|reflexivity].
    apply int_space_isspace in E. congruence. }
  rewrite (L s H), L, rev_involutive; [reflexivity|].
  rewrite forallb_rev; exact H.
Qed.

Lemma digit_count_digits (a : str) :
  forallb isdecimal a = true -> digit_count a = length a.
Proof.
  unfold digit_count. induction a as [|c a IH]; simpl; [reflexivity|].
  rewrite andb_true_iff. intros [-> Ha]. simpl. rewrite IH; auto.
Qed.

Lemma digits_nonspace (a : str) :
  forallb isdecimal a = true -> forallb (fun c => negb (isspace c)) a = true.
Proof.
  rewrite !forallb_forall. intros Ha c Hc.
  rewrite (decimal_nonspace _ (Ha c Hc)); reflexivity.
Qed.

(** What [int] makes of a run of decimal digits: the sign and the
    whitespace play no part, and the number of digits decides. *)
Lemma int_of_run (a : str) :
  a <> [] -> forallb isdecimal a = true ->
  int_of_str a
  = match int_digits 0 true a with
    | Some n => if (length a <=? max_str_digits)%nat then Ok n
                else Raise ValueError
    | None => Raise ValueError
    end.
Proof.
  intros Hne Ha. unfold int_of_str.
  rewrite (int_strip_nonspace _ (digits_nonspace _ Ha)).
  destruct a as [|c a]; [congruence|].
  pose proof Ha as Ha'. simpl in Ha'. apply andb_true_iff in Ha' as [Hc _].
  rewrite (decimal_not c "-" Hc eq_refl), (decimal_not c "+" Hc eq_refl).
  rewrite (digit_count_digits _ Ha). reflexivity.
Qed.

(** A string of at most [max_str_digits] decimal digits is read by [int]
    without an error. *)
Lemma int_of_digits (a : str) :
  a <> [] -> forallb isdecimal a = true -> (length a <= max_str_digits)%nat ->
  exists z, int_of_str a = Ok z /\ (0 <= z)%Z.
Proof.
  intros Hne Ha Hl. rewrite (int_of_run a Hne Ha).
  destruct (int_digits_digits _ 0%Z true Ha (or_introl Hne)) as [z Hz].
  rewrite Hz. apply Nat.leb_le in Hl. rewrite Hl.
  exists z; split; [reflexivity|].
  eapply int_digits_nonneg; [|exact Hz]. lia.
Qed.

Lemma int_of_digits_nonneg (a : str) (z : Z) :
  a <> [] -> forallb isdecimal a = true -> int_of_str a = Ok z -> (0 <= z)%Z.
Proof.
  intros Hne Ha. rewrite (int_of_run a Hne Ha).
  destruct (int_digits 0 true a) as [n|] eqn:E; [|discriminate].
  destruct (length a <=? max_str_digits)%nat; [|discriminate].
  intros [= <-]. eapply int_digits_nonneg; [|exact E]. lia.
Qed.

(** A longer string of digits makes [int] raise. *)
Lemma int_of_long_digits (a : str) :
  forallb isdecimal a = true -> (max_str_digits < length a)%nat ->
  int_of_str a = Raise ValueError.
Proof.
  intros Ha Hl.
  assert (Hne : a <> []) by (intros ->; simpl in Hl; lia).
  rewrite (int_of_run a Hne Ha).
  destruct (int_digits 0 true a); [|reflexivity].
  apply Nat.leb_gt in Hl. rewrite Hl. reflexivity.
Qed.

(** [int] raises nothing but [ValueError]. *)
Lemma int_of_str_cases (s : str) :
  (exists z, int_of_str s = Ok z) \/ int_of_str s = Raise ValueError.
Proof.
  unfold int_of_str.
  destruct (match int_strip s with
            | [] => (false, int_strip s)
            | c :: r =>
                if Ascii.eqb c "-" then (true, r)
                else if Ascii.eqb c "+" then (false, r)
                else (false, int_strip s)
            end) as [neg body].
  destruct (int_digits 0 true body); [|auto].
  destruct (digit_count body <=? max_str_digits)%nat; eauto.
Qed.

Lemma int_of_str_chars (a : str) (z : Z) :
  int_of_str a = Ok z -> forall c, In c a -> int_char c.
Proof.
  unfold int_of_str. intros H c Hin.
  destruct (int_strip_split a) as [w1 [w2 [Ha [Hw1 Hw2]]]].
  rewrite Ha in Hin. rewrite forallb_forall in Hw1, Hw2.
  apply in_app_or in Hin as [Hin|Hin]; [left; auto|].
  apply in_app_or in Hin as [Hin|Hin]; [|left; auto].
  assert (D : forall neg body,
    match int_digits 0 true body with
    | Some n =>
        if (digit_count body <=? max_str_digits)%nat
        then Ok (if neg : bool then (- n)%Z else n)
        else Raise ValueError
    | None => Raise ValueError
    end = Ok z -> In c body -> int_char c).
  { intros neg body Hb Hc.
    destruct (int_digits 0 true body) as [n|] eqn:E; [|discriminate].
    destruct (int_digits_chars _ _ _ _ E c Hc); unfold int_char; auto. }
  destruct (int_strip a) as [|x t]; [contradiction|].
  destruct (Ascii.eqb_spec x "-") as [->|].
  - destruct Hin as [<-|Hin]; [unfold int_char; auto | exact (D true t H Hin)].
  - destruct (Ascii.eqb_spec x "+") as [->|].
    + destruct Hin as [<-|Hin]; [unfold int_char; auto | exact (D false t H Hin)].
    + exact (D false (x :: t) H Hin).
Qed.

Lemma int_of_str_no_dot (a : str) (z : Z) :
  int_of_str a = Ok z -> ~ In "."%char a.
Proof.
  intros H Hin. destruct (int_of_str_chars _ _ H _ Hin) as [E|[E|[E|[E|E]]]];
    discriminate E.
Qed.

(** [int] gives a negative number only for a string with a minus sign. *)
Lemma int_of_str_neg (a : str) (z : Z) :
  int_of_str a = Ok z -> (z < 0)%Z -> In "-"%char a.
Proof.
  unfold int_of_str. intros H Hz. apply int_strip_In.
  assert (D : forall body n, int_digits 0 true body = Some n -> (0 <= n)%Z).
  { intros body n E. eapply int_digits_nonneg; [|exact E]. lia. }
  destruct (int_strip a) as [|x t].
  - simpl in H. discriminate.
  - destruct (Ascii.eqb_spec x "-") as [->|]; [left; reflexivity|].
    exfalso. destruct (Ascii.eqb x "+").
    + destruct (int_digits 0 true t) eqn:E; [|discriminate].
      destruct (digit_count t <=? max_str_digits)%nat; [|discriminate].
      injection H as <-. apply D in E. lia.
    + destruct (int_digits 0 true (x :: t)) eqn:E; [|discriminate].
      destruct (digit_count (x :: t) <=? max_str_digits)%nat; [|discriminate].
      injection H as <-. apply D in E. lia.
Qed.

Lemma split_on_cons (sep : ascii) (s : str) :
  exists h t, split_on sep s = h :: t.
Proof.
  destruct s as [|c s]; simpl; [eauto|].
  destruct (Ascii.eqb c sep); [eauto|].
  destruct (split_on sep s); eauto.
Qed.

Lemma split_on_no_sep (sep : ascii) (a : str) :
  ~ In sep a -> split_on sep a = [a].
Proof.
  induction a as [|c a IH]; intros H; simpl; [reflexivity|].
  destruct (Ascii.eqb_spec c sep) as [->|_]; [exfalso; apply H; left; reflexivity|].
  rewrite IH; [reflexivity|]. intros Hin; apply H; right; exact Hin.
Qed.

Lemma split_on_app (sep : ascii) (a r : str) :
  ~ In sep a -> split_on sep (a ++ sep :: r) = a :: split_on sep r.
Proof.
  induction a as [|c a IH]; intros H; simpl.
  - rewrite Ascii.eqb_refl; reflexivity.
  - destruct (Ascii.eqb_spec c sep) as [->|_]; [exfalso; apply H; left; reflexivity|].
    rewrite IH; [reflexivity|]. intros Hin; apply H; right; exact Hin.
Qed.

Lemma split_on_head (sep : ascii) (s : str) : forall h t,
  split_on sep s = h :: t ->
  match t with
  | [] => s = h
  | _ :: _ => exists r, s = h ++ sep :: r /\ split_on sep r = t
  end.
Proof.
  induction s as [|c s IH]; intros h t; simpl.
  - intros [= <- <-]; reflexivity.
  - destruct (Ascii.eqb_spec c sep) as [->|_].
    + intros [= <- <-]. destruct (split_on_cons sep s) as [h' [t' E]].
      rewrite E. exists s; split; [reflexivity | exact E].
    + destruct (split_on sep s) as [|h' t'] eqn:E.
      * destruct (split_on_cons sep s) as [? [? E']]; congruence.
      * intros [= <- <-]. specialize (IH h' t' eq_refl).
        destruct t'; [subst; reflexivity|].
        destruct IH as [r [-> Hr]]. exists r; split; [reflexivity | exact Hr].
Qed.

(** The pieces of [s.split(sep)], once there are exactly two. *)
Lemma split_on_two (sep : ascii) (s a b : str) :
  split_on sep s = [a; b] -> s = a ++ sep :: b.
Proof.
  intros H. apply split_on_head in H as [r [-> Hr]].
  apply split_on_head in Hr. subst; reflexivity.
Qed.

End PyFacts.

(** ** Facts about the matcher *)

Section ReFacts.
Import Re.

Lemma strip_prefix_app (l s s' : str) :
  strip_prefix l s = Some s' <-> s = l ++ s'.
Proof.
  revert s; induction l as [|x l IH]; intros s.
  - destruct s; simpl; split; congruence.
  - destruct s as [|y s]; simpl; [split; discriminate|].
    destruct (Ascii.eqb_spec x y) as [->|Hxy].
    + rewrite IH. split; [intros ->; reflexivity | intros [= ->]; reflexivity].
    + split; [discriminate | intros [= -> _]; congruence].
Qed.

Lemma strip_prefix_startswith (l s : str) :
  startswith s l = false -> strip_prefix l s = None.
Proof.
  intros H. destruct (strip_prefix l s) as [s'|] eqn:E; [|reflexivity].
  apply strip_prefix_app in E.
  assert (startswith s l = true) by (apply startswith_app; eauto).
  congruence.
Qed.

Lemma star_greedy_inv (c : ascii -> bool) (k : str -> option groups) (s : str) res :
  star_greedy c k s = Some res ->
  exists a s', s = a ++ s' /\ forallb c a = true /\ k s' = Some res.
Proof.
  induction s as [|x s IH]; simpl; intros H.
  - exists [], []; auto.
  - destruct (c x) eqn:Hx; [|exists [], (x :: s); auto].
    destruct (star_greedy c k s) as [r|] eqn:E.
    + injection H as <-. destruct (IH eq_refl) as [a [s' [-> [Ha Hk]]]].
      exists (x :: a), s'; simpl; rewrite Hx, Ha; auto.
    + exists [], (x :: s); auto.
Qed.

Lemma lit_inv l (k : cont) s g res :
  rmatch (RLit l) k s g = Some res ->
  exists s', s = l ++ s' /\ k s' g = Some res.
Proof.
  simpl. destruct (strip_prefix l s) as [s'|] eqn:E; [|discriminate].
  apply strip_prefix_app in E. eauto.
Qed.

Lemma plus_inv c (k : cont) s g res :
  rmatch (RPlus c) k s g = Some res ->
  exists a s', a <> [] /\ forallb c a = true /\ s = a ++ s'
               /\ k s' g = Some res.
Proof.
  simpl. destruct s as [|x s]; [discriminate|].
  destruct (c x) eqn:Hx; [|discriminate]. intros H.
  apply star_greedy_inv in H as [a [s' [-> [Ha Hk]]]].
  exists (x :: a), s'; simpl; rewrite Hx, Ha.
  repeat split; [discriminate | exact Hk].
Qed.

Lemma firstn_consumed (a s' : str) :
  firstn (length (a ++ s') - length s') (a ++ s') = a.
Proof.
  rewrite length_app, Nat.add_sub, firstn_app, Nat.sub_diag, firstn_all.
  simpl. apply app_nil_r.
Qed.

Lemma group_plus_inv c (k : cont) s g res :
  rmatch (RGroup (RPlus c)) k s g = Some res ->
  exists a s', a <> [] /\ forallb c a = true /\ s = a ++ s'
               /\ k s' (g ++ [a]) = Some res.
Proof.
  cbn [rmatch]. intros H.
  apply (plus_inv c (fun s' g' => k s' (g' ++ [firstn (length s - length s') s])))
    in H as [a [s' [Hne [Ha [-> Hk]]]]].
  rewrite firstn_consumed in Hk. eauto 8.
Qed.

Lemma seq_lit_inv l r (k : cont) s g res :
  rmatch (RSeq (RLit l) r) k s g = Some res ->
  exists s', s = l ++ s' /\ rmatch r k s' g = Some res.
Proof. exact (lit_inv l (rmatch r k) s g res). Qed.

Lemma seq_plus_inv c r (k : cont) s g res :
  rmatch (RSeq (RPlus c) r) k s g = Some res ->
  exists a s', a <> [] /\ forallb c a = true /\ s = a ++ s'
               /\ rmatch r k s' g = Some res.
Proof. exact (plus_inv c (rmatch r k) s g res). Qed.

Lemma seq_group_plus_inv c r (k : cont) s g res :
  rmatch (RSeq (RGroup (RPlus c)) r) k s g = Some res ->
  exists a s', a <> [] /\ forallb c a = true /\ s = a ++ s'
               /\ rmatch r k s' (g ++ [a]) = Some res.
Proof. exact (group_plus_inv c (rmatch r k) s g res). Qed.

(** A match of the cluster pattern: group 1 is a run of digits. *)
Lemma cluster_re_groups (line : str) (m : groups) :
  re_match Patterns.cluster_re line = Some m ->
  exists a b, m = [a; b] /\ a <> [] /\ forallb isdecimal a = true
              /\ b <> [] /\ forallb isword b = true.
Proof.
  unfold re_match, Patterns.cluster_re; cbn [seq]. intros H.
  apply seq_lit_inv in H as [s1 [-> H]].
  apply seq_group_plus_inv in H as [a [s2 [Hne [Ha [-> H]]]]].
  apply seq_lit_inv in H as [s3 [-> H]].
  apply seq_plus_inv in H as [n [s4 [_ [_ [-> H]]]]].
  apply seq_lit_inv in H as [s5 [-> H]].
  apply seq_plus_inv in H as [w1 [s6 [_ [_ [-> H]]]]].
  apply seq_lit_inv in H as [s7 [-> H]].
  apply group_plus_inv in H as [b [s8 [Hbne [Hb [-> H]]]]].
  injection H as <-. exists a, b; auto.
Qed.

(** A match of the board pattern: group 1 is a run of digits. *)
Lemma board_re_groups (line : str) (m : groups) :
  re_match Patterns.board_re line = Some m ->
  exists a b, m = [a; b] /\ a <> [] /\ forallb isdecimal a = true
              /\ b <> [] /\ forallb isword b = true.
Proof.
  unfold re_match, Patterns.board_re; cbn [seq]. intros H.
  apply seq_lit_inv in H as [s1 [-> H]].
  apply seq_plus_inv in H as [w0 [s2 [_ [_ [-> H]]]]].
  apply seq_group_plus_inv in H as [a [s3 [Hne [Ha [-> H]]]]].
  apply seq_lit_inv in H as [s4 [-> H]].
  apply seq_plus_inv in H as [w1 [s5 [_ [_ [-> H]]]]].
  apply seq_plus_inv in H as [n [s6 [_ [_ [-> H]]]]].
  apply seq_lit_inv in H as [s7 [-> H]].
  apply seq_plus_inv in H as [w2 [s8 [_ [_ [-> H]]]]].
  apply seq_lit_inv in H as [s9 [-> H]].
  apply group_plus_inv in H as [b [s10 [Hbne [Hb [-> H]]]]].
  injection H as <-. exists a, b; auto.
Qed.

Lemma contains_startswith (l s : str) :
  startswith s l = true -> contains l s = true.
Proof. destruct s; simpl; intros ->; reflexivity. Qed.

Lemma contains_false_startswith (l s : str) :
  contains l s = false -> startswith s l = false.
Proof.
  intros H. destruct (startswith s l) eqn:E; [|reflexivity].
  apply contains_startswith in E. congruence.
Qed.

(** A pattern that begins with a literal finds nothing in a text in which
    the literal does not occur. *)
Lemma re_search_absent (l : str) (r : regex) (s : str) :
  contains l s = false -> re_search (RSeq (RLit l) r) s = None.
Proof.
  induction s as [|x s IH]; intros H.
  - cbn [re_search]. unfold re_match; cbn [rmatch].
    rewrite (strip_prefix_startswith _ _ (contains_false_startswith _ _ H)).
    reflexivity.
  - cbn [re_search]. unfold re_match; cbn [rmatch].
    rewrite (strip_prefix_startswith _ _ (contains_false_startswith _ _ H)).
    apply IH. simpl in H. apply orb_false_iff in H as [_ H]. exact H.
Qed.

End ReFacts.

(** ** When the loop of [parse_output] raises *)

Section Totality.

Lemma caught_all (e : exn) : caught e = true.
Proof. destruct e; reflexivity. Qed.

(** One turn of the loop returns when the number of the line fits, and
    raises [ValueError] when it does not. *)
Lemma process_line_total (fr : frame) (line : str) :
  if fits line then exists fr', process_line fr line = Ok fr'
  else process_line fr line = Raise ValueError.
Proof.
  unfold fits, number_of_line, process_line.
  destruct (strip line) as [|c l]; [simpl; eauto|].
  destruct (startswith (c :: l) (lit "Cluster")).
  { destruct (Re.re_match Patterns.cluster_re (c :: l)) as [m|] eqn:E;
      [|simpl; eauto].
    apply cluster_re_groups in E as [a [b [-> [Hne [Ha _]]]]].
    cbn [option_map Re.group Nat.sub nth].
    destruct (Nat.leb_spec (length a) max_str_digits) as [L|L].
    - destruct (int_of_digits a Hne Ha L) as [z [Hz _]].
      rewrite Hz. simpl; eauto.
    - rewrite (int_of_long_digits a Ha L). reflexivity. }
  destruct (startswith (c :: l) (lit "Board") && contains (lit "has") (c :: l)
            && contains (lit "domains") (c :: l)).
  { destruct (Re.re_match Patterns.board_re (c :: l)) as [m|] eqn:E;
      [|simpl; eauto].
    apply board_re_groups in E as [a [b [-> [Hne [Ha _]]]]].
    cbn [option_map Re.group Nat.sub nth].
    destruct (Nat.leb_spec (length a) max_str_digits) as [L|L].
    - destruct (int_of_digits a Hne Ha L) as [z [Hz _]].
      rewrite Hz. simpl; eauto.
    - rewrite (int_of_long_digits a Ha L). reflexivity. }
  destruct (domain_shaped (c :: l)); [|eauto].
  destruct (column_header (c :: l)); [eauto|].
  destruct (8 <=? length (split_ws (c :: l)))%nat; [|eauto].
  destruct (current_board fr); [|eauto].
  destruct (domain_of_parts (allocated fr) (split_ws (c :: l))) as [[dm|]|e];
    [eauto | eauto | rewrite caught_all; eauto].
Qed.

(** The loop returns exactly when the number of every line fits; it
    raises nothing but [ValueError]. *)
Lemma run_lines_total (lines : list str) : forall fr,
  if forallb fits lines then exists fr', run_lines fr lines = Ok fr'
  else run_lines fr lines = Raise ValueError.
Proof.
  induction lines as [|l ls IH]; intros fr; cbn [forallb run_lines]; [eauto|].
  pose proof (process_line_total fr l) as P.
  destruct (fits l); cbn [andb].
  - destruct P as [fr1 ->]. cbn [bind]. apply IH.
  - rewrite P. reflexivity.
Qed.

(** When the loop returns, so does [parse_output]: its boards are those
    the loop builds from an empty list, and its header fields come from the
    first line.  When the loop raises, so does [parse_output]. *)
Lemma parse_output_run (self : EmulatorResourceParser) (now output : str) :
  match run_lines loop_start (body_lines output) with
  | Ok fr =>
      exists m,
        parse_output self now output = Ok m
        /\ boards m = self_boards fr
        /\ emulator_name m = emulator_name (_parse_header Parser_init (header_line output))
        /\ hardware m = hardware (_parse_header Parser_init (header_line output))
        /\ configmgr m = configmgr (_parse_header Parser_init (header_line output))
        /\ system_status m = system_status (_parse_header Parser_init (header_line output))
        /\ raw_output m = raw_output self
        /\ timestamp m = Some (match timestamp self with
                               | Some t => t
                               | None => now
                               end)
  | Raise e => parse_output self now output = Raise e
  end.
Proof.
  unfold parse_output, header_line, body_lines.
  destruct (split_on_cons nl (strip output)) as [h [t E]].
  rewrite E. cbn [boards _parse_header tl hd].
  fold loop_start. destruct (run_lines loop_start t) as [fr|e]; cbn [bind].
  - eexists. repeat split; try reflexivity.
    cbn [timestamp]. destruct (timestamp self); reflexivity.
  - reflexivity.
Qed.

(** What a model that [parse_output] returned was made from. *)
Lemma parse_output_ok (self m : EmulatorResourceParser) (now output : str) :
  parse_output self now output = Ok m ->
  exists fr,
    run_lines loop_start (body_lines output) = Ok fr
    /\ boards m = self_boards fr
    /\ emulator_name m = emulator_name (_parse_header Parser_init (header_line output))
    /\ hardware m = hardware (_parse_header Parser_init (header_line output))
    /\ configmgr m = configmgr (_parse_header Parser_init (header_line output))
    /\ system_status m = system_status (_parse_header Parser_init (header_line output)).
Proof.
  intros P. pose proof (parse_output_run self now output) as R.
  destruct (run_lines loop_start (body_lines output)) as [fr|e].
  - destruct R as [m' [P' [B [E1 [E2 [E3 [E4 _]]]]]]].
    rewrite P in P'. injection P' as <-. exists fr. auto 10.
  - congruence.
Qed.

(** [parse_output] returns exactly when the number of every line after
    the header fits. *)
Lemma parse_output_returns (self : EmulatorResourceParser) (now output : str) :
  if forallb fits (body_lines output)
  then exists m, parse_output self now output = Ok m
  else parse_output self now output = Raise ValueError.
Proof.
  pose proof (run_lines_total (body_lines output) loop_start) as T.
  pose proof (parse_output_run self now output) as R.
  destruct (forallb fits (body_lines output)).
  - destruct T as [fr T]. rewrite T in R. destruct R as [m [P _]]. eauto.
  - rewrite T in R. exact R.
Qed.

End Totality.

(** ** Rounding to the nearest float *)

Section Floats.

Ltac closed := vm_compute; congruence.

Lemma round_half_even_near (q : Q) :
  - (1 # 2) <= inject_Z (round_half_even q) - q <= 1 # 2.
Proof.
  unfold round_half_even.
  pose proof (Qfloor_le q) as L. pose proof (Qlt_floor q) as U.
  rewrite inject_Z_plus in U. change (inject_Z 1) with 1 in U.
  destruct (Qcompare (q - inject_Z (Qfloor q)) (1 # 2)) eqn:E.
  - apply Qeq_alt in E. destruct (Z.even (Qfloor q));
      rewrite ?inject_Z_plus; change (inject_Z 1) with 1; lra.
  - apply Qlt_alt in E. lra.
  - apply Qgt_alt in E. rewrite inject_Z_plus. change (inject_Z 1) with 1. lra.
Qed.

Lemma round_half_even_comp (p q : Q) :
  p == q -> round_half_even p = round_half_even q.
Proof.
  intros H. unfold round_half_even.
  rewrite (Qfloor_comp _ _ H).
  assert (E : p - inject_Z (Qfloor q) == q - inject_Z (Qfloor q))
    by (rewrite H; reflexivity).
  rewrite (Qcompare_comp _ _ E _ _ (Qeq_refl (1 # 2))). reflexivity.
Qed.

(** Rounding keeps a number on its side of an integer. *)
Lemma round_half_even_le (q : Q) (b : Z) :
  q <= inject_Z b -> (round_half_even q <= b)%Z.
Proof.
  intros Ub. unfold round_half_even.
  pose proof (Qfloor_resp_le _ _ Ub) as Fb. rewrite Qfloor_Z in Fb.
  pose proof (Qfloor_le q) as Fq.
  destruct (Z.eq_dec (Qfloor q) b) as [E|N].
  - assert (C : Qcompare (q - inject_Z (Qfloor q)) (1 # 2) = Lt).
    { apply (proj1 (Qlt_alt _ _)). rewrite E in *. lra. }
    rewrite C. lia.
  - destruct (Qcompare (q - inject_Z (Qfloor q)) (1 # 2));
      try destruct (Z.even (Qfloor q)); lia.
Qed.

Lemma round_half_even_ge (q : Q) (a : Z) :
  inject_Z a <= q -> (a <= round_half_even q)%Z.
Proof.
  intros La. unfold round_half_even.
  pose proof (Qfloor_resp_le _ _ La) as Fa. rewrite Qfloor_Z in Fa.
  destruct (Qcompare (q - inject_Z (Qfloor q)) (1 # 2));
    try destruct (Z.even (Qfloor q)); lia.
Qed.

Lemma pow2_pos (e : Z) : 0 < 2 ^ e.
Proof. apply Qpower_0_lt. reflexivity. Qed.

Lemma pow2_add (a b : Z) : 2 ^ (a + b) == 2 ^ a * 2 ^ b.
Proof. apply Qpower_plus. discriminate. Qed.

Lemma pow2_succ (a : Z) : 2 ^ (a + 1) == 2 * 2 ^ a.
Proof. rewrite pow2_add. change (2 ^ 1) with 2. ring. Qed.

Lemma pow2_le (a b : Z) : (a <= b)%Z -> 2 ^ a <= 2 ^ b.
Proof. intros H. apply Qpower_le_compat_l; [exact H | discriminate]. Qed.

Lemma pow2_lt_inv (a b : Z) : 2 ^ a < 2 ^ b -> (a < b)%Z.
Proof. intros H. apply (Qpower_lt_compat_l_inv 2); [exact H | reflexivity]. Qed.

Lemma pow2_Z (n : Z) : (0 <= n)%Z -> inject_Z (2 ^ n) == 2 ^ n.
Proof. intros H. rewrite (Zpower_Qpower 2 n H). reflexivity. Qed.

Lemma floor_log2_spec (q : Q) :
  0 < q -> 2 ^ floor_log2 q <= q < 2 ^ (floor_log2 q + 1).
Proof.
  destruct q as [n d]. intros Hq.
  assert (Hn : (0 < n)%Z) by (unfold Qlt in Hq; simpl in Hq; lia).
  unfold floor_log2; cbn [Qnum Qden].
  set (a := Z.log2 n). set (b := Z.log2 (Zpos d)).
  pose proof (Z.log2_spec n Hn) as [A1 A2]. fold a in A1, A2.
  pose proof (Z.log2_spec (Zpos d) eq_refl) as [B1 B2]. fold b in B1, B2.
  pose proof (Z.log2_nonneg n) as Na. fold a in Na.
  pose proof (Z.log2_nonneg (Zpos d)) as Nb. fold b in Nb.
  rewrite Zle_Qle, pow2_Z in A1, B1 by assumption.
  rewrite Zlt_Qlt, pow2_Z in A2, B2 by lia.
  replace (Z.succ a) with (a + 1)%Z in A2 by lia.
  replace (Z.succ b) with (b + 1)%Z in B2 by lia.
  rewrite pow2_succ in A2, B2.
  pose proof (pow2_pos a) as Pa. pose proof (pow2_pos b) as Pb.
  assert (D : 0 < inject_Z (Zpos d)) by reflexivity.
  assert (M : (n # d) * inject_Z (Zpos d) == inject_Z n).
  { rewrite (Qmake_Qdiv n d). field. lra. }
  assert (S1 : 2 ^ (a - b) * 2 ^ b == 2 ^ a).
  { rewrite <- pow2_add. replace (a - b + b)%Z with a by lia. reflexivity. }
  destruct (Qle_bool (2 ^ (a - b)) (n # d)) eqn:C.
  - apply Qle_bool_iff in C. split; [exact C|].
    rewrite pow2_succ.
    set (x := n # d) in *. set (P := 2 ^ (a - b)) in *.
    set (A := 2 ^ a) in *. set (B := 2 ^ b) in *.
    set (N := inject_Z n) in *. set (Dd := inject_Z (Zpos d)) in *.
    nra.
  - assert (C' : n # d < 2 ^ (a - b)).
    { apply Qnot_le_lt. intros H. apply Qle_bool_iff in H. congruence. }
    split; [|replace (a - b - 1 + 1)%Z with (a - b)%Z by lia; exact C'].
    assert (S2 : 2 * 2 ^ (a - b - 1) == 2 ^ (a - b)).
    { rewrite <- pow2_succ. replace (a - b - 1 + 1)%Z with (a - b)%Z by lia.
      reflexivity. }
    set (x := n # d) in *. set (P := 2 ^ (a - b)) in *.
    set (P' := 2 ^ (a - b - 1)) in *.
    set (A := 2 ^ a) in *. set (B := 2 ^ b) in *.
    set (N := inject_Z n) in *. set (Dd := inject_Z (Zpos d)) in *.
    nra.
Qed.

Lemma floor_log2_unique (q : Q) (e : Z) :
  2 ^ e <= q < 2 ^ (e + 1) -> floor_log2 q = e.
Proof.
  intros [L U].
  assert (Hq : 0 < q) by (pose proof (pow2_pos e); lra).
  destruct (floor_log2_spec q Hq) as [L' U'].
  assert (e < floor_log2 q + 1)%Z by (apply pow2_lt_inv; lra).
  assert (floor_log2 q < e + 1)%Z by (apply pow2_lt_inv; lra).
  lia.
Qed.

Lemma floor_log2_comp (p q : Q) : 0 < p -> p == q -> floor_log2 p = floor_log2 q.
Proof.
  intros Hp E. symmetry. apply floor_log2_unique.
  rewrite <- E. apply floor_log2_spec, Hp.
Qed.

Lemma floor_log2_below (q : Q) (e : Z) :
  0 < q -> q < 2 ^ (e + 1) -> (floor_log2 q <= e)%Z.
Proof.
  intros Hq U. destruct (floor_log2_spec q Hq) as [L _].
  assert (floor_log2 q < e + 1)%Z by (apply pow2_lt_inv; lra). lia.
Qed.

Lemma floor_log2_above (q : Q) (e : Z) :
  2 ^ e <= q -> (e <= floor_log2 q)%Z.
Proof.
  intros L. assert (Hq : 0 < q) by (pose proof (pow2_pos e); lra).
  destruct (floor_log2_spec q Hq) as [_ U].
  assert (e < floor_log2 q + 1)%Z by (apply pow2_lt_inv; lra). lia.
Qed.

Lemma b64_of_pos (q : Q) : 0 < q -> b64 q = b64_pos q.
Proof.
  intros H. unfold b64. apply Qgt_alt in H. rewrite H. reflexivity.
Qed.

Lemma b64_of_zero (q : Q) : q == 0 -> b64 q = 0.
Proof.
  intros H. unfold b64. apply Qeq_alt in H. rewrite H. reflexivity.
Qed.

Lemma b64_pos_comp (p q : Q) : 0 < p -> p == q -> b64_pos p == b64_pos q.
Proof.
  intros Hp E. unfold b64_pos, ulp_exp.
  rewrite (floor_log2_comp p q Hp E).
  set (e := Z.max (floor_log2 q - 52) (-1074)).
  rewrite (round_half_even_comp (p / 2 ^ e) (q / 2 ^ e)); [reflexivity|].
  rewrite E. reflexivity.
Qed.

Lemma b64_comp (p q : Q) : p == q -> b64 p == b64 q.
Proof.
  intros E. unfold b64.
  rewrite <- (Qcompare_comp _ _ E _ _ (Qeq_refl 0)).
  destruct (Qcompare p 0) eqn:C; [reflexivity|..].
  - apply Qlt_alt in C. rewrite (b64_pos_comp (- p) (- q)); [reflexivity|lra|].
    rewrite E. reflexivity.
  - apply Qgt_alt in C. apply b64_pos_comp; assumption.
Qed.

(** A float lies on the same side of a number of its grid as the number
    it was rounded from. *)
Lemma on_grid (q : Q) (k E : Z) :
  (ulp_exp q <= E)%Z ->
  inject_Z k * 2 ^ E == inject_Z (k * 2 ^ (E - ulp_exp q)) * 2 ^ ulp_exp q.
Proof.
  intros H. rewrite inject_Z_mult, pow2_Z by lia.
  rewrite <- Qmult_assoc, <- pow2_add.
  replace (E - ulp_exp q + ulp_exp q)%Z with E by lia. reflexivity.
Qed.

Lemma b64_pos_le (q : Q) (k E : Z) :
  (ulp_exp q <= E)%Z -> q <= inject_Z k * 2 ^ E ->
  b64_pos q <= inject_Z k * 2 ^ E.
Proof.
  intros H U. rewrite (on_grid q k E H) in *.
  unfold b64_pos. pose proof (pow2_pos (ulp_exp q)) as P.
  apply Qmult_le_compat_r; [|lra].
  rewrite <- Zle_Qle. apply round_half_even_le.
  apply Qle_shift_div_r; assumption.
Qed.

Lemma b64_pos_ge (q : Q) (k E : Z) :
  (ulp_exp q <= E)%Z -> inject_Z k * 2 ^ E <= q ->
  inject_Z k * 2 ^ E <= b64_pos q.
Proof.
  intros H L. rewrite (on_grid q k E H) in *.
  unfold b64_pos. pose proof (pow2_pos (ulp_exp q)) as P.
  apply Qmult_le_compat_r; [|lra].
  rewrite <- Zle_Qle. apply round_half_even_ge.
  apply Qle_shift_div_l; assumption.
Qed.

(** The rounding error is at most half the last bit. *)
Lemma b64_pos_error (q : Q) :
  Qabs (b64_pos q - q) <= 2 ^ ulp_exp q * (1 # 2).
Proof.
  unfold b64_pos. pose proof (pow2_pos (ulp_exp q)) as P.
  pose proof (round_half_even_near (q / 2 ^ ulp_exp q)) as [L U].
  assert (M : q / 2 ^ ulp_exp q * 2 ^ ulp_exp q == q) by (field; lra).
  set (y := q / 2 ^ ulp_exp q) in *.
  set (r := inject_Z (round_half_even y)) in *.
  set (p := 2 ^ ulp_exp q) in *.
  apply Qabs_Qle_condition. split; nra.
Qed.


Lemma round_half_even_lt (q : Q) (n : Z) :
  q < inject_Z n - (1 # 2) -> (round_half_even q < n)%Z.
Proof.
  intros H. pose proof (round_half_even_near q) as [_ U].
  rewrite Zlt_Qlt. lra.
Qed.

(** Rounding keeps a number between 0 and a number of the grid. *)
Lemma b64_between (q : Q) (k E : Z) :
  (-1074 <= E)%Z -> inject_Z k * 2 ^ E < 2 ^ (E + 52 + 1) ->
  0 <= q <= inject_Z k * 2 ^ E ->
  0 <= b64 q <= inject_Z k * 2 ^ E.
Proof.
  intros HE Hk [L U]. destruct (Qlt_le_dec 0 q) as [P|Z0].
  - rewrite (b64_of_pos q P).
    assert (F : (floor_log2 q <= E + 52)%Z)
      by (apply floor_log2_below; [exact P | lra]).
    assert (X : (ulp_exp q <= E)%Z) by (unfold ulp_exp; lia).
    split; [|apply b64_pos_le; assumption].
    pose proof (b64_pos_ge q 0 (ulp_exp q) (Z.le_refl _)) as G.
    change (inject_Z 0) with 0 in G. lra.
  - rewrite (b64_of_zero q) by lra. lra.
Qed.

(** In the normal range the error is at most 2^-53 of the number, and the
    float is not below the power of two under the number. *)
Lemma normal_ulp (q : Q) :
  2 ^ (-1022) <= q -> ulp_exp q = (floor_log2 q - 52)%Z.
Proof.
  intros H. pose proof (floor_log2_above q (-1022) H). unfold ulp_exp. lia.
Qed.

Lemma b64_error (q : Q) :
  2 ^ (-1022) <= q -> Qabs (b64 q - q) <= q * 2 ^ (-53).
Proof.
  intros H. assert (P : 0 < q) by (pose proof (pow2_pos (-1022)); lra).
  rewrite (b64_of_pos q P).
  pose proof (b64_pos_error q) as Er. rewrite (normal_ulp q H) in Er.
  destruct (floor_log2_spec q P) as [L _].
  assert (S1 : 2 ^ (floor_log2 q - 52) * (1 # 2)
               == 2 ^ floor_log2 q * 2 ^ (-53)).
  { rewrite <- pow2_add.
    replace (floor_log2 q - 52)%Z with (floor_log2 q + -53 + 1)%Z by lia.
    rewrite pow2_succ. field. }
  rewrite S1 in Er. pose proof (pow2_pos (-53)) as Pd.
  set (d := 2 ^ (-53)) in *. set (p := 2 ^ floor_log2 q) in *.
  assert (p * d <= q * d) by nra. lra.
Qed.

Lemma b64_above_pow (q : Q) (e : Z) :
  (-1022 <= e)%Z -> 2 ^ e <= q -> 2 ^ e <= b64 q.
Proof.
  intros He H.
  assert (N : 2 ^ (-1022) <= q) by (pose proof (pow2_le _ _ He); lra).
  assert (P : 0 < q) by (pose proof (pow2_pos e); lra).
  rewrite (b64_of_pos q P).
  pose proof (floor_log2_above q e H) as F.
  destruct (floor_log2_spec q P) as [L _].
  pose proof (pow2_le _ _ F) as M.
  pose proof (b64_pos_ge q (2 ^ 52) (ulp_exp q) (Z.le_refl _)) as G.
  assert (S1 : inject_Z (2 ^ 52) * 2 ^ ulp_exp q == 2 ^ floor_log2 q).
  { rewrite (normal_ulp q N). rewrite pow2_Z, <- pow2_add by lia.
    replace (52 + (floor_log2 q - 52))%Z with (floor_log2 q) by lia.
    reflexivity. }
  set (A := inject_Z (2 ^ 52) * 2 ^ ulp_exp q) in *.
  assert (A <= b64_pos q) by (apply G; lra). lra.
Qed.

(** *** The percentage [u / t * 100] *)

Lemma quotient_bounds (u t : Z) :
  (0 < t)%Z -> (0 <= u <= t)%Z ->
  0 <= inject_Z u / inject_Z t <= 1
  /\ inject_Z u / inject_Z t * inject_Z t == inject_Z u.
Proof.
  intros Ht Hu.
  assert (T : 0 < inject_Z t) by (change 0 with (inject_Z 0); rewrite <- Zlt_Qlt; lia).
  assert (U0 : 0 <= inject_Z u) by (change 0 with (inject_Z 0); rewrite <- Zle_Qle; lia).
  assert (U1 : inject_Z u <= inject_Z t) by (rewrite <- Zle_Qle; lia).
  split; [split|].
  - apply Qle_shift_div_l; [exact T | lra].
  - apply Qle_shift_div_r; [exact T | lra].
  - field. lra.
Qed.

Lemma percent_bounds (u t : Z) :
  (0 < t)%Z -> (0 <= u <= t)%Z -> 0 <= percent u t <= 100.
Proof.
  intros Ht Hu. destruct (quotient_bounds u t Ht Hu) as [B _].
  unfold percent, float_mul_int, int_truediv.
  assert (X : 0 <= b64 (inject_Z u / inject_Z t) <= 1).
  { pose proof (b64_between (inject_Z u / inject_Z t) 1 0) as G.
    assert (E : inject_Z 1 * 2 ^ 0 == 1) by reflexivity.
    rewrite E in G. apply G; [lia | closed | lra]. }
  change (inject_Z 100) with 100.
  pose proof (b64_between (b64 (inject_Z u / inject_Z t) * 100) 25 2) as G.
  assert (E : inject_Z 25 * 2 ^ 2 == 100) by reflexivity.
  rewrite E in G. apply G; [lia | closed | lra].
Qed.


Lemma percent_zero (t : Z) : percent 0 t == 0.
Proof.
  unfold percent, float_mul_int, int_truediv.
  rewrite (b64_of_zero (inject_Z 0 / inject_Z t))
    by (unfold Qdiv; change (inject_Z 0) with 0; ring).
  rewrite (b64_of_zero (0 * inject_Z 100)) by ring. reflexivity.
Qed.

Lemma percent_full (t : Z) : (0 < t)%Z -> percent t t == 100.
Proof.
  intros Ht. unfold percent, float_mul_int, int_truediv.
  assert (T : 0 < inject_Z t)
    by (change 0 with (inject_Z 0); rewrite <- Zlt_Qlt; lia).
  assert (E1 : b64 (inject_Z t / inject_Z t) == 1).
  { rewrite (b64_comp (inject_Z t / inject_Z t) 1) by (field; lra).
    reflexivity. }
  rewrite (b64_comp (b64 (inject_Z t / inject_Z t) * inject_Z 100) 100)
    by (rewrite E1; reflexivity).
  reflexivity.
Qed.

(** Below 2^53 domains, a quotient that is not 0 is at least 2^-53, and
    one that is not 1 is at most 1 - 2^-53. *)
Lemma quotient_room (u t : Z) :
  (0 < t < 2 ^ 53)%Z -> (0 <= u <= t)%Z ->
  ((0 < u)%Z -> 2 ^ (-53) <= inject_Z u / inject_Z t)
  /\ ((u < t)%Z -> inject_Z u / inject_Z t <= inject_Z (2 ^ 53 - 1) * 2 ^ (-53)).
Proof.
  intros [Ht Hb] Hu. destruct (quotient_bounds u t Ht Hu) as [B M].
  assert (T : 0 < inject_Z t)
    by (change 0 with (inject_Z 0); rewrite <- Zlt_Qlt; lia).
  assert (Tb : inject_Z t <= inject_Z (2 ^ 53)) by (rewrite <- Zle_Qle; lia).
  assert (D1 : 2 ^ (-53) * inject_Z (2 ^ 53) == 1) by reflexivity.
  assert (D2 : inject_Z (2 ^ 53 - 1) * 2 ^ (-53) == 1 - 2 ^ (-53)) by reflexivity.
  pose proof (pow2_pos (-53)) as Pd.
  set (q := inject_Z u / inject_Z t) in *. set (d := 2 ^ (-53)) in *.
  set (K := inject_Z (2 ^ 53)) in *. set (T' := inject_Z t) in *.
  split.
  - intros H. assert (U1 : 1 <= inject_Z u)
      by (change 1 with (inject_Z 1); rewrite <- Zle_Qle; lia).
    set (U := inject_Z u) in *. nra.
  - intros H. rewrite D2.
    assert (U1 : inject_Z u <= inject_Z t - 1).
    { change 1 with (inject_Z 1). unfold Qminus. rewrite <- inject_Z_opp, <- inject_Z_plus, <- Zle_Qle. lia. }
    fold T' in U1. set (U := inject_Z u) in *. nra.
Qed.

Lemma percent_pos (u t : Z) :
  (0 < t < 2 ^ 53)%Z -> (0 < u <= t)%Z -> 0 < percent u t.
Proof.
  intros Ht Hu.
  destruct (quotient_room u t Ht ltac:(lia)) as [R _].
  specialize (R ltac:(lia)).
  unfold percent, float_mul_int, int_truediv.
  pose proof (b64_above_pow _ (-53) ltac:(lia) R) as X.
  pose proof (pow2_pos (-53)) as Pd.
  change (inject_Z 100) with 100.
  assert (Z1 : 2 ^ (-53) <= b64 (inject_Z u / inject_Z t) * 100) by lra.
  pose proof (b64_above_pow _ (-53) ltac:(lia) Z1). lra.
Qed.

Lemma percent_below (u t : Z) :
  (0 < t < 2 ^ 53)%Z -> (0 <= u < t)%Z -> percent u t < 100.
Proof.
  intros Ht Hu.
  destruct (quotient_room u t Ht ltac:(lia)) as [_ R].
  specialize (R ltac:(lia)).
  destruct (quotient_bounds u t ltac:(lia) ltac:(lia)) as [[B0 B1] _].
  unfold percent, float_mul_int, int_truediv.
  set (q := inject_Z u / inject_Z t) in *.
  assert (X : 0 <= b64 q <= inject_Z (2 ^ 53 - 1) * 2 ^ (-53)).
  { apply b64_between; [lia | closed | lra]. }
  assert (D2 : inject_Z (2 ^ 53 - 1) * 2 ^ (-53) == 1 - 2 ^ (-53)) by reflexivity.
  rewrite D2 in X. change (inject_Z 100) with 100.
  set (z := b64 q * 100).
  assert (Zb : 0 <= z <= 100 - 100 * 2 ^ (-53)) by (subst z; lra).
  pose proof (pow2_pos (-53)) as Pd.
  destruct (Qlt_le_dec z 64) as [S0|S1].
  - assert (Y : 0 <= b64 z <= inject_Z 1 * 2 ^ 6).
    { apply b64_between; [lia | closed|].
      assert (E : inject_Z 1 * 2 ^ 6 == 64) by reflexivity. lra. }
    assert (E : inject_Z 1 * 2 ^ 6 == 64) by reflexivity. lra.
  - assert (P : 0 < z) by lra. rewrite (b64_of_pos z P).
    assert (F : floor_log2 z = 6%Z).
    { apply floor_log2_unique.
      assert (E6 : 2 ^ 6 == 64) by reflexivity.
      assert (E7 : 2 ^ (6 + 1) == 128) by reflexivity. lra. }
    unfold b64_pos, ulp_exp. rewrite F.
    change (Z.max (6 - 52) (-1074)) with (-46)%Z.
    assert (C : 2 ^ (-46) * inject_Z (2 ^ 46) == 1) by reflexivity.
    assert (C' : 100 * 2 ^ (-53) * inject_Z (2 ^ 46) == 25 # 32) by reflexivity.
    pose proof (pow2_pos (-46)) as Pc.
    assert (W : z / 2 ^ (-46) == z * inject_Z (2 ^ 46)).
    { field_simplify_eq; [|lra]. rewrite <- Qmult_assoc, C. ring. }
    assert (L : (round_half_even (z / 2 ^ (-46)) < 100 * 2 ^ 46)%Z).
    { apply round_half_even_lt. rewrite W.
      rewrite inject_Z_mult. change (inject_Z 100) with 100.
      set (K := inject_Z (2 ^ 46)) in *. set (d := 2 ^ (-53)) in *.
      assert (0 < K) by reflexivity. nra. }
    assert (L' : inject_Z (round_half_even (z / 2 ^ (-46)))
                 <= inject_Z (100 * 2 ^ 46 - 1)) by (rewrite <- Zle_Qle; lia).
    unfold Z.sub in L'. rewrite inject_Z_plus, inject_Z_mult in L'.
    change (inject_Z 100) with 100 in L'. change (inject_Z (- (1))) with (- (1)) in L'.
    set (r := inject_Z (round_half_even (z / 2 ^ (-46)))) in *.
    set (K := inject_Z (2 ^ 46)) in *. set (c := 2 ^ (-46)) in *.
    nra.
Qed.

Lemma percent_error (u t : Z) :
  (0 < t < 2 ^ 53)%Z -> (0 <= u <= t)%Z ->
  Qabs (percent u t - 100 * inject_Z u / inject_Z t)
  <= 100 * inject_Z u / inject_Z t * (2 ^ (-52) + 2 ^ (-106)).
Proof.
  intros Ht Hu.
  assert (T : 0 < inject_Z t)
    by (change 0 with (inject_Z 0); rewrite <- Zlt_Qlt; lia).
  destruct (Z.eq_dec u 0) as [->|Nz].
  - rewrite percent_zero. change (inject_Z 0) with 0.
    assert (E : 100 * 0 / inject_Z t == 0) by (field; lra).
    rewrite E. apply Qabs_Qle_condition. lra.
  - destruct (quotient_room u t Ht Hu) as [R _]. specialize (R ltac:(lia)).
    unfold percent, float_mul_int, int_truediv.
    assert (E : 100 * inject_Z u / inject_Z t == 100 * (inject_Z u / inject_Z t))
      by (field; lra).
    rewrite E. set (q := inject_Z u / inject_Z t) in *.
    pose proof (pow2_pos (-53)) as Pd.
    assert (N1 : 2 ^ (-1022) <= q).
    { pose proof (pow2_le (-1022) (-53) ltac:(lia)). lra. }
    pose proof (b64_error q N1) as E1.
    pose proof (b64_above_pow q (-53) ltac:(lia) R) as X.
    change (inject_Z 100) with 100.
    assert (N2 : 2 ^ (-1022) <= b64 q * 100).
    { pose proof (pow2_le (-1022) (-53) ltac:(lia)). lra. }
    pose proof (b64_error _ N2) as E2.
    apply Qabs_Qle_condition in E1, E2. apply Qabs_Qle_condition.
    assert (D1 : 2 ^ (-52) == 2 * 2 ^ (-53)) by reflexivity.
    assert (D2 : 2 ^ (-106) == 2 ^ (-53) * 2 ^ (-53)) by reflexivity.
    rewrite D1, D2.
    set (x := b64 q) in *. set (y := b64 (x * 100)) in *.
    set (d := 2 ^ (-53)) in *.
    assert (0 < q) by lra.
    split; nra.
Qed.

(** *** [round(x, 2)] *)

Lemma hundredths (v : Q) :
  0 <= v <= 100 ->
  let k := round_half_even (v * 100) in
  (0 <= k <= 10000)%Z /\ Qabs (inject_Z k / 100 - v) <= 1 # 200.
Proof.
  intros [L U] k. split; [split|].
  - apply round_half_even_ge. change (inject_Z 0) with 0. lra.
  - apply round_half_even_le. change (inject_Z 10000) with 10000. lra.
  - pose proof (round_half_even_near (v * 100)) as H. fold k in H.
    apply Qabs_Qle_condition.
    set (n := inject_Z k) in *. unfold Qdiv. change (/ 100) with (1 # 100). lra.
Qed.

Lemma round2_between (v : Q) : 0 <= v <= 100 -> 0 <= round2 v <= 100.
Proof.
  intros H. destruct (hundredths v H) as [[K0 K1] _].
  unfold round2. set (k := round_half_even (v * 100)) in *.
  rewrite Zle_Qle in K0, K1.
  change (inject_Z 0) with 0 in K0. change (inject_Z 10000) with 10000 in K1.
  pose proof (b64_between (inject_Z k / 100) 25 2) as G.
  assert (E : inject_Z 25 * 2 ^ 2 == 100) by reflexivity.
  rewrite E in G. apply G; [lia | closed|].
  set (n := inject_Z k) in *. unfold Qdiv. change (/ 100) with (1 # 100). lra.
Qed.

Lemma round2_near (v : Q) :
  0 <= v <= 100 ->
  Qabs (round2 v - v) <= (1 # 200) + 100 * 2 ^ (-53).
Proof.
  intros H. destruct (hundredths v H) as [[K0 K1] N].
  unfold round2. set (k := round_half_even (v * 100)) in *.
  pose proof (pow2_pos (-53)) as Pd.
  apply Qabs_Qle_condition in N.
  destruct (Z.eq_dec k 0) as [E|Nz].
  - rewrite E in *. apply Qabs_Qle_condition.
    rewrite (b64_of_zero (inject_Z 0 / 100)) by reflexivity.
    assert (E0 : inject_Z 0 / 100 == 0) by reflexivity. rewrite E0 in N. lra.
  - assert (K2 : 1 <= inject_Z k)
      by (change 1 with (inject_Z 1); rewrite <- Zle_Qle; lia).
    rewrite Zle_Qle in K1. change (inject_Z 10000) with 10000 in K1.
    assert (N1 : 2 ^ (-1022) <= inject_Z k / 100).
    { assert (C : 2 ^ (-1022) <= 1 # 100) by closed.
      set (n := inject_Z k) in *. unfold Qdiv. change (/ 100) with (1 # 100).
      lra. }
    pose proof (b64_error _ N1) as Er. apply Qabs_Qle_condition in Er.
    apply Qabs_Qle_condition.
    set (n := inject_Z k) in *. unfold Qdiv in *.
    change (/ 100) with (1 # 100) in *.
    set (r := b64 (n * (1 # 100))) in *. set (d := 2 ^ (-53)) in *.
    split; nra.
Qed.

End Floats.

(** ** Free and used domains *)

Section Queries.

Lemma fold_extend {A B} (sel : A -> bool) (f : A -> list B) (l : list A) :
  forall acc,
    fold_left (fun acc b => if sel b then acc ++ f b else acc) l acc
    = acc ++ flat_map f (filter sel l).
Proof.
  induction l as [|b l IH]; intros acc; simpl; [symmetry; apply app_nil_r|].
  rewrite IH. destruct (sel b); simpl; [rewrite app_assoc|]; reflexivity.
Qed.

Lemma get_free_domains_flat (self : EmulatorResourceParser) cluster :
  get_free_domains self cluster
  = flat_map Board_get_free_domains
      (filter (cluster_selected cluster) (boards self)).
Proof. unfold get_free_domains. rewrite fold_extend. reflexivity. Qed.

Lemma get_used_domains_flat (self : EmulatorResourceParser) cluster :
  get_used_domains self cluster
  = flat_map Board_get_used_domains
      (filter (cluster_selected cluster) (boards self)).
Proof. unfold get_used_domains. rewrite fold_extend. reflexivity. Qed.

Lemma in_flat_filter {A B} (p : B -> bool) (f : A -> list B) (l : list A) x :
  In x (flat_map (fun b => filter p (f b)) l)
  <-> In x (flat_map f l) /\ p x = true.
Proof.
  rewrite !in_flat_map. split.
  - intros [b [Hb Hx]]. apply filter_In in Hx as [Hx Hp]. eauto.
  - intros [[b [Hb Hx]] Hp]. exists b. split; [exact Hb|].
    apply filter_In; auto.
Qed.

Lemma filter_split_perm {A} (p : A -> bool) (l : list A) :
  Permutation (filter p l ++ filter (fun x => negb (p x)) l) l.
Proof.
  induction l as [|x l IH]; simpl; [constructor|].
  destruct (p x); simpl.
  - constructor; exact IH.
  - apply Permutation_sym, Permutation_cons_app, Permutation_sym, IH.
Qed.

Lemma flat_map_split_perm {A B} (f g h : A -> list B) (l : list A) :
  (forall b, Permutation (f b ++ g b) (h b)) ->
  Permutation (flat_map f l ++ flat_map g l) (flat_map h l).
Proof.
  intros H. induction l as [|b l IH]; simpl; [constructor|].
  rewrite <- app_assoc.
  rewrite (Permutation_app_swap_app (flat_map f l) (g b) (flat_map g l)).
  rewrite app_assoc. apply Permutation_app; [apply H | exact IH].
Qed.

End Queries.

(** ** Domain lines *)

Section DomainLines.

Lemma domain_shaped_branch (line : str) :
  domain_shaped line = true ->
  startswith line (lit "Cluster") = false
  /\ startswith line (lit "Board") = false.
Proof.
  intros H. split.
  - destruct (startswith line (lit "Cluster")) eqn:E; [|reflexivity].
    apply startswith_app in E as [r ->]. cbv in H. discriminate.
  - destruct (startswith line (lit "Board")) eqn:E; [|reflexivity].
    apply startswith_app in E as [r ->]. cbv in H. discriminate.
Qed.

Lemma unpack2_ints_ok (pieces : list str) (x y : Z) :
  unpack2_ints pieces = Ok (x, y)
  <-> exists a b, pieces = [a; b] /\ int_of_str a = Ok x /\ int_of_str b = Ok y.
Proof.
  split.
  - destruct pieces as [|a [|b [|c rest]]]; simpl; try discriminate.
    + destruct (int_of_str a); discriminate.
    + destruct (int_of_str a) as [x'|] eqn:Ea; simpl; [|discriminate].
      destruct (int_of_str b) as [y'|] eqn:Eb; simpl; [|discriminate].
      intros [= -> ->]. eauto.
    + destruct (int_of_str a); simpl; [|discriminate].
      destruct (int_of_str b); simpl; [|discriminate].
      destruct (int_of_str c); discriminate.
  - intros [a [b [-> [Ha Hb]]]]. simpl. rewrite Ha; simpl. rewrite Hb; reflexivity.
Qed.

Lemma unpack2_ints_raises (pieces : list str) :
  (exists nums, unpack2_ints pieces = Ok nums)
  \/ unpack2_ints pieces = Raise ValueError.
Proof.
  pose proof int_of_str_cases as I.
  destruct pieces as [|a [|b [|c rest]]]; simpl; auto;
    destruct (I a) as [[x ->]| ->]; simpl; auto;
    destruct (I b) as [[y ->]| ->]; simpl; eauto;
    destruct (I c) as [[z ->]| ->]; simpl; auto.
Qed.

(** The test of field 0 in the code is the reading [<int>.<int>]. *)
Lemma domain_id_spec (f : str) (x y : Z) :
  contains (lit ".") f = true
  /\ unpack2_ints (split_on "."%char f) = Ok (x, y)
  <-> int_dot_int f x y.
Proof.
  unfold int_dot_int. split.
  - intros [_ H]. apply unpack2_ints_ok in H as [a [b [H [Ha Hb]]]].
    apply split_on_two in H. eauto.
  - intros [a [b [-> [Ha Hb]]]]. split.
    + apply (contains_char "."%char). apply in_or_app; right; left; reflexivity.
    + rewrite split_on_app by (eapply int_of_str_no_dot; eauto).
      rewrite split_on_no_sep by (eapply int_of_str_no_dot; eauto).
      apply unpack2_ints_ok; eauto.
Qed.

(** The body of the [try] block, for a line of eight fields or more. *)
Lemma domain_of_parts_spec (o : nat) (parts : list str) :
  (8 <= length parts)%nat ->
  (forall dm, domain_of_parts o parts = Ok (Some dm)
              <-> exists x y, int_dot_int (field parts 0) x y
                              /\ dm = domain_of_fields o parts x y)
  /\ ((forall x y, ~ int_dot_int (field parts 0) x y) ->
      domain_of_parts o parts = Ok None
      \/ domain_of_parts o parts = Raise ValueError).
Proof.
  intros Hlen.
  destruct parts as [|p0 [|p1 [|p2 [|p3 [|p4 [|p5 [|p6 [|p7 rest]]]]]]]];
    simpl in Hlen; try lia.
  unfold domain_of_parts, domain_of_fields, field.
  cbn [getitem nth_error nth bind].
  change (7 <? length (p0 :: p1 :: p2 :: p3 :: p4 :: p5 :: p6 :: p7 :: rest))%nat
    with true.
  assert (R : (if (8 <? length (p0 :: p1 :: p2 :: p3 :: p4 :: p5 :: p6 :: p7 :: rest))%nat
               then getitem (p0 :: p1 :: p2 :: p3 :: p4 :: p5 :: p6 :: p7 :: rest) 8
               else Ok (lit "--"))
              = Ok (if (9 <=? length (p0 :: p1 :: p2 :: p3 :: p4 :: p5 :: p6 :: p7 :: rest))%nat
                    then nth 8 (p0 :: p1 :: p2 :: p3 :: p4 :: p5 :: p6 :: p7 :: rest) []
                    else lit "--")).
  { destruct rest; reflexivity. }
  rewrite R. clear R.
  set (rk := if (9 <=? _)%nat then _ else _).
  assert (T : (if negb (str_eqb p5 (lit "--")) then Ok p5 else Ok [])
              = Ok (if str_eqb p5 (lit "--") then [] else p5)).
  { destruct (str_eqb p5 (lit "--")); reflexivity. }
  rewrite T. clear T. cbn [bind].
  split.
  - intros dm. split.
    + destruct (contains (lit ".") p0) eqn:C; [|discriminate].
      destruct (unpack2_ints (split_on "." p0)) as [[x y]|e] eqn:E;
        cbn [bind fst snd]; [|discriminate].
      intros [= <-]. exists x, y. split; [|reflexivity].
      apply domain_id_spec; auto.
    + intros [x [y [H ->]]]. apply domain_id_spec in H as [C E].
      rewrite C, E. reflexivity.
  - intros N. destruct (contains (lit ".") p0) eqn:C; [|auto].
    destruct (unpack2_ints_raises (split_on "." p0)) as [[[x y] E]|E].
    + exfalso. apply (N x y). apply domain_id_spec; auto.
    + rewrite E. auto.
Qed.

(** [process_line] on a line that reaches the domain branch. *)
Lemma process_line_domain (fr : frame) (line0 : str) :
  domain_shaped (strip line0) = true ->
  process_line fr line0 =
  if column_header (strip line0) then Ok fr
  else if (8 <=? length (split_ws (strip line0)))%nat then
    match current_board fr with
    | Some i =>
        match domain_of_parts (allocated fr) (split_ws (strip line0)) with
        | Ok (Some dm) => Ok (attach fr i dm)
        | _ => Ok fr
        end
    | None => Ok fr
    end
  else Ok fr.
Proof.
  intros H. unfold process_line.
  destruct (domain_shaped_branch _ H) as [HC HB].
  destruct (strip line0) as [|c l] eqn:E; [discriminate|].
  rewrite HC, HB, H. cbn [andb].
  destruct (column_header (c :: l)); [reflexivity|].
  destruct (8 <=? length (split_ws (c :: l)))%nat; [|reflexivity].
  destruct (current_board fr) as [i|] eqn:CB; [|reflexivity].
  unfold attach. rewrite CB.
  destruct (domain_of_parts (allocated fr) (split_ws (c :: l))) as [[dm|]|e];
    try reflexivity.
  rewrite caught_all; reflexivity.
Qed.

Lemma alter_nth_lookup {A} (f : A -> A) (l : list A) : forall i b,
  nth_error l i = Some b -> nth_error (alter_nth f i l) i = Some (f b).
Proof.
  induction l as [|x l IH]; intros [|i] b; simpl; try discriminate.
  - intros [= ->]; reflexivity.
  - apply IH.
Qed.

Lemma alter_nth_other {A} (f : A -> A) (l : list A) : forall i j,
  i <> j -> nth_error (alter_nth f i l) j = nth_error l j.
Proof.
  induction l as [|x l IH]; intros [|i] [|j] H; simpl; auto; try congruence.
Qed.

End DomainLines.

Section DomainBranch.

(** Either the line is accepted and its [Domain] is attached to the
    current board, or it is not and the frame is left as it was. *)
Lemma process_line_domain_cases (fr : frame) (line0 : str) :
  domain_shaped (strip line0) = true ->
  (accepted fr (strip line0)
   /\ exists i x y,
        current_board fr = Some i
        /\ int_dot_int (field (split_ws (strip line0)) 0) x y
        /\ process_line fr line0
           = Ok (attach fr i (domain_of_fields (allocated fr)
                                (split_ws (strip line0)) x y)))
  \/ (~ accepted fr (strip line0) /\ process_line fr line0 = Ok fr).
Proof.
  intros H. rewrite (process_line_domain fr line0 H). unfold accepted.
  set (line := strip line0). set (parts := split_ws line).
  destruct (column_header line) eqn:CH.
  { right. split; [intros [C _]; discriminate | reflexivity]. }
  destruct (Nat.leb_spec 8 (length parts)) as [L|L].
  2:{ right. split; [intros [_ [C _]]; lia | reflexivity]. }
  destruct (current_board fr) as [i|] eqn:CB.
  2:{ right. split; [intros [_ [_ [C _]]]; congruence | reflexivity]. }
  destruct (domain_of_parts_spec (allocated fr) parts L) as [S1 S2].
  destruct (domain_of_parts (allocated fr) parts) as [[dm|]|e] eqn:D.
  - left. destruct (proj1 (S1 dm) eq_refl) as [x [y [I ->]]].
    split; [repeat split; eauto; discriminate|].
    exists i, x, y. auto.
  - right. split; [|reflexivity]. intros [_ [_ [_ [x [y I]]]]].
    assert (E : Ok (@None Domain)
                = Ok (Some (domain_of_fields (allocated fr) parts x y)))
      by (apply S1; eauto).
    discriminate.
  - right. split; [|reflexivity]. intros [_ [_ [_ [x [y I]]]]].
    assert (E : @Raise (option Domain) e
                = Ok (Some (domain_of_fields (allocated fr) parts x y)))
      by (apply S1; eauto).
    discriminate.
Qed.

(** Only the domain branch builds a [Domain]. *)
Lemma process_line_allocates (fr fr' : frame) (line0 : str) :
  process_line fr line0 = Ok fr' ->
  allocated fr' <> allocated fr ->
  domain_shaped (strip line0) = true.
Proof.
  unfold process_line. intros H N.
  destruct (strip line0) as [|c l]; [injection H as <-; congruence|].
  destruct (startswith (c :: l) (lit "Cluster")).
  { destruct (Re.re_match Patterns.cluster_re (c :: l)) as [m|];
      [|injection H as <-; congruence].
    destruct (int_of_str (Re.group m 1)); simpl in H; [|discriminate].
    injection H as <-. simpl in N. congruence. }
  destruct (startswith (c :: l) (lit "Board") && contains (lit "has") (c :: l)
            && contains (lit "domains") (c :: l)).
  { destruct (Re.re_match Patterns.board_re (c :: l)) as [m|];
      [|injection H as <-; congruence].
    destruct (int_of_str (Re.group m 1)); simpl in H; [|discriminate].
    injection H as <-. simpl in N. congruence. }
  destruct (domain_shaped (c :: l)); [reflexivity|].
  injection H as <-. congruence.
Qed.

Lemma fields_3_4_unused (o : nat) (parts : list str) (f3 f4 : str) :
  (8 <= length parts)%nat ->
  domain_of_parts o (firstn 3 parts ++ f3 :: f4 :: skipn 5 parts)
  = domain_of_parts o parts.
Proof.
  intros Hlen.
  destruct parts as [|p0 [|p1 [|p2 [|p3 [|p4 [|p5 [|p6 [|p7 rest]]]]]]]];
    simpl in Hlen; try lia.
  reflexivity.
Qed.

End DomainBranch.

(** ** Invariants of the loop *)

Section LoopInvariant.

Lemma NoDup_app_disjoint {A} (l1 l2 : list A) (x : A) :
  NoDup (l1 ++ l2) -> In x l1 -> In x l2 -> False.
Proof.
  induction l1 as [|a l1 IH]; simpl; intros H H1 H2; [contradiction|].
  apply NoDup_cons_iff in H as [Ha H]. destruct H1 as [->|H1].
  - apply Ha, in_or_app; right; exact H2.
  - exact (IH H H1 H2).
Qed.

(** An element of a duplicate-free concatenation lies in one part only. *)
Lemma NoDup_flat_map_unique {A B} (f : A -> list B) (l : list A) :
  NoDup (flat_map f l) ->
  forall i j a b x,
    nth_error l i = Some a -> nth_error l j = Some b ->
    In x (f a) -> In x (f b) -> i = j.
Proof.
  induction l as [|c l IH]; intros H i j a b x Hi Hj Ha Hb.
  - destruct i; discriminate.
  - simpl in H. destruct i as [|i], j as [|j]; simpl in Hi, Hj.
    + reflexivity.
    + injection Hi as ->. exfalso. apply (NoDup_app_disjoint _ _ x H Ha).
      apply in_flat_map. exists b. split; [eapply nth_error_In; eauto | exact Hb].
    + injection Hj as ->. exfalso. apply (NoDup_app_disjoint _ _ x H Hb).
      apply in_flat_map. exists a. split; [eapply nth_error_In; eauto | exact Ha].
    + f_equal. apply NoDup_app_remove_l in H. eapply IH; eauto.
Qed.

Lemma model_domains_attach (dm : Domain) (bs : list Board) : forall i,
  (i < length bs)%nat ->
  exists l1 l2,
    model_domains bs = l1 ++ l2
    /\ model_domains (alter_nth (fun b => add_domain b dm) i bs)
       = l1 ++ dm :: l2.
Proof.
  unfold model_domains.
  induction bs as [|b bs IH]; intros i Hi; simpl in Hi; [lia|].
  destruct i as [|i]; simpl.
  - exists (domains b), (flat_map domains bs). split; [reflexivity|].
    rewrite <- app_assoc. reflexivity.
  - destruct (IH i ltac:(lia)) as [l1 [l2 [E1 E2]]].
    exists (domains b ++ l1), l2. rewrite E1, E2, !app_assoc. auto.
Qed.

Lemma alter_nth_length {A} (f : A -> A) (l : list A) : forall i,
  length (alter_nth f i l) = length l.
Proof.
  induction l as [|x l IH]; intros [|i]; simpl; auto.
Qed.

(** The three ways [process_line] can leave the frame. *)
Lemma process_line_cases (fr fr' : frame) (line0 : str) :
  process_line fr line0 = Ok fr' ->
  (self_boards fr' = self_boards fr /\ current_board fr' = current_board fr
   /\ allocated fr' = allocated fr)
  \/ (exists b, domains b = []
        /\ self_boards fr' = self_boards fr ++ [b]
        /\ current_board fr' = Some (length (self_boards fr))
        /\ allocated fr' = allocated fr)
  \/ (exists i x y,
        current_board fr = Some i
        /\ int_dot_int (field (split_ws (strip line0)) 0) x y
        /\ fr' = attach fr i (domain_of_fields (allocated fr)
                                (split_ws (strip line0)) x y)).
Proof.
  intros H. destruct (domain_shaped (strip line0)) eqn:DS.
  - destruct (process_line_domain_cases fr line0 DS)
      as [[_ [i [x [y [CB [I P]]]]]] | [_ P]]; rewrite H in P; injection P as ->.
    + right; right. eauto 6.
    + left; auto.
  - unfold process_line in H.
    destruct (strip line0) as [|c l]; [injection H as <-; auto|].
    destruct (startswith (c :: l) (lit "Cluster")).
    { destruct (Re.re_match Patterns.cluster_re (c :: l)) as [m|];
        [|injection H as <-; auto].
      destruct (int_of_str (Re.group m 1)); simpl in H; [|discriminate].
      injection H as <-. left; auto. }
    destruct (startswith (c :: l) (lit "Board") && contains (lit "has") (c :: l)
              && contains (lit "domains") (c :: l)).
    { destruct (Re.re_match Patterns.board_re (c :: l)) as [m|];
        [|injection H as <-; auto].
      destruct (int_of_str (Re.group m 1)); simpl in H; [|discriminate].
      injection H as <-. right; left. eexists. repeat split; reflexivity. }
    rewrite DS in H. injection H as <-. auto.
Qed.

Lemma process_line_inv (all : list str) (fr fr' : frame) (line0 : str) :
  In line0 all -> loop_inv all fr -> process_line fr line0 = Ok fr' ->
  loop_inv all fr'.
Proof.
  intros Hin [WF [ND Hd]] H. unfold loop_inv, frame_ok in *.
  destruct (process_line_cases _ _ _ H)
    as [[Eb [Ec Ea]] | [[b [Hb [Eb [Ec Ea]]]] | [i [x [y [CB [I ->]]]]]]].
  - rewrite Eb, Ec, Ea. auto.
  - rewrite Eb, Ec, Ea. unfold model_domains in *.
    rewrite flat_map_app. simpl. rewrite Hb, !app_nil_r.
    split; [rewrite length_app; simpl; lia | split; [exact ND | exact Hd]].
  - rewrite CB in WF. simpl.
    destruct (model_domains_attach
                (domain_of_fields (allocated fr) (split_ws (strip line0)) x y)
                _ _ WF) as [l1 [l2 [E1 E2]]].
    rewrite E2, CB, alter_nth_length. rewrite E1 in ND, Hd.
    set (dm := domain_of_fields _ _ x y) in *.
    assert (New : ~ In (oid dm) (map oid (l1 ++ l2))).
    { intros C. apply in_map_iff in C as [d' [Eo Hd']].
      apply Hd in Hd' as [Hlt _]. rewrite Eo in Hlt. simpl in Hlt. lia. }
    split; [exact WF | split].
    + rewrite map_app in *. simpl.
      apply NoDup_Add with (a := oid dm) (l := map oid l1 ++ map oid l2).
      * apply Add_app.
      * split; [exact ND | exact New].
    + intros dm0 H0. apply in_app_or in H0 as [H0|[<-|H0]].
      * destruct (Hd dm0 (in_or_app _ _ _ (or_introl H0))). split; [lia|auto].
      * split; [simpl; lia|]. exists line0. split; [exact Hin | exact I].
      * destruct (Hd dm0 (in_or_app _ _ _ (or_intror H0))). split; [lia|auto].
Qed.

Lemma run_lines_inv (all : list str) (ls : list str) : forall fr fr',
  incl ls all -> loop_inv all fr -> run_lines fr ls = Ok fr' ->
  loop_inv all fr'.
Proof.
  induction ls as [|l ls IH]; intros fr fr' Hin Hinv H; simpl in H.
  - injection H as <-. exact Hinv.
  - destruct (process_line fr l) as [fr1|e] eqn:E; simpl in H; [|discriminate].
    apply (IH fr1 fr'); [intros z Hz; apply Hin; right; exact Hz | | exact H].
    eapply process_line_inv; [apply Hin; left; reflexivity | exact Hinv | exact E].
Qed.

Lemma loop_start_inv (all : list str) : loop_inv all loop_start.
Proof.
  unfold loop_inv, loop_start, frame_ok; simpl.
  repeat split; [constructor | contradiction | contradiction].
Qed.

End LoopInvariant.

(** ** The first line *)

Section FirstLine.

Lemma rstrip_nil_spaces (s : str) : rstrip s = [] -> forallb isspace s = true.
Proof.
  unfold rstrip. intros H.
  destruct (lstrip_split (rev s)) as [w [Hs Hw]].
  assert (E : lstrip (rev s) = []).
  { apply (f_equal (@rev ascii)) in H. rewrite rev_involutive in H. exact H. }
  rewrite E, app_nil_r in Hs. rewrite <- forallb_rev, Hs. exact Hw.
Qed.

Lemma strip_leading (ws s : str) :
  forallb isspace ws = true -> strip (ws ++ s) = strip s.
Proof. intros H. unfold strip. rewrite lstrip_spaces by exact H. reflexivity. Qed.

(** The lines of a text whose first line starts with a character that is
    not whitespace. *)
Lemma lines_of_text (c : ascii) (l rest : str) :
  isspace c = false -> ~ In nl (c :: l) ->
  split_on nl (strip ((c :: l) ++ nl :: rest))
  = match rstrip rest with
    | [] => [rstrip (c :: l)]
    | _ :: _ => (c :: l) :: split_on nl (rstrip rest)
    end.
Proof.
  intros Hc Hnl. unfold strip.
  change ((c :: l) ++ nl :: rest) with (c :: (l ++ nl :: rest)).
  rewrite lstrip_nonspace by exact Hc.
  change (c :: (l ++ nl :: rest)) with ((c :: l) ++ nl :: rest).
  destruct (rstrip rest) as [|x r] eqn:E.
  - rewrite rstrip_spaces.
    + apply split_on_no_sep. intros H. apply Hnl, rstrip_In, H.
    + simpl. rewrite (rstrip_nil_spaces _ E). reflexivity.
  - change ((c :: l) ++ nl :: rest) with ((c :: l) ++ [nl] ++ rest).
    rewrite app_assoc, rstrip_keep by (rewrite E; discriminate).
    rewrite E, <- app_assoc. simpl app at 2.
    apply split_on_app. exact Hnl.
Qed.

End FirstLine.

(** ** The header line *)

Section Header.
Import Re.

Lemma find_after_In (label s t : str) (c : ascii) :
  find_after label s = Some t -> In c t -> In c s.
Proof.
  induction s as [|x s IH]; cbn [find_after].
  - destruct (strip_prefix label []) as [r|] eqn:E; [|discriminate].
    intros [= <-]. apply strip_prefix_app in E. rewrite E.
    intros H; apply in_or_app; right; exact H.
  - destruct (strip_prefix label (x :: s)) as [r|] eqn:E.
    + intros [= <-]. apply strip_prefix_app in E. rewrite E.
      intros H; apply in_or_app; right; exact H.
    + intros H Hc. right. exact (IH H Hc).
Qed.

Lemma up_to_split (label t : str) :
  exists rest,
    t = up_to label t ++ rest
    /\ (rest = [] \/ startswith rest label = true)
    /\ forall g1 g2, up_to label t = g1 ++ g2 -> g2 <> [] ->
                     startswith (g2 ++ rest) label = false.
Proof.
  induction t as [|c t [rest [E [R F]]]]; cbn [up_to].
  - exists []. destruct (startswith [] label); repeat split; auto;
      intros [|? ?] [|? ?] H; try discriminate; congruence.
  - destruct (startswith (c :: t) label) eqn:S.
    + exists (c :: t). repeat split; auto.
      intros [|? ?] [|? ?] H; try discriminate; congruence.
    + exists rest. split; [simpl; congruence|]. split; [exact R|].
      intros [|x g1] g2 H Hne; simpl in H.
      * subst g2. simpl. rewrite <- E. exact S.
      * injection H as _ H. exact (F g1 g2 H Hne).
Qed.

(** The search stops at the first occurrence of the leading literal when
    the rest of the pattern matches there. *)
Lemma re_search_first (label : str) (r : regex) (s t : str) (g : groups) :
  find_after label s = Some t ->
  rmatch r accept t [] = Some g ->
  re_search (RSeq (RLit label) r) s = Some g.
Proof.
  intros F M. induction s as [|x s IH]; cbn [find_after re_search] in *;
    unfold re_match; cbn [rmatch].
  - destruct (strip_prefix label []) as [r0|]; [|discriminate].
    injection F as ->. rewrite M. reflexivity.
  - destruct (strip_prefix label (x :: s)) as [r0|].
    + injection F as ->. rewrite M. reflexivity.
    + apply IH. exact F.
Qed.

Lemma look_ahead (s : str) (g : groups) :
  rmatch look accept s g = if ahead s then Some g else None.
Proof.
  unfold look, ahead. cbn [rmatch].
  destruct (strip_prefix (lit "Configmgr:") s) as [r|] eqn:E.
  - apply strip_prefix_app in E.
    assert (S : startswith s (lit "Configmgr:") = true)
      by (apply startswith_app; eauto).
    rewrite S. reflexivity.
  - assert (S : startswith s (lit "Configmgr:") = false).
    { destruct (startswith s (lit "Configmgr:")) eqn:S; [|reflexivity].
      apply startswith_app in S as [r Hr].
      apply strip_prefix_app in Hr. congruence. }
    rewrite S. unfold accept. destruct (at_end s); reflexivity.
Qed.

Lemma star_lazy_scan (c : ascii -> bool) (kk : str -> option groups)
    (rest : str) (r : groups) (g : str) :
  forallb c g = true ->
  (forall g1 g2, g = g1 ++ g2 -> g2 <> [] -> kk (g2 ++ rest) = None) ->
  kk rest = Some r ->
  star_lazy c kk (g ++ rest) = Some r.
Proof.
  intros Hc Hin Hk. induction g as [|y g IH].
  - simpl. destruct rest; simpl; rewrite Hk; reflexivity.
  - simpl in Hc. apply andb_true_iff in Hc as [Hy Hc].
    pose proof (Hin [] (y :: g) eq_refl ltac:(discriminate)) as K.
    cbn [app star_lazy] in *. rewrite K, Hy.
    apply IH; [exact Hc|].
    intros g1 g2 E Hne. apply (Hin (y :: g1) g2); [simpl; congruence | exact Hne].
Qed.

(** The lazy group against [g ++ rest] takes exactly [g] when the
    lookahead holds first at [rest]. *)
Lemma lazy_group_takes (g rest : str) :
  g <> [] ->
  forallb w_or_s g = true ->
  (forall g1 g2, g = g1 ++ g2 -> g1 <> [] -> g2 <> [] ->
                 ahead (g2 ++ rest) = false) ->
  ahead rest = true ->
  rmatch (RSeq (RGroup (RPlusLazy w_or_s)) look) accept (g ++ rest) [] = Some [g].
Proof.
  intros Hne Hc Hin Hr. destruct g as [|x g]; [congruence|].
  simpl in Hc. apply andb_true_iff in Hc as [Hx Hc].
  cbn [rmatch app]. rewrite Hx.
  apply star_lazy_scan; [exact Hc | |].
  - intros g1 g2 E Hg2. rewrite look_ahead.
    rewrite (Hin (x :: g1) g2); [reflexivity | simpl; congruence | discriminate
                                | exact Hg2].
  - rewrite look_ahead, Hr. cbn [app]. do 3 f_equal.
    exact (firstn_consumed (x :: g) rest).
Qed.

Lemma star_greedy_stop (c : ascii -> bool) (k : str -> option groups)
    (w s : str) (r : groups) :
  forallb c w = true -> k s = Some r ->
  match s with [] => True | x :: _ => c x = false end ->
  star_greedy c k (w ++ s) = Some r.
Proof.
  intros Hw Hk Hs. induction w as [|y w IH].
  - simpl. destruct s as [|x s]; simpl; [exact Hk|]. rewrite Hs. exact Hk.
  - simpl in Hw. apply andb_true_iff in Hw as [Hy Hw].
    cbn [app star_greedy]. rewrite Hy, (IH Hw). reflexivity.
Qed.

Lemma star_greedy_back (c : ascii -> bool) (k : str -> option groups)
    (w s : str) (y : ascii) (r : groups) :
  forallb c w = true -> c y = true ->
  match s with [] => True | x :: _ => c x = false end ->
  k s = None -> k (y :: s) = Some r ->
  star_greedy c k (w ++ y :: s) = Some r.
Proof.
  intros Hw Hy Hs K0 K1. induction w as [|z w IH].
  - cbn [app star_greedy]. rewrite Hy.
    assert (E : star_greedy c k s = None).
    { destruct s as [|x s]; simpl; [exact K0|]. rewrite Hs. exact K0. }
    rewrite E. exact K1.
  - simpl in Hw. apply andb_true_iff in Hw as [Hz Hw].
    cbn [app star_greedy]. rewrite Hz, (IH Hw). reflexivity.
Qed.

Lemma space_is_w_or_s (c : ascii) : isspace c = true -> w_or_s c = true.
Proof. unfold w_or_s. intros ->. apply orb_true_r. Qed.

(** With nothing but the label ahead, the group finds no text to take. *)
Lemma lazy_group_at_label (rest : str) :
  rest = [] \/ startswith rest (lit "Configmgr:") = true ->
  rmatch (RSeq (RGroup (RPlusLazy w_or_s)) look) accept rest [] = None
  /\ match rest with [] => True | x :: _ => isspace x = false end
  /\ ahead rest = true.
Proof.
  intros [->|H]; [repeat split|].
  apply startswith_app in H as [r ->].
  destruct r; repeat split; reflexivity.
Qed.

(** The tail of the hardware pattern against [body ++ rest]. *)
Lemma hardware_tail_match (body rest : str) :
  body <> [] ->
  forallb w_or_s body = true ->
  ~ In nl body ->
  rest = [] \/ startswith rest (lit "Configmgr:") = true ->
  (forall g1 g2, body = g1 ++ g2 -> g2 <> [] ->
                 startswith (g2 ++ rest) (lit "Configmgr:") = false) ->
  exists g,
    rmatch (RSeq (RStar s) (RSeq (RGroup (RPlusLazy w_or_s)) look))
           accept (body ++ rest) [] = Some [g]
    /\ strip g = strip body.
Proof.
  intros Hne Hc Hnl Hrest Hfirst.
  destruct (lazy_group_at_label rest Hrest) as [K0 [Hhead Hah]].
  assert (Inner : forall g1 g2, body = g1 ++ g2 -> g2 <> [] ->
                                ahead (g2 ++ rest) = false).
  { intros g1 g2 E Hg2. unfold ahead. rewrite (Hfirst g1 g2 E Hg2). simpl.
    destruct g2 as [|a [|b g2]]; [congruence| |reflexivity].
    destruct rest; simpl; [|reflexivity].
    destruct (Ascii.eqb_spec a "010"); [|reflexivity].
    exfalso. apply Hnl. rewrite E. apply in_or_app; right; left. subst a.
    reflexivity. }
  destruct (lstrip_split body) as [w [Eb Hw]].
  cbn [rmatch].
  destruct (lstrip body) as [|x g] eqn:El.
  - (* the text is whitespace only: the group takes its last character *)
    rewrite app_nil_r in Eb. subst w.
    destruct (exists_last Hne) as [w' [y E]]. rewrite E in *.
    rewrite forallb_app in Hw. apply andb_true_iff in Hw as [Hw' Hy].
    simpl in Hy. rewrite andb_true_r in Hy.
    exists [y]. split.
    + rewrite <- app_assoc. cbn [app].
      apply (star_greedy_back s (fun s' => rmatch (RSeq (RGroup (RPlusLazy w_or_s)) look) accept s' []));
        try assumption.
      apply (lazy_group_takes [y] rest); [discriminate | | | exact Hah].
      * simpl. rewrite (space_is_w_or_s _ Hy). reflexivity.
      * intros [|a g1] [|c g2] H H1 H2; try congruence.
        destruct g1; discriminate.
    + unfold strip. rewrite El.
      rewrite (lstrip_all_spaces [y]) by (simpl; rewrite Hy; reflexivity).
      reflexivity.
  - (* the group starts at the first character that is not whitespace *)
    exists (x :: g). split.
    + rewrite Eb, <- app_assoc.
      apply (star_greedy_stop s (fun s' => rmatch (RSeq (RGroup (RPlusLazy w_or_s)) look) accept s' []));
        [exact Hw | | exact (lstrip_head _ _ _ El)].
      apply lazy_group_takes; [discriminate | | | exact Hah].
      * rewrite Eb, forallb_app in Hc. apply andb_true_iff in Hc as [_ Hc].
        exact Hc.
      * intros g1 g2 E H1 H2. apply (Inner (w ++ g1) g2); [|exact H2].
        rewrite Eb, E, app_assoc. reflexivity.
    + rewrite Eb, strip_leading by exact Hw. reflexivity.
Qed.

(** The code agrees with the documented value when the text between the
    labels is made of word characters and whitespace. *)
Lemma hardware_agrees (self : EmulatorResourceParser) (header t : str) :
  ~ In nl header ->
  find_after (lit "Hardware:") header = Some t ->
  up_to (lit "Configmgr:") t <> [] ->
  forallb w_or_s (up_to (lit "Configmgr:") t) = true ->
  hardware (_parse_header self header)
  = Some (strip (up_to (lit "Configmgr:") t)).
Proof.
  intros Hnl F Hne Hc.
  destruct (up_to_split (lit "Configmgr:") t) as [rest [E [R First]]].
  destruct (hardware_tail_match (up_to (lit "Configmgr:") t) rest Hne Hc)
    as [g [M S]]; try assumption.
  { intros H. apply Hnl. apply (find_after_In _ _ _ _ F).
    rewrite E. apply in_or_app; left; exact H. }
  rewrite <- E in M. unfold look in M.
  cbn [_parse_header hardware]. unfold Patterns.hardware_re. cbn [seq].
  rewrite (re_search_first _ _ _ _ _ F M).
  cbn [group Nat.sub nth]. rewrite S. reflexivity.
Qed.

End Header.

(** ** Counts *)

Section Counts.

Lemma fold_add_sum (l : list nat) : forall acc,
  fold_left Nat.add l acc = (acc + list_sum l)%nat.
Proof.
  induction l as [|x l IH]; intros acc; simpl; [lia|]. rewrite IH. lia.
Qed.

Lemma total_is_length (bs : list Board) :
  fold_left Nat.add (map (fun b => length (domains b)) bs) 0%nat
  = length (model_domains bs).
Proof.
  rewrite fold_add_sum. simpl. unfold model_domains.
  induction bs as [|b bs IH]; simpl; [reflexivity|].
  rewrite length_app, IH. reflexivity.
Qed.

Lemma flat_map_filter {A B} (p : B -> bool) (f : A -> list B) (l : list A) :
  flat_map (fun b => filter p (f b)) l = filter p (flat_map f l).
Proof.
  induction l as [|b l IH]; simpl; [reflexivity|].
  rewrite filter_app, IH. reflexivity.
Qed.

Lemma filter_all {A} (p : A -> bool) (l : list A) :
  (forall x, p x = true) -> filter p l = l.
Proof.
  intros H. induction l as [|x l IH]; simpl; [reflexivity|].
  rewrite H, IH. reflexivity.
Qed.

Lemma free_in_order (self : EmulatorResourceParser) (cluster : option Z) :
  get_free_domains self cluster
  = filter is_free
      (model_domains (filter (cluster_selected cluster) (boards self))).
Proof.
  rewrite get_free_domains_flat. unfold Board_get_free_domains, model_domains.
  apply flat_map_filter.
Qed.

Lemma used_in_order (self : EmulatorResourceParser) (cluster : option Z) :
  get_used_domains self cluster
  = filter (fun dm => negb (is_free dm))
      (model_domains (filter (cluster_selected cluster) (boards self))).
Proof.
  rewrite get_used_domains_flat. unfold Board_get_used_domains, model_domains.
  apply (flat_map_filter (fun dm => negb (is_free dm))).
Qed.

Lemma no_filter_all (bs : list Board) :
  filter (cluster_selected None) bs = bs.
Proof. apply filter_all. reflexivity. Qed.

Lemma free_plus_used (self : EmulatorResourceParser) (cluster : option Z) :
  (length (get_free_domains self cluster)
   + length (get_used_domains self cluster))%nat
  = length (model_domains (filter (cluster_selected cluster) (boards self))).
Proof.
  rewrite free_in_order, used_in_order, <- length_app.
  apply Permutation_length, filter_split_perm.
Qed.

Lemma dict_append_length (k : str) (v : Domain) (dct : user_dict) :
  (length (dict_append k v dct) <= S (length dct))%nat.
Proof.
  induction dct as [|[k' vs] dct IH]; simpl; [lia|].
  destruct (str_eqb k' k); simpl; lia.
Qed.

Lemma fold_left_flat_map {A B C} (f : C -> B -> C) (g : A -> list B)
    (l : list A) : forall acc,
  fold_left (fun acc a => fold_left f (g a) acc) l acc
  = fold_left f (flat_map g l) acc.
Proof.
  induction l as [|a l IH]; intros acc; simpl; [reflexivity|].
  rewrite fold_left_app. apply IH.
Qed.

(** The dictionary of [get_domains_by_user] is one pass over the used
    domains, in the order of [get_used_domains]. *)
Lemma by_user_one_pass (self : EmulatorResourceParser) :
  get_domains_by_user self
  = fold_left (fun ud dm => dict_append (owner dm) dm ud)
              (get_used_domains self None) [].
Proof.
  unfold get_domains_by_user.
  rewrite (fold_left_flat_map
             (fun ud dm => dict_append (owner dm) dm ud) Board_get_used_domains).
  rewrite get_used_domains_flat, no_filter_all. reflexivity.
Qed.

Lemma grouping_length (l : list Domain) : forall acc,
  (length (fold_left (fun ud dm => dict_append (owner dm) dm ud) l acc)
   <= length acc + length l)%nat.
Proof.
  induction l as [|dm l IH]; intros acc; simpl; [lia|].
  specialize (IH (dict_append (owner dm) dm acc)).
  pose proof (dict_append_length (owner dm) dm acc). lia.
Qed.

End Counts.

(** ** The data of the JSON summary *)

Section Json.

Lemma map_result_ok {A B} (f : A -> result B) (l : list A) : forall ys,
  map_result f l = Ok ys <-> Forall2 (fun x y => f x = Ok y) l ys.
Proof.
  induction l as [|x l IH]; intros ys; cbn [map_result].
  - split; [intros [= <-]; constructor | intros H; inversion H; reflexivity].
  - split.
    + destruct (f x) as [y|e] eqn:E; cbn [bind]; [|discriminate].
      destruct (map_result f l) as [ys'|e]; cbn [bind]; [|discriminate].
      intros [= <-]. constructor; [exact E | apply IH; reflexivity].
    + intros H. inversion H as [|x' y l' ys' Hy Hl]; subst.
      rewrite Hy. cbn [bind]. apply IH in Hl. rewrite Hl. reflexivity.
Qed.

(** [map_result] returns when [f] returns on every element. *)
Lemma map_result_returns {A B} (f : A -> result B) (l : list A) :
  (forall x, In x l -> exists y, f x = Ok y) ->
  exists ys, map_result f l = Ok ys.
Proof.
  induction l as [|x l IH]; intros H; cbn [map_result]; [eauto|].
  destruct (H x (or_introl eq_refl)) as [y ->]. cbn [bind].
  destruct IH as [ys ->]; [intros z Hz; apply H; right; exact Hz|].
  cbn [bind]. eauto.
Qed.

Lemma Forall2_maps {A B C} (R : A -> B -> Prop) (f : A -> C) (g : B -> C)
    (l : list A) (l' : list B) :
  Forall2 R l l' -> (forall x y, R x y -> g y = f x) -> map g l' = map f l.
Proof.
  intros H K. induction H as [|x y l l' Hxy _ IH]; simpl; [reflexivity|].
  rewrite (K x y Hxy), IH. reflexivity.
Qed.

Lemma Forall2_right {A B} (R : A -> B -> Prop) (P : B -> Prop)
    (l : list A) (l' : list B) :
  Forall2 R l l' -> (forall x y, In x l -> R x y -> P y) -> Forall P l'.
Proof.
  intros H. induction H as [|x y l l' Hxy _ IH]; intros K; constructor.
  - apply (K x y); [left; reflexivity | exact Hxy].
  - apply IH. intros x' y' Hin. apply K. right; exact Hin.
Qed.

(** What [json_data] holds when it returns. *)
Lemma json_data_ok (self : EmulatorResourceParser) (j : JsonData) :
  json_data self = Ok j ->
  let sm := get_resource_summary self in
  j_resource_summary j
  = mkJsonRS (total_boards sm) (total_domains sm) (used_domains sm)
      (free_domains sm) (round2 (utilization_percent sm))
  /\ Forall2 (fun (ud : str * list Domain) (e : str * UserEntry) =>
                fst e = fst ud
                /\ domain_count (snd e) = length (snd ud)
                /\ Forall2 (fun dm dd => domain_detail dm = Ok dd)
                     (snd ud) (ue_domains (snd e)))
       (get_domains_by_user self) (j_domains_by_user j)
  /\ Forall2 (fun dm fe => free_entry dm = Ok fe)
       (get_free_domains self None) (j_free_domains j).
Proof.
  unfold json_data.
  destruct (map_result _ (get_domains_by_user self)) as [us|e] eqn:U;
    cbn [bind]; [|discriminate].
  destruct (map_result free_entry (get_free_domains self None)) as [fs|e] eqn:F;
    cbn [bind]; [|discriminate].
  intros [= <-]. cbn [j_resource_summary j_domains_by_user j_free_domains].
  split; [reflexivity|]. split; [|apply map_result_ok; exact F].
  apply map_result_ok in U.
  induction U as [|ud e l l' H _ IH]; constructor; [|exact IH].
  destruct (map_result domain_detail (snd ud)) as [ds|e'] eqn:D;
    cbn [bind] in H; [|discriminate].
  injection H as <-. cbn [fst snd domain_count ue_domains].
  split; [reflexivity|]. split; [reflexivity|].
  apply map_result_ok. exact D.
Qed.

End Json.

(** ** Cluster and board lines of the documented shape *)

Section Forward.
Import Re.

Lemma fwd_lit (l : str) (r : regex) (k : cont) (s : str) (g : groups) :
  rmatch (RSeq (RLit l) r) k (l ++ s) g = rmatch r k s g.
Proof.
  cbn [rmatch]. rewrite (proj2 (strip_prefix_app l (l ++ s) s) eq_refl).
  reflexivity.
Qed.

Lemma plus_takes_run (c : ascii -> bool) (k : cont) (a s : str)
    (g res : groups) :
  run_of c a -> stops c s -> k s g = Some res ->
  rmatch (RPlus c) k (a ++ s) g = Some res.
Proof.
  intros [Hne Ha] Hs Hk. destruct a as [|x a]; [congruence|].
  simpl in Ha. apply andb_true_iff in Ha as [Hx Ha].
  cbn [rmatch app]. rewrite Hx.
  apply (star_greedy_stop c (fun s' => k s' g)); assumption.
Qed.

Lemma fwd_plus (c : ascii -> bool) (r : regex) (k : cont) (a s : str)
    (g res : groups) :
  run_of c a -> stops c s -> rmatch r k s g = Some res ->
  rmatch (RSeq (RPlus c) r) k (a ++ s) g = Some res.
Proof. exact (plus_takes_run c (rmatch r k) a s g res). Qed.

Lemma group_takes_run (c : ascii -> bool) (k : cont) (a s : str)
    (g res : groups) :
  run_of c a -> stops c s -> k s (g ++ [a]) = Some res ->
  rmatch (RGroup (RPlus c)) k (a ++ s) g = Some res.
Proof.
  intros Ha Hs Hk. cbn [rmatch].
  apply (plus_takes_run c
           (fun s' g' => k s' (g' ++ [firstn (length (a ++ s) - length s') (a ++ s)])));
    [exact Ha | exact Hs |].
  rewrite firstn_consumed. exact Hk.
Qed.

Lemma fwd_group_plus (c : ascii -> bool) (r : regex) (k : cont) (a s : str)
    (g res : groups) :
  run_of c a -> stops c s -> rmatch r k s (g ++ [a]) = Some res ->
  rmatch (RSeq (RGroup (RPlus c)) r) k (a ++ s) g = Some res.
Proof. exact (group_takes_run c (rmatch r k) a s g res). Qed.

Lemma stops_space_digits (a s : str) :
  run_of isdecimal a -> stops isspace (a ++ s).
Proof.
  intros [Hne Ha]. destruct a as [|x a]; [congruence|]. simpl in *.
  apply andb_true_iff in Ha as [Hx _]. apply decimal_nonspace. exact Hx.
Qed.

Lemma contains_app_r (p a s : str) :
  contains p s = true -> contains p (a ++ s) = true.
Proof.
  intros H. induction a as [|x a IH]; [exact H|].
  simpl. rewrite IH. apply orb_true_r.
Qed.

Lemma contains_here (p s : str) : contains p (p ++ s) = true.
Proof. apply contains_startswith, startswith_app. eauto. Qed.

(** The cluster pattern on a line of the documented shape. *)
Lemma cluster_re_matches (n k ws tok rest : str) :
  run_of isdecimal n -> run_of isdecimal k -> run_of isspace ws ->
  run_of isword tok -> stops isword rest ->
  re_match Patterns.cluster_re
    (lit "Cluster " ++ n ++ lit " has " ++ k ++ lit " boards" ++ ws
     ++ lit "CCD: " ++ tok ++ rest)
  = Some [n; tok].
Proof.
  intros Hn Hk Hws Htok Hrest.
  unfold re_match, Patterns.cluster_re; cbn [seq].
  rewrite fwd_lit.
  apply fwd_group_plus; [exact Hn | reflexivity|].
  rewrite fwd_lit.
  apply fwd_plus; [exact Hk | reflexivity|].
  rewrite fwd_lit.
  apply fwd_plus; [exact Hws | reflexivity|].
  rewrite fwd_lit.
  apply group_takes_run; [exact Htok | exact Hrest | reflexivity].
Qed.

(** The board pattern on a line of the documented shape. *)
Lemma board_re_matches (ws1 n ws2 k ws3 tok rest : str) :
  run_of isspace ws1 -> run_of isdecimal n -> run_of isspace ws2 ->
  run_of isdecimal k -> run_of isspace ws3 ->
  run_of isword tok -> stops isword rest ->
  re_match Patterns.board_re
    (lit "Board" ++ ws1 ++ n ++ lit " has" ++ ws2 ++ k ++ lit " domains"
     ++ ws3 ++ lit "Board: " ++ tok ++ rest)
  = Some [n; tok].
Proof.
  intros H1 Hn H2 Hk H3 Htok Hrest.
  unfold re_match, Patterns.board_re; cbn [seq].
  rewrite fwd_lit.
  apply fwd_plus; [exact H1 | apply stops_space_digits; exact Hn|].
  apply fwd_group_plus; [exact Hn | reflexivity|].
  rewrite fwd_lit.
  apply fwd_plus; [exact H2 | apply stops_space_digits; exact Hk|].
  apply fwd_plus; [exact Hk | reflexivity|].
  rewrite fwd_lit.
  apply fwd_plus; [exact H3 | reflexivity|].
  rewrite fwd_lit.
  apply group_takes_run; [exact Htok | exact Hrest | reflexivity].
Qed.


(** The turn of the loop on a cluster line of the documented shape: the
    number goes to [int], and nothing else can fail. *)
Lemma cluster_line_turn (fr : frame) (line0 n k ws tok rest : str) :
  strip line0
  = lit "Cluster " ++ n ++ lit " has " ++ k ++ lit " boards" ++ ws
    ++ lit "CCD: " ++ tok ++ rest ->
  run_of isdecimal n -> run_of isdecimal k -> run_of isspace ws ->
  run_of isword tok -> stops isword rest ->
  process_line fr line0
  = bind (int_of_str n) (fun c =>
    Ok (mkFrame (self_boards fr) (Some c) (current_board fr) (allocated fr))).
Proof.
  intros E Hn Hk Hws Htok Hrest. unfold process_line. rewrite E.
  rewrite (cluster_re_matches n k ws tok rest Hn Hk Hws Htok Hrest).
  reflexivity.
Qed.



End Forward.

(** ** Theorems *)




(** C4: parsing [A] and then [B] on the same model gives the board list
    that parsing [B] alone gives on a fresh model; the second parse raises
    when, and what, the parse of [B] alone raises. *)
Theorem parse_output_replaces_boards :
  forall self nowA nowB A B mA,
    parse_output self nowA A = Ok mA ->
    match parse_output mA nowB B, parse_output Parser_init nowB B with
    | Ok mAB, Ok mB => boards mAB = boards mB
    | Raise e, Raise e' => e = e'
    | _, _ => False
    end.
Proof.
  intros self nowA nowB A B mA _.
  pose proof (parse_output_run mA nowB B) as R1.
  pose proof (parse_output_run Parser_init nowB B) as R2.
  destruct (run_lines loop_start (body_lines B)) as [fr|e].
  - destruct R1 as [mAB [-> [B1 _]]]. destruct R2 as [mB [-> [B2 _]]].
    congruence.
  - rewrite R1, R2. reflexivity.
Qed.

Lemma parse_output_replaces_boards_witness :
  exists mA mAB mB,
    parse_output Parser_init now0 minus_report = Ok mA
    /\ parse_output mA now0 example_report = Ok mAB
    /\ parse_output Parser_init now0 example_report = Ok mB
    /\ boards mAB = boards mB.
Proof.
  assert (PA : parse_output Parser_init now0 minus_report = Ok minus_model)
    by (vm_compute; reflexivity).
  pose proof (parse_output_replaces_boards Parser_init now0 now0 minus_report
                example_report minus_model PA) as H.
  destruct (parse_output minus_model now0 example_report) as [mAB|e] eqn:E1;
    [|vm_compute in E1; discriminate E1].
  destruct (parse_output Parser_init now0 example_report) as [mB|e] eqn:E2;
    [|vm_compute in E2; discriminate E2].
  exists minus_model, mAB, mB. auto.
Defined.

(** C9: the five-line report of the documentation gives one board with two
    domains; 0.0 is free, 0.1 is used by alice, and the utilization is 50
    percent. *)
Theorem example_report_parsed :
  exists m j,
    parse_output Parser_init now0 example_report = Ok m
    /\ length (boards m) = 1%nat
    /\ total_domains (get_resource_summary m) = 2%nat
    /\ map get_full_id (get_free_domains m None) = [Ok (lit "0.0")]
    /\ map (fun dm => (get_full_id dm, owner dm)) (get_used_domains m None)
       = [(Ok (lit "0.1"), lit "alice")]
    /\ utilization_percent (get_resource_summary m) == 50
    /\ json_data m = Ok j
    /\ js_utilization_percent (j_resource_summary j) == 50.
Proof.
  eexists _, _. split; [vm_compute; reflexivity|].
  repeat split; vm_compute; reflexivity.
Qed.

(** C2, as amended: the utilization of the flat summary is 0 when there
    are no domains; otherwise it is the float that
    [used_domains / total_domains * 100] evaluates to, the quotient rounded
    to the nearest float and its product with 100 rounded again.  Below
    2^53 domains that float differs from 100 * used / total by at most the
    fraction 2^-52 + 2^-106 of it.  The JSON projection holds
    [round(x, 2)] of the float [x]: the float nearest to the value of [x]
    rounded to a whole number of hundredths, within 1/200 + 100 * 2^-53 of
    [x]. *)
Theorem utilization_percent_value :
  forall self,
    let sm := get_resource_summary self in
    let used := Z.of_nat (used_domains sm) in
    let total := Z.of_nat (total_domains sm) in
    let exact := 100 * Qnat (used_domains sm) / Qnat (total_domains sm) in
    (total_domains sm = 0%nat -> utilization_percent sm == 0)
    /\ ((0 < total_domains sm)%nat ->
        utilization_percent sm
        == b64 (b64 (inject_Z used / inject_Z total) * 100))
    /\ ((0 < total < 2 ^ 53)%Z ->
        Qabs (utilization_percent sm - exact)
        <= exact * (2 ^ (-52) + 2 ^ (-106)))
    /\ forall j,
         json_data self = Ok j ->
         let x := utilization_percent sm in
         let k := round_half_even (x * 100) in
         js_utilization_percent (j_resource_summary j) == b64 (inject_Z k / 100)
         /\ Qabs (inject_Z k / 100 - x) <= 1 # 200
         /\ Qabs (js_utilization_percent (j_resource_summary j) - x)
            <= (1 # 200) + 100 * 2 ^ (-53)
         /\ (total_domains sm = 0%nat ->
             js_utilization_percent (j_resource_summary j) == 0).
Proof.
  intros self sm used total exact.
  assert (A : (used_domains sm <= total_domains sm)%nat).
  { subst sm.
    cbn [get_resource_summary free_domains used_domains total_domains].
    rewrite total_is_length.
    pose proof (free_plus_used self None) as H. rewrite no_filter_all in H.
    lia. }
  assert (V : utilization_percent sm
              = if (0 <? total_domains sm)%nat then percent used total else 0)
    by reflexivity.
  assert (R : 0 <= utilization_percent sm <= 100).
  { rewrite V. destruct (Nat.ltb_spec 0 (total_domains sm)) as [P|P]; [|lra].
    apply percent_bounds; subst used total; lia. }
  split; [|split; [|split]].
  - intros E. rewrite V, E. reflexivity.
  - intros P. rewrite V. apply Nat.ltb_lt in P. rewrite P. reflexivity.
  - intros T. rewrite V.
    assert (P : (0 <? total_domains sm)%nat = true)
      by (apply Nat.ltb_lt; subst total; lia).
    rewrite P. apply percent_error; subst used total; lia.
  - intros j J x k. destruct (json_data_ok self j J) as [-> _].
    cbn [js_utilization_percent]. fold sm. fold x.
    destruct (hundredths x R) as [_ N].
    split; [reflexivity|]. split; [exact N|]. split; [apply round2_near, R|].
    intros E. subst x. rewrite V, E. reflexivity.
Qed.

Lemma utilization_percent_value_witness :
  let sm := get_resource_summary example_model in
  (0 < Z.of_nat (total_domains sm) < 2 ^ 53)%Z
  /\ Qabs (utilization_percent sm - 50) <= 50 * (2 ^ (-52) + 2 ^ (-106)).
Proof.
  intros sm.
  assert (T : (0 < Z.of_nat (total_domains sm) < 2 ^ 53)%Z)
    by (vm_compute; split; reflexivity).
  split; [exact T|].
  destruct (utilization_percent_value example_model) as [_ [_ [H _]]].
  exact (H T).
Defined.

(** C2 as stated fails: with 7 of 25 domains used the utilization is not
    100 * 7 / 25, and with 23 of 160 the JSON projection holds the float of
    14.37, where 100 * 23 / 160 = 14.375 rounds to 14.38. *)
Lemma utilization_rounding_counterexample :
  (let sm := get_resource_summary (sample_model 7 18) in
   total_domains sm = 25%nat /\ used_domains sm = 7%nat
   /\ ~ utilization_percent sm
        == 100 * Qnat (used_domains sm) / Qnat (total_domains sm))
  /\ (let sm := get_resource_summary (sample_model 23 137) in
      total_domains sm = 160%nat /\ used_domains sm = 23%nat
      /\ 100 * Qnat (used_domains sm) / Qnat (total_domains sm) == 14375 # 1000
      /\ exists j,
           json_data (sample_model 23 137) = Ok j
           /\ js_utilization_percent (j_resource_summary j) == b64 (1437 # 100)
           /\ ~ js_utilization_percent (j_resource_summary j) == 1438 # 100).
Proof.
  split.
  - repeat split; vm_compute; congruence.
  - split; [reflexivity|]. split; [reflexivity|]. split; [reflexivity|].
    eexists. split; [vm_compute; reflexivity|].
    split; vm_compute; congruence.
Qed.

(** C3: for every model and every cluster filter, the free and the used
    domains together are exactly the domains of the boards the filter
    selects, no domain is in both, and a domain is free exactly when its
    owner is "NONE". *)
Theorem free_used_partition :
  forall self cluster,
    Forall constructed (model_domains (boards self)) ->
    let selected :=
      model_domains (filter (cluster_selected cluster) (boards self)) in
    let free := get_free_domains self cluster in
    let used := get_used_domains self cluster in
    (forall dm, In dm free \/ In dm used <-> In dm selected)
    /\ (forall dm, ~ (In dm free /\ In dm used))
    /\ (forall dm, In dm free <-> In dm selected /\ owner dm = lit "NONE")
    /\ (forall dm, In dm used <-> In dm selected /\ owner dm <> lit "NONE")
    /\ Permutation (free ++ used) selected.
Proof.
  intros self cluster WF selected free used.
  assert (F : forall dm, In dm free <-> In dm selected /\ is_free dm = true).
  { intros dm. subst free selected. rewrite get_free_domains_flat.
    apply in_flat_filter. }
  assert (U : forall dm, In dm used <-> In dm selected /\ is_free dm = false).
  { intros dm. subst used selected. rewrite get_used_domains_flat.
    unfold Board_get_used_domains, model_domains.
    rewrite (in_flat_filter (fun d => negb (is_free d))), negb_true_iff.
    reflexivity. }
  assert (O : forall dm, In dm selected ->
                         (is_free dm = true <-> owner dm = lit "NONE")).
  { intros dm Hin. rewrite Forall_forall in WF.
    assert (Hc : constructed dm).
    { apply WF. subst selected. unfold model_domains in *.
      apply in_flat_map in Hin as [b [Hb Hd]]. apply filter_In in Hb as [Hb _].
      apply in_flat_map; eauto. }
    assert (E : is_free dm = str_eqb (owner dm) (lit "NONE"))
      by (unfold constructed in Hc; rewrite Hc; reflexivity).
    rewrite E. apply str_eqb_eq. }
  split; [|split; [|split; [|split]]].
  - intros dm. rewrite F, U. destruct (is_free dm); intuition congruence.
  - intros dm [H1 H2]. apply F in H1. apply U in H2.
    destruct H1, H2; congruence.
  - intros dm. rewrite F. split; intros [H1 H2]; (split; [exact H1|]);
      apply (O dm H1); exact H2.
  - intros dm. rewrite U. split; intros [H1 H2]; (split; [exact H1|]).
    + intros E. apply (O dm H1) in E. congruence.
    + destruct (is_free dm) eqn:E; [|reflexivity].
      exfalso. apply H2, (O dm H1). exact E.
  - subst free used selected.
    rewrite get_free_domains_flat, get_used_domains_flat.
    apply flat_map_split_perm. intros b. apply filter_split_perm.
Qed.

Lemma free_used_partition_witness :
  Forall constructed (model_domains (boards two_cluster_model))
  /\ Permutation
       (get_free_domains two_cluster_model (Some 0%Z)
        ++ get_used_domains two_cluster_model (Some 0%Z))
       (model_domains
          (filter (cluster_selected (Some 0%Z)) (boards two_cluster_model))).
Proof.
  assert (W : Forall constructed (model_domains (boards two_cluster_model))).
  { repeat constructor. }
  split; [exact W|].
  apply (free_used_partition two_cluster_model (Some 0%Z) W).
Defined.

(** C5: on a line of the domain branch (it starts with "Domain", or has at
    least 5 characters with a dot among the first 5), a [Domain] is added
    to the current board exactly when the line does not hold both "Owner"
    and "PID", splits into 8 fields or more, a current board exists and
    field 0 reads as [<int>.<int>]: the list of domains of the current
    board is then longer by that [Domain], at its end, and the other
    boards, the current cluster and the current board are as before.
    Otherwise the frame is unchanged.  No case raises. *)
Theorem domain_line_accepted_iff :
  forall fr line0,
    frame_ok fr ->
    domain_shaped (strip line0) = true ->
    (accepted fr (strip line0)
     <-> exists i b dm fr',
           current_board fr = Some i
           /\ nth_error (self_boards fr) i = Some b
           /\ process_line fr line0 = Ok fr'
           /\ nth_error (self_boards fr') i
              = Some (mkBoard (board_id b) (cluster_id b) (status b)
                              (domains b ++ [dm]))
           /\ (forall j, j <> i ->
                 nth_error (self_boards fr') j = nth_error (self_boards fr) j)
           /\ length (model_domains (self_boards fr'))
              = S (length (model_domains (self_boards fr)))
           /\ In dm (model_domains (self_boards fr'))
           /\ current_cluster fr' = current_cluster fr
           /\ current_board fr' = current_board fr)
    /\ (~ accepted fr (strip line0) -> process_line fr line0 = Ok fr).
Proof.
  intros fr line0 WF H.
  destruct (process_line_domain_cases fr line0 H)
    as [[A [i [x [y [CB [I P]]]]]] | [A P]].
  - split; [|tauto]. split; [intros _|intros _; exact A].
    unfold frame_ok in WF. rewrite CB in WF.
    destruct (nth_error (self_boards fr) i) as [b|] eqn:E.
    2:{ apply nth_error_None in E. lia. }
    set (dm := domain_of_fields (allocated fr) (split_ws (strip line0)) x y) in *.
    destruct (model_domains_attach dm (self_boards fr) i WF)
      as [l1 [l2 [M1 M2]]].
    exists i, b, dm, (attach fr i dm). cbn [attach self_boards current_cluster
                                            current_board].
    split; [exact CB|]. split; [exact E|]. split; [exact P|].
    split; [exact (alter_nth_lookup (fun b' => add_domain b' dm) _ _ _ E)|].
    split; [intros j Hj; apply alter_nth_other; congruence|].
    rewrite M1, M2, !length_app. cbn [length].
    split; [lia|]. split; [|split; reflexivity].
    apply in_or_app. right; left; reflexivity.
  - split; [|intros _; exact P]. split; [tauto|].
    intros [i [b [dm [fr' [_ [E [P' [E' _]]]]]]]]. rewrite P in P'.
    injection P' as <-. rewrite E in E'. injection E' as E'.
    apply (f_equal (fun b' => length (domains b'))) in E'.
    cbn [domains] in E'. rewrite length_app in E'. simpl in E'. lia.
Qed.

Lemma domain_line_accepted_iff_witness :
  frame_ok one_board_frame
  /\ domain_shaped (strip alice_line) = true
  /\ exists dm fr',
       process_line one_board_frame alice_line = Ok fr'
       /\ nth_error (self_boards fr') 0
          = Some (mkBoard 0 (Some 0%Z) (lit "UP") [dm])
       /\ owner dm = lit "alice".
Proof.
  assert (W : frame_ok one_board_frame) by (unfold frame_ok; simpl; lia).
  assert (D : domain_shaped (strip alice_line) = true) by reflexivity.
  split; [exact W|]. split; [exact D|].
  destruct (proj1 (proj1 (domain_line_accepted_iff one_board_frame alice_line
                            W D)))
    as [i [b [dm [fr' [CB [E [P [E' [_ [_ [_ _]]]]]]]]]]].
  { repeat split.
    - vm_compute. lia.
    - discriminate.
    - exists 0%Z, 1%Z, (lit "0"), (lit "1"). repeat split. }
  injection CB as <-. injection E as <-.
  exists dm, fr'. split; [exact P|]. split; [exact E'|].
  assert (Q : process_line one_board_frame alice_line = Ok alice_frame)
    by reflexivity.
  rewrite Q in P. injection P as <-.
  vm_compute in E'. injection E' as <-. reflexivity.
Defined.

(** C6: the [Domain] of an accepted line takes its board and domain
    numbers from field 0 split on the dot, its owner from field 1, its pid
    from field 2, its pod from field 5 (empty when that is "--"), its design
    from field 6, its elapsed time from field 7 and its reserved key from
    field 8, or "--" when there are fewer than 9 fields; fields 3 and 4 do
    not reach it. *)
Theorem accepted_domain_fields :
  forall fr fr' line0,
    process_line fr line0 = Ok fr' ->
    allocated fr' <> allocated fr ->
    let parts := split_ws (strip line0) in
    exists i dm,
      current_board fr = Some i
      /\ fr' = attach fr i dm
      /\ int_dot_int (field parts 0) (board dm) (domain dm)
      /\ owner dm = field parts 1
      /\ pid dm = field parts 2
      /\ t_pod dm = (if str_eqb (field parts 5) (lit "--") then []
                     else field parts 5)
      /\ design dm = field parts 6
      /\ elapsed_time dm = field parts 7
      /\ reserved_key dm = (if (9 <=? length parts)%nat then field parts 8
                            else lit "--")
      /\ is_free dm = str_eqb (field parts 1) (lit "NONE")
      /\ forall f3 f4,
           domain_of_parts (allocated fr)
             (firstn 3 parts ++ f3 :: f4 :: skipn 5 parts)
           = Ok (Some dm).
Proof.
  intros fr fr' line0 P N parts.
  pose proof (process_line_allocates _ _ _ P N) as H.
  destruct (process_line_domain_cases fr line0 H)
    as [[A [i [x [y [CB [I P']]]]]] | [_ P']].
  2:{ rewrite P in P'. injection P' as ->. congruence. }
  rewrite P in P'. injection P' as ->. fold parts in I |- *.
  exists i, (domain_of_fields (allocated fr) parts x y).
  repeat split; try assumption.
  intros f3 f4. destruct A as [_ [L _]]. fold parts in L.
  rewrite (fields_3_4_unused _ _ f3 f4 L).
  apply (domain_of_parts_spec (allocated fr) parts L). eauto.
Qed.

Lemma accepted_domain_fields_witness :
  process_line one_board_frame alice_line = Ok alice_frame
  /\ allocated alice_frame <> allocated one_board_frame
  /\ exists i dm,
       current_board one_board_frame = Some i
       /\ alice_frame = attach one_board_frame i dm
       /\ owner dm = field (split_ws (strip alice_line)) 1
       /\ pid dm = field (split_ws (strip alice_line)) 2.
Proof.
  assert (P : process_line one_board_frame alice_line = Ok alice_frame)
    by reflexivity.
  assert (N : allocated alice_frame <> allocated one_board_frame)
    by discriminate.
  split; [exact P|]. split; [exact N|].
  destruct (accepted_domain_fields one_board_frame alice_frame alice_line P N)
    as [i [dm [CB [E [_ [O [PI _]]]]]]].
  exists i, dm. auto.
Defined.

(** C8, as amended: after any [parse_output] call every [Domain] of the
    model is in the domain list of exactly one board; its board and domain
    numbers are what [int] reads before and after the dot of field 0 of a
    line, and one of them is negative only when that text holds a minus
    sign. *)
Theorem parsed_domains_in_one_board :
  forall self now output m,
    parse_output self now output = Ok m ->
    NoDup (map oid (model_domains (boards m)))
    /\ (forall dm, In dm (model_domains (boards m)) ->
          exists! i, exists b,
            nth_error (boards m) i = Some b /\ In dm (domains b))
    /\ (forall dm, In dm (model_domains (boards m)) ->
          exists line a b,
            In line (body_lines output)
            /\ field (split_ws (strip line)) 0 = a ++ "."%char :: b
            /\ int_of_str a = Ok (board dm)
            /\ int_of_str b = Ok (domain dm)
            /\ ((board dm < 0)%Z -> In "-"%char a)
            /\ ((domain dm < 0)%Z -> In "-"%char b)).
Proof.
  intros self now output m P.
  destruct (parse_output_ok _ _ _ _ P) as [fr [R [B _]]].
  rewrite B.
  destruct (run_lines_inv (body_lines output) (body_lines output) _ _
              (incl_refl _) (loop_start_inv _) R) as [_ [ND Hd]].
  split; [exact ND|]. split.
  - intros dm Hin. pose proof Hin as Hin'.
    apply in_flat_map in Hin' as [b [Hb Hdm]].
    apply In_nth_error in Hb as [i Hi].
    exists i. split; [eauto|].
    intros j [b' [Hj Hdm']].
    eapply (NoDup_flat_map_unique domains (self_boards fr)); eauto.
    apply NoDup_map_inv in ND. exact ND.
  - intros dm Hin. destruct (Hd dm Hin) as [_ [line [Hl [a [b [E [Ha Hb]]]]]]].
    exists line, a, b. repeat split; try assumption.
    + apply (int_of_str_neg _ _ Ha).
    + apply (int_of_str_neg _ _ Hb).
Qed.

Lemma parsed_domains_in_one_board_witness :
  parse_output Parser_init now0 example_report = Ok example_model
  /\ NoDup (map oid (model_domains (boards example_model))).
Proof.
  assert (P : parse_output Parser_init now0 example_report = Ok example_model)
    by (vm_compute; reflexivity).
  split; [exact P|].
  exact (proj1 (parsed_domains_in_one_board Parser_init now0 example_report
                  example_model P)).
Defined.

(** C8 as stated fails: a domain line whose id field carries a minus sign
    gives a [Domain] with a negative board number. *)
Lemma negative_board_number_counterexample :
  exists m dm,
    parse_output Parser_init now0 minus_report = Ok m
    /\ In dm (model_domains (boards m))
    /\ (board dm < 0)%Z.
Proof.
  eexists _, _. split; [vm_compute; reflexivity|].
  split; [left; reflexivity | reflexivity].
Qed.

(** C10: [parse_output] drops the whitespace around the whole text and
    takes the first line left as the header.  So in a text that begins
    with blank lines, the first line that is not blank is the header: the
    boards are built from the lines after it alone, whatever its shape. *)
Theorem first_line_is_header :
  forall self now ws c l rest,
    forallb isspace ws = true ->
    isspace c = false ->
    ~ In nl (c :: l) ->
    let header := match rstrip rest with [] => rstrip (c :: l) | _ => c :: l end in
    (forallb fits (split_on nl (rstrip rest)) = true ->
     exists m, parse_output self now (ws ++ (c :: l) ++ nl :: rest) = Ok m)
    /\ forall m,
         parse_output self now (ws ++ (c :: l) ++ nl :: rest) = Ok m ->
         exists fr,
           run_lines loop_start (split_on nl (rstrip rest)) = Ok fr
           /\ boards m = self_boards fr
           /\ emulator_name m = emulator_name (_parse_header Parser_init header)
           /\ hardware m = hardware (_parse_header Parser_init header)
           /\ configmgr m = configmgr (_parse_header Parser_init header)
           /\ system_status m = system_status (_parse_header Parser_init header).
Proof.
  intros self now ws c l rest Hws Hc Hnl header.
  assert (BL : body_lines (ws ++ (c :: l) ++ nl :: rest)
               = match rstrip rest with
                 | [] => []
                 | _ :: _ => split_on nl (rstrip rest)
                 end).
  { unfold body_lines. rewrite strip_leading, lines_of_text by assumption.
    destruct (rstrip rest); reflexivity. }
  assert (HL : header_line (ws ++ (c :: l) ++ nl :: rest) = header).
  { unfold header_line. rewrite strip_leading, lines_of_text by assumption.
    subst header. destruct (rstrip rest); reflexivity. }
  split.
  - intros F.
    pose proof (parse_output_returns self now (ws ++ (c :: l) ++ nl :: rest)) as R.
    rewrite BL in R. destruct (rstrip rest); [exact R|].
    rewrite F in R. exact R.
  - intros m P. destruct (parse_output_ok _ _ _ _ P) as [fr [R [B E]]].
    rewrite HL in E. rewrite BL in R.
    destruct (rstrip rest) as [|x r] eqn:Er.
    + cbn [run_lines] in R. injection R as <-.
      exists loop_start. split; [reflexivity|]. split; assumption.
    + exists fr. split; [exact R|]. split; assumption.
Qed.

Lemma first_line_is_header_witness :
  forallb isspace [nl; " "%char; nl] = true
  /\ isspace "B"%char = false
  /\ ~ In nl (lit "Board 0 has 2 domains Board: UP")
  /\ exists m, parse_output Parser_init now0 board_first_report = Ok m
               /\ boards m = [].
Proof.
  assert (H1 : forallb isspace [nl; " "%char; nl] = true) by reflexivity.
  assert (H2 : isspace "B"%char = false) by reflexivity.
  assert (H3 : ~ In nl (lit "Board 0 has 2 domains Board: UP")).
  { intros H. repeat (destruct H as [H|H]; [discriminate H|]). exact H. }
  repeat (split; [assumption|]).
  destruct (first_line_is_header Parser_init now0 [nl; " "%char; nl] "B"%char
              (lit "oard 0 has 2 domains Board: UP")
              (lit "0.0 NONE -- -- -- -- DESIGNA 00:01:00 --") H1 H2 H3)
    as [T H].
  destruct T as [m P]; [vm_compute; reflexivity|].
  destruct (H m P) as [fr [R [B _]]].
  exists m. split; [exact P|]. rewrite B.
  vm_compute in R. injection R as <-. reflexivity.
Defined.

(** C7, as amended: [_parse_header] leaves each of the four fields unset
    when its label does not occur in the line, and raises nothing.  When
    "Hardware:" occurs, and the text after it up to the next "Configmgr:"
    or the end of the line is not empty and made of word characters and
    whitespace only, the hardware descriptor is that text, trimmed. *)
Theorem parse_header_fields :
  forall self header,
    (contains (lit "Emulator:") header = false ->
     emulator_name (_parse_header self header) = None)
    /\ (contains (lit "Hardware:") header = false ->
        hardware (_parse_header self header) = None)
    /\ (contains (lit "Configmgr:") header = false ->
        configmgr (_parse_header self header) = None)
    /\ (contains (lit "System Status:") header = false ->
        system_status (_parse_header self header) = None)
    /\ (forall t,
          ~ In nl header ->
          find_after (lit "Hardware:") header = Some t ->
          up_to (lit "Configmgr:") t <> [] ->
          forallb Re.w_or_s (up_to (lit "Configmgr:") t) = true ->
          hardware (_parse_header self header) = hardware_as_documented header
          /\ hardware_as_documented header
             = Some (strip (up_to (lit "Configmgr:") t))).
Proof.
  intros self header.
  split; [|split; [|split; [|split]]].
  - intros H. cbn [_parse_header emulator_name].
    unfold Patterns.emulator_re; cbn [Re.seq].
    rewrite (re_search_absent _ _ _ H). reflexivity.
  - intros H. cbn [_parse_header hardware].
    unfold Patterns.hardware_re; cbn [Re.seq].
    rewrite (re_search_absent _ _ _ H). reflexivity.
  - intros H. cbn [_parse_header configmgr].
    unfold Patterns.configmgr_re; cbn [Re.seq].
    rewrite (re_search_absent _ _ _ H). reflexivity.
  - intros H. cbn [_parse_header system_status].
    unfold Patterns.status_re; cbn [Re.seq].
    rewrite (re_search_absent _ _ _ H). reflexivity.
  - intros t Hnl F Hne Hc.
    rewrite (hardware_agrees self header t Hnl F Hne Hc).
    unfold hardware_as_documented. rewrite F. split; reflexivity.
Qed.

Lemma parse_header_fields_witness :
  hardware (_parse_header Parser_init example_header) = Some (lit "Box3000").
Proof.
  destruct (parse_header_fields Parser_init example_header)
    as [_ [_ [_ [_ H]]]].
  destruct (H (lit " Box3000 Configmgr: CM7 System Status: OK")) as [H1 H2].
  - intros C. repeat (destruct C as [C|C]; [discriminate C|]). exact C.
  - reflexivity.
  - discriminate.
  - reflexivity.
  - rewrite H1, H2. reflexivity.
Defined.

(** C7 as stated fails: "Hardware:" is present, the text up to
    "Configmgr:" is "Box-3000", and the code leaves the field unset. *)
Lemma hardware_descriptor_counterexample :
  contains (lit "Hardware:") dashed_header = true
  /\ hardware_as_documented dashed_header = Some (lit "Box-3000")
  /\ hardware (_parse_header Parser_init dashed_header) = None.
Proof. repeat split; vm_compute; reflexivity. Qed.


(** ** Further properties: counts and summaries *)

(** X1: in the summary, the free and the used counts add up to the total,
    the total is the number of domains of all boards, and there are at most
    as many users as used domains. *)
Theorem summary_counts_add_up :
  forall self,
    let sm := get_resource_summary self in
    (free_domains sm + used_domains sm = total_domains sm)%nat
    /\ total_domains sm = length (model_domains (boards self))
    /\ total_boards sm = length (boards self)
    /\ (length (users sm) <= used_domains sm)%nat.
Proof.
  intros self sm. subst sm.
  cbn [get_resource_summary free_domains used_domains total_domains
       total_boards users].
  rewrite total_is_length, free_plus_used, no_filter_all.
  repeat split.
  rewrite length_map, by_user_one_pass.
  apply (grouping_length (get_used_domains self None) []).
Qed.

(** X2: [get_free_domains] and [get_used_domains] list the domains of the
    selected boards in the order of the model: first by board, then by
    position in the board. *)
Theorem free_used_keep_order :
  forall self cluster,
    let selected :=
      model_domains (filter (cluster_selected cluster) (boards self)) in
    get_free_domains self cluster = filter is_free selected
    /\ get_used_domains self cluster
       = filter (fun dm => negb (is_free dm)) selected
    /\ get_free_domains self None
       = filter is_free (model_domains (boards self)).
Proof.
  intros self cluster selected. subst selected.
  split; [apply free_in_order|]. split; [apply used_in_order|].
  rewrite free_in_order, no_filter_all. reflexivity.
Qed.

Section Grouping.

Lemma dict_get_append (k k0 : str) (v : Domain) (dct : user_dict) :
  dict_get k (dict_append k0 v dct)
  = if str_eqb k0 k then
      Some (match dict_get k0 dct with Some vs => vs ++ [v] | None => [v] end)
    else dict_get k dct.
Proof.
  unfold dict_get.
  induction dct as [|[k' vs] dct IH]; cbn [dict_append find fst snd option_map].
  - destruct (str_eqb k0 k); reflexivity.
  - destruct (str_eqb k' k0) eqn:E0; cbn [find fst snd option_map].
    + apply str_eqb_eq in E0. subst k'.
      destruct (str_eqb k0 k) eqn:E; reflexivity.
    + destruct (str_eqb k' k) eqn:E.
      * apply str_eqb_eq in E. subst k'.
        destruct (str_eqb k0 k) eqn:E1; [|reflexivity].
        apply str_eqb_eq in E1. subst k0.
        rewrite (proj2 (str_eqb_eq k k) eq_refl) in E0. discriminate.
      * exact IH.
Qed.

Lemma dict_append_keys (k : str) (v : Domain) (dct : user_dict) :
  map fst (dict_append k v dct)
  = if existsb (fun k' => str_eqb k' k) (map fst dct) then map fst dct
    else map fst dct ++ [k].
Proof.
  induction dct as [|[k' vs] dct IH]; simpl; [reflexivity|].
  destruct (str_eqb k' k); simpl; [reflexivity|].
  rewrite IH. destruct (existsb _ (map fst dct)); reflexivity.
Qed.

Lemma existsb_in (k : str) (l : list str) :
  existsb (fun k' => str_eqb k' k) l = true <-> In k l.
Proof.
  rewrite existsb_exists. split.
  - intros [x [Hx E]]. apply str_eqb_eq in E. subst x. exact Hx.
  - intros H. exists k. split; [exact H | apply str_eqb_eq; reflexivity].
Qed.

Lemma dict_append_nodup (k : str) (v : Domain) (dct : user_dict) :
  NoDup (map fst dct) -> NoDup (map fst (dict_append k v dct)).
Proof.
  intros H. rewrite dict_append_keys.
  destruct (existsb (fun k' => str_eqb k' k) (map fst dct)) eqn:E; [exact H|].
  apply NoDup_Add with (a := k) (l := map fst dct).
  - rewrite <- (app_nil_r (map fst dct)) at 1. apply Add_app.
  - split; [exact H|]. intros C. apply existsb_in in C. congruence.
Qed.

Lemma dict_get_in (k : str) (vs : list Domain) (dct : user_dict) :
  NoDup (map fst dct) ->
  (In (k, vs) dct <-> dict_get k dct = Some vs).
Proof.
  unfold dict_get. induction dct as [|[k' vs'] dct IH]; intros ND.
  - simpl. split; [contradiction | discriminate].
  - simpl in ND. apply NoDup_cons_iff in ND as [Hk ND].
    cbn [find fst]. destruct (str_eqb k' k) eqn:E.
    + apply str_eqb_eq in E. subst k'. cbn [option_map snd]. split.
      * intros [[= ->]|H]; [reflexivity|].
        exfalso. apply Hk. apply in_map_iff. exists (k, vs). auto.
      * intros [= ->]. left; reflexivity.
    + rewrite <- (IH ND). split.
      * intros [[= -> _]|H]; [|exact H].
        rewrite (proj2 (str_eqb_eq k k) eq_refl) in E. discriminate.
      * intros H; right; exact H.
Qed.

Lemma grouping_inv (l : list Domain) :
  NoDup (map fst (fold_left step l []))
  /\ map fst (fold_left step l []) = first_seen (map owner l)
  /\ forall k, dict_get k (fold_left step l [])
               = match filter (owned_by k) l with
                 | [] => None
                 | vs => Some vs
                 end.
Proof.
  induction l as [|dm l [ND [KS IH]]] using rev_ind.
  - simpl. split; [constructor | split; [reflexivity | intros k; reflexivity]].
  - rewrite fold_left_app. cbn [fold_left]. unfold step at 1 3 5.
    split; [apply dict_append_nodup; exact ND|]. split.
    + rewrite dict_append_keys, KS. unfold first_seen.
      rewrite map_app, fold_left_app. reflexivity.
    + intros k. rewrite dict_get_append, filter_app.
      cbn [filter]. unfold owned_by at 2.
      destruct (str_eqb (owner dm) k) eqn:E.
      * apply str_eqb_eq in E. subst k. rewrite IH.
        destruct (filter (owned_by (owner dm)) l); reflexivity.
      * rewrite app_nil_r. apply IH.
Qed.

Lemma dict_append_total (k : str) (v : Domain) (dct : user_dict) :
  list_sum (map (fun e => length (snd e)) (dict_append k v dct))
  = S (list_sum (map (fun e => length (snd e)) dct)).
Proof.
  induction dct as [|[k' vs] dct IH]; simpl; [reflexivity|].
  destruct (str_eqb k' k); simpl.
  - rewrite length_app; simpl. lia.
  - rewrite IH. lia.
Qed.

Lemma grouping_total (l : list Domain) : forall acc,
  list_sum (map (fun e => length (snd e)) (fold_left step l acc))
  = (list_sum (map (fun e => length (snd e)) acc) + length l)%nat.
Proof.
  induction l as [|dm l IH]; intros acc; simpl; [lia|].
  rewrite IH. unfold step. rewrite dict_append_total. lia.
Qed.

(** The groups of a model, by the pass of [by_user_one_pass]. *)
Lemma by_user_groups (self : EmulatorResourceParser) :
  let ud := get_domains_by_user self in
  let used := get_used_domains self None in
  NoDup (map fst ud)
  /\ map fst ud = first_seen (map owner used)
  /\ (forall k vs, In (k, vs) ud ->
                   vs <> [] /\ vs = filter (owned_by k) used)
  /\ (forall dm, In dm used ->
                 In (owner dm, filter (owned_by (owner dm)) used) ud)
  /\ list_sum (map (fun e => length (snd e)) ud) = length used.
Proof.
  intros ud used. subst ud used. rewrite by_user_one_pass.
  destruct (grouping_inv (get_used_domains self None)) as [ND [KS G]].
  fold step. split; [exact ND|]. split; [exact KS|]. split; [|split].
  - intros k vs H. apply (dict_get_in k vs _ ND) in H. rewrite G in H.
    destruct (filter (owned_by k) (get_used_domains self None));
      [discriminate|]. injection H as <-. split; [discriminate | reflexivity].
  - intros dm H. apply (dict_get_in _ _ _ ND). rewrite G.
    assert (I : In dm (filter (owned_by (owner dm)) (get_used_domains self None))).
    { apply filter_In. split; [exact H|]. apply str_eqb_eq. reflexivity. }
    destruct (filter (owned_by (owner dm)) (get_used_domains self None));
      [contradiction | reflexivity].
  - rewrite grouping_total. reflexivity.
Qed.

End Grouping.

(** X3: [get_domains_by_user] has one entry per owner of a used domain, in
    the order in which the owners are first met; the entry of an owner
    lists all the used domains of that owner, and only them, in the order
    of [get_used_domains]; no entry is empty and no free domain is
    listed. *)
Theorem domains_by_user_groups :
  forall self,
    let ud := get_domains_by_user self in
    let used := get_used_domains self None in
    NoDup (map fst ud)
    /\ map fst ud = first_seen (map owner used)
    /\ (forall k vs, In (k, vs) ud ->
          vs <> [] /\ vs = filter (owned_by k) used)
    /\ (forall dm, In dm used ->
          In (owner dm, filter (owned_by (owner dm)) used) ud)
    /\ (forall k vs dm, In (k, vs) ud -> In dm vs ->
          owner dm = k /\ is_free dm = false).
Proof.
  intros self ud used.
  destruct (by_user_groups self) as [ND [KS [G [C _]]]].
  fold ud used in ND, KS, G, C.
  repeat (split; [assumption|]).
  intros k vs dm H Hdm. destruct (G k vs H) as [_ E]. rewrite E in Hdm.
  apply filter_In in Hdm as [Hu Ho]. split; [apply str_eqb_eq; exact Ho|].
  subst used. rewrite used_in_order in Hu. apply filter_In in Hu as [_ Hf].
  apply negb_true_iff in Hf. exact Hf.
Qed.

(** X4: the JSON projection is consistent with itself: the list of free
    domains has [free_domains] entries, the [domain_count] of a user is the
    length of that user's list and is not zero, the counts of all users add
    up to [used_domains], and free and used add up to [total_domains]. *)
Theorem json_counts_consistent :
  forall self j,
    json_data self = Ok j ->
    let rs := j_resource_summary j in
    length (j_free_domains j) = js_free_domains rs
    /\ Forall (fun e => domain_count (snd e) = length (ue_domains (snd e))
                        /\ (0 < domain_count (snd e))%nat)
              (j_domains_by_user j)
    /\ list_sum (map (fun e => domain_count (snd e)) (j_domains_by_user j))
       = js_used_domains rs
    /\ (js_free_domains rs + js_used_domains rs = js_total_domains rs)%nat
    /\ map fst (j_domains_by_user j) = users (get_resource_summary self).
Proof.
  intros self j J rs. subst rs.
  destruct (json_data_ok self j J) as [-> [U F]].
  destruct (by_user_groups self) as [_ [_ [G [_ T]]]].
  cbn [js_free_domains js_used_domains js_total_domains].
  split; [|split; [|split; [|split]]].
  - symmetry. apply (Forall2_length F).
  - apply (Forall2_right _ _ _ _ U). intros [k vs] e Hin [_ [C D]].
    cbn [snd] in C, D. rewrite C. split; [apply (Forall2_length D)|].
    destruct (G k vs Hin) as [Hne _].
    destruct vs; [congruence | simpl; lia].
  - rewrite (Forall2_maps _ (fun ud => length (snd ud)) _ _ _ U);
      [exact T | intros ud e [_ [C _]]; exact C].
  - cbn [get_resource_summary free_domains used_domains total_domains].
    rewrite total_is_length, free_plus_used, no_filter_all. reflexivity.
  - apply (Forall2_maps _ _ _ _ _ U). intros ud e [C _]; exact C.
Qed.

Lemma json_counts_consistent_witness :
  exists j,
    json_data example_model = Ok j
    /\ length (j_free_domains j) = js_free_domains (j_resource_summary j).
Proof.
  destruct (json_data example_model) as [j|e] eqn:J;
    [|vm_compute in J; discriminate J].
  exists j. split; [reflexivity|].
  exact (proj1 (json_counts_consistent example_model j J)).
Defined.

(** X5: the utilization is a percentage: it lies between 0 and 100, in the
    flat summary and, rounded, in the JSON projection; it is 0 when no
    domain is used and 100 when there are domains and none is free, and,
    below 2^53 domains, in these cases only. *)
Theorem utilization_is_a_percentage :
  forall self,
    let sm := get_resource_summary self in
    0 <= utilization_percent sm <= 100
    /\ (forall j, json_data self = Ok j ->
          0 <= js_utilization_percent (j_resource_summary j) <= 100)
    /\ (used_domains sm = 0%nat -> utilization_percent sm == 0)
    /\ ((0 < total_domains sm)%nat /\ free_domains sm = 0%nat ->
        utilization_percent sm == 100)
    /\ ((Z.of_nat (total_domains sm) < 2 ^ 53)%Z ->
        (utilization_percent sm == 0 <-> used_domains sm = 0%nat)
        /\ (utilization_percent sm == 100
            <-> (0 < total_domains sm)%nat /\ free_domains sm = 0%nat)).
Proof.
  intros self sm.
  assert (A : (free_domains sm + used_domains sm = total_domains sm)%nat).
  { subst sm.
    cbn [get_resource_summary free_domains used_domains total_domains].
    rewrite total_is_length, free_plus_used, no_filter_all. reflexivity. }
  assert (V : utilization_percent sm
              = if (0 <? total_domains sm)%nat
                then percent (Z.of_nat (used_domains sm))
                             (Z.of_nat (total_domains sm))
                else 0) by reflexivity.
  assert (R : 0 <= utilization_percent sm <= 100).
  { rewrite V. destruct (Nat.ltb_spec 0 (total_domains sm)) as [P|P]; [|lra].
    apply percent_bounds; lia. }
  assert (Z0 : used_domains sm = 0%nat -> utilization_percent sm == 0).
  { intros E. rewrite V, E. destruct (0 <? total_domains sm)%nat;
      [apply percent_zero | reflexivity]. }
  assert (Z1 : (0 < total_domains sm)%nat /\ free_domains sm = 0%nat ->
               utilization_percent sm == 100).
  { intros [P E]. rewrite V. apply Nat.ltb_lt in P. rewrite P.
    replace (used_domains sm) with (total_domains sm) by lia.
    apply percent_full. apply Nat.ltb_lt in P. lia. }
  split; [exact R|]. split; [|split; [exact Z0|split; [exact Z1|]]].
  - intros j J. destruct (json_data_ok self j J) as [-> _].
    cbn [js_utilization_percent]. apply round2_between. exact R.
  - intros T. split; (split; [|assumption]).
    + intros E. rewrite V in E.
      destruct (Nat.ltb_spec 0 (total_domains sm)) as [P|P]; [|lia].
      destruct (Nat.eq_dec (used_domains sm) 0) as [U|U]; [exact U|].
      pose proof (percent_pos (Z.of_nat (used_domains sm))
                    (Z.of_nat (total_domains sm)) ltac:(lia) ltac:(lia)).
      lra.
    + intros E. rewrite V in E.
      destruct (Nat.ltb_spec 0 (total_domains sm)) as [P|P];
        [|exfalso; revert E; vm_compute; congruence].
      split; [exact P|].
      destruct (Nat.eq_dec (free_domains sm) 0) as [U|U]; [exact U|].
      pose proof (percent_below (Z.of_nat (used_domains sm))
                    (Z.of_nat (total_domains sm)) ltac:(lia) ltac:(lia)).
      lra.
Qed.

Lemma utilization_is_a_percentage_witness :
  let sm := get_resource_summary example_model in
  (Z.of_nat (total_domains sm) < 2 ^ 53)%Z
  /\ ~ utilization_percent sm == 0
  /\ exists j, json_data example_model = Ok j
               /\ 0 <= js_utilization_percent (j_resource_summary j) <= 100.
Proof.
  intros sm.
  assert (T : (Z.of_nat (total_domains sm) < 2 ^ 53)%Z)
    by (vm_compute; reflexivity).
  destruct (utilization_is_a_percentage example_model) as [_ [B [_ [_ H]]]].
  destruct (H T) as [[H0 _] _].
  split; [exact T|]. split.
  - intros E. apply H0 in E. vm_compute in E. discriminate E.
  - destruct (json_data example_model) as [j|e] eqn:J;
      [|vm_compute in J; discriminate J].
    exists j. split; [reflexivity | apply B; reflexivity].
Defined.

(** ** Further properties: identifiers *)

Section Identifiers.

Ltac eval_digit :=
  match goal with
  | |- context [isdecimal ?c] =>
      change (isdecimal c) with true;
      let v := eval compute in (Z.of_nat (code c) - 48)%Z in
      change (Z.of_nat (code c) - 48)%Z with v
  end; cbv iota.

Lemma chars_decimal (d : Decimal.uint) : forallb isdecimal (chars d) = true.
Proof. induction d; simpl; auto. Qed.

Lemma int_digits_acc (d : Decimal.uint) : forall p,
  int_digits (Zpos p) false (chars d) = Some (Zpos (Pos.of_uint_acc d p)).
Proof.
  induction d; intros p; [reflexivity|..];
    cbn [chars DecimalString.NilEmpty.string_of_uint list_ascii_of_string
         int_digits Pos.of_uint_acc];
    change (int_digits ?a false (list_ascii_of_string
              (DecimalString.NilEmpty.string_of_uint d)))
      with (int_digits a false (chars d));
    cbn [Ascii.eqb Bool.eqb]; eval_digit;
    rewrite <- IHd; f_equal; lia.
Qed.

Lemma int_digits_uint (d : Decimal.uint) : forall us,
  us = false \/ d <> Decimal.Nil ->
  int_digits 0 us (chars d) = Some (Z.of_N (Pos.of_uint d)).
Proof.
  induction d; intros us H;
    [destruct H as [->|H]; [reflexivity | congruence] | ..];
    cbn [chars DecimalString.NilEmpty.string_of_uint list_ascii_of_string
         int_digits Pos.of_uint];
    change (int_digits ?a false (list_ascii_of_string
              (DecimalString.NilEmpty.string_of_uint d)))
      with (int_digits a false (chars d));
    cbn [Ascii.eqb Bool.eqb]; eval_digit;
    try (exact (IHd false (or_introl eq_refl)));
    cbn [Z.of_N]; rewrite <- int_digits_acc; f_equal.
Qed.

Lemma decimal_pos (p : positive) :
  decimal (Zpos p) = chars (Pos.to_uint p).
Proof.
  unfold decimal, chars. cbn [Z.to_int DecimalString.NilZero.string_of_int].
  unfold DecimalString.NilZero.string_of_uint.
  pose proof (DecimalPos.Unsigned.to_uint_nonnil p) as N.
  destruct (Pos.to_uint p); [congruence | reflexivity..].
Qed.

Lemma decimal_neg (p : positive) :
  decimal (Zneg p) = "-"%char :: chars (Pos.to_uint p).
Proof.
  unfold decimal, chars. cbn [Z.to_int DecimalString.NilZero.string_of_int].
  unfold DecimalString.NilZero.string_of_uint.
  pose proof (DecimalPos.Unsigned.to_uint_nonnil p) as N.
  destruct (Pos.to_uint p); [congruence | reflexivity..].
Qed.

Lemma chars_nonspace (d : Decimal.uint) :
  forallb (fun c => negb (isspace c)) (chars d) = true.
Proof. apply digits_nonspace, chars_decimal. Qed.

Lemma chars_to_uint_cons (p : positive) :
  exists c r, chars (Pos.to_uint p) = c :: r /\ isdecimal c = true.
Proof.
  pose proof (DecimalPos.Unsigned.to_uint_nonnil p) as N.
  destruct (Pos.to_uint p); [congruence|..];
    eexists _, _; split; reflexivity.
Qed.

(** [int] reads the numeral of [z] back as [z], when its digits are not
    too many. *)
Lemma int_of_decimal (z : Z) :
  (digit_count (decimal z) <= max_str_digits)%nat ->
  int_of_str (decimal z) = Ok z.
Proof.
  destruct z as [|p|p]; intros L.
  - reflexivity.
  - rewrite decimal_pos in *. unfold int_of_str.
    rewrite int_strip_nonspace by apply chars_nonspace.
    destruct (chars_to_uint_cons p) as [c [r [E Hc]]].
    rewrite E, (decimal_not c "-" Hc eq_refl), (decimal_not c "+" Hc eq_refl).
    rewrite <- E, int_digits_uint
      by (right; apply DecimalPos.Unsigned.to_uint_nonnil).
    apply Nat.leb_le in L. rewrite L.
    rewrite DecimalPos.Unsigned.of_to. reflexivity.
  - rewrite decimal_neg in *. unfold int_of_str.
    rewrite int_strip_nonspace
      by (cbn [forallb]; rewrite chars_nonspace; reflexivity).
    cbn [Ascii.eqb Bool.eqb].
    rewrite int_digits_uint
      by (right; apply DecimalPos.Unsigned.to_uint_nonnil).
    assert (D : digit_count ("-"%char :: chars (Pos.to_uint p))
                = digit_count (chars (Pos.to_uint p))) by reflexivity.
    rewrite D in L. apply Nat.leb_le in L. rewrite L.
    rewrite DecimalPos.Unsigned.of_to. reflexivity.
Qed.

(** [str] gives the numeral, or raises [ValueError]: the number of digits
    decides. *)
Lemma str_of_int_cases (z : Z) :
  if (digit_count (decimal z) <=? max_str_digits)%nat
  then str_of_int z = Ok (decimal z)
  else str_of_int z = Raise ValueError.
Proof.
  unfold str_of_int.
  destruct (digit_count (decimal z) <=? max_str_digits)%nat; reflexivity.
Qed.

(** [int(str(n)) == n] *)
Lemma int_of_str_of_int (z : Z) (s : str) :
  str_of_int z = Ok s -> int_of_str s = Ok z.
Proof.
  pose proof (str_of_int_cases z) as C.
  destruct (Nat.leb_spec (digit_count (decimal z)) max_str_digits) as [L|L];
    rewrite C; [|discriminate].
  intros [= <-]. apply int_of_decimal, L.
Qed.

Lemma full_id_reads_back (dm : Domain) (id : str) :
  get_full_id dm = Ok id -> int_dot_int id (board dm) (domain dm).
Proof.
  unfold get_full_id.
  destruct (str_of_int (board dm)) as [b|e] eqn:B; cbn [bind]; [|discriminate].
  destruct (str_of_int (domain dm)) as [d|e] eqn:D; cbn [bind]; [|discriminate].
  intros [= <-]. exists b, d.
  repeat split; apply int_of_str_of_int; assumption.
Qed.

Lemma chars_length (d : Decimal.uint) :
  length (chars d) = Decimal.nb_digits d.
Proof. induction d; simpl; auto. Qed.

Lemma digit_count_chars (d : Decimal.uint) :
  digit_count (chars d) = Decimal.nb_digits d.
Proof. rewrite digit_count_digits by apply chars_decimal. apply chars_length. Qed.

(** A run of decimal digits is a decimal numeral. *)
Lemma digits_uint (t : str) :
  forallb isdecimal t = true -> exists d, chars d = t.
Proof.
  induction t as [|c t IH]; [exists Decimal.Nil; reflexivity|].
  simpl. rewrite andb_true_iff. intros [Hc Ht].
  destruct (IH Ht) as [d <-].
  destruct c as [[] [] [] [] [] [] [] []]; try discriminate Hc;
    first [ exists (Decimal.D0 d); reflexivity
          | exists (Decimal.D1 d); reflexivity
          | exists (Decimal.D2 d); reflexivity
          | exists (Decimal.D3 d); reflexivity
          | exists (Decimal.D4 d); reflexivity
          | exists (Decimal.D5 d); reflexivity
          | exists (Decimal.D6 d); reflexivity
          | exists (Decimal.D7 d); reflexivity
          | exists (Decimal.D8 d); reflexivity
          | exists (Decimal.D9 d); reflexivity ].
Qed.

(** The underscores of a numeral do not count. *)
Lemma int_digits_filter (s : str) : forall acc us z,
  int_digits acc us s = Some z ->
  int_digits acc false (filter isdecimal s) = Some z.
Proof.
  induction s as [|c s IH]; intros acc us z; cbn [int_digits filter].
  - destruct us; [discriminate | auto].
  - destruct (Ascii.eqb_spec c "_") as [->|N].
    + destruct us; [discriminate|]. change (isdecimal "_") with false.
      apply IH.
    + destruct (isdecimal c) eqn:Hc; [|discriminate].
      cbn [int_digits]. apply Ascii.eqb_neq in N. rewrite N, Hc. apply IH.
Qed.

Lemma int_digits_some_digit (s : str) (acc z : Z) :
  int_digits acc true s = Some z -> filter isdecimal s <> [].
Proof.
  destruct s as [|c s]; cbn [int_digits filter]; [discriminate|].
  destruct (Ascii.eqb c "_"); [discriminate|].
  destruct (isdecimal c); discriminate.
Qed.

Lemma decimal_N (n : N) : decimal (Z.of_N n) = chars (N.to_uint n).
Proof. destruct n as [|p]; [reflexivity | apply decimal_pos]. Qed.

Lemma digit_count_opp (z : Z) :
  digit_count (decimal (- z)) = digit_count (decimal z).
Proof.
  destruct z as [|p|p]; cbn [Z.opp]; rewrite ?decimal_pos, ?decimal_neg;
    reflexivity.
Qed.

(** The number that [int] reads has no more digits than its numeral. *)
Lemma int_digits_count (body : str) (n : Z) :
  int_digits 0 true body = Some n ->
  (digit_count (decimal n) <= digit_count body)%nat.
Proof.
  intros H. pose proof (int_digits_some_digit _ _ _ H) as Hne.
  apply int_digits_filter in H.
  assert (Ht : forallb isdecimal (filter isdecimal body) = true).
  { apply forallb_forall. intros c Hc. apply filter_In in Hc. tauto. }
  destruct (digits_uint _ Ht) as [d Hd].
  unfold digit_count at 2. rewrite <- Hd in *. clear Ht.
  rewrite int_digits_uint in H by (left; reflexivity).
  injection H as <-.
  rewrite decimal_N, DecimalPos.Unsigned.to_of, digit_count_chars, chars_length.
  apply DecimalFacts.nb_digits_unorm. intros ->. apply Hne. reflexivity.
Qed.

(** So [str] writes every number that [int] has read. *)
Lemma int_value_fits (a : str) (z : Z) :
  int_of_str a = Ok z -> (digit_count (decimal z) <= max_str_digits)%nat.
Proof.
  unfold int_of_str.
  destruct (match int_strip a with
            | [] => (false, int_strip a)
            | c :: r =>
                if Ascii.eqb c "-" then (true, r)
                else if Ascii.eqb c "+" then (false, r)
                else (false, int_strip a)
            end) as [neg body].
  destruct (int_digits 0 true body) as [n|] eqn:E; [|discriminate].
  destruct (Nat.leb_spec (digit_count body) max_str_digits) as [L|L];
    [|discriminate].
  intros [= <-]. pose proof (int_digits_count body n E) as C.
  destruct neg; rewrite ?digit_count_opp; lia.
Qed.

Lemma read_id_returns (dm : Domain) (f : str) :
  int_dot_int f (board dm) (domain dm) -> exists id, get_full_id dm = Ok id.
Proof.
  intros [a [b [_ [Ha Hb]]]]. unfold get_full_id.
  pose proof (str_of_int_cases (board dm)) as B.
  pose proof (str_of_int_cases (domain dm)) as D.
  apply int_value_fits, Nat.leb_le in Ha, Hb. rewrite Ha in B. rewrite Hb in D.
  rewrite B, D. cbn [bind]. eauto.
Qed.

End Identifiers.

(** X6: the text of an integer reads back as that integer
    ([int(str(n)) == n]) whenever [str] gives it, which is when the numeral
    has at most 4300 digits; so a full id that [get_full_id] returns
    passes the test [parse_output] makes of field 0 and gives back the
    board and domain numbers, two domains with the same full id have the
    same numbers, and [get_full_id] raises [ValueError] exactly when the
    numeral of one of the two numbers has more digits. *)
Theorem full_id_round_trip :
  (forall z,
     if (digit_count (decimal z) <=? max_str_digits)%nat
     then str_of_int z = Ok (decimal z) /\ int_of_str (decimal z) = Ok z
     else str_of_int z = Raise ValueError)
  /\ (forall dm id,
        get_full_id dm = Ok id ->
        contains (lit ".") id = true
        /\ unpack2_ints (split_on "."%char id) = Ok (board dm, domain dm))
  /\ (forall dm1 dm2 id,
        get_full_id dm1 = Ok id -> get_full_id dm2 = Ok id ->
        board dm1 = board dm2 /\ domain dm1 = domain dm2)
  /\ (forall dm,
        if ((digit_count (decimal (board dm)) <=? max_str_digits)
            && (digit_count (decimal (domain dm)) <=? max_str_digits))%nat
        then get_full_id dm
             = Ok (decimal (board dm) ++ lit "." ++ decimal (domain dm))
        else get_full_id dm = Raise ValueError).
Proof.
  assert (R : forall dm id,
             get_full_id dm = Ok id ->
             contains (lit ".") id = true
             /\ unpack2_ints (split_on "."%char id)
                = Ok (board dm, domain dm)).
  { intros dm id H. apply domain_id_spec, full_id_reads_back, H. }
  split; [|split; [exact R|split]].
  - intros z. pose proof (str_of_int_cases z) as C.
    destruct (Nat.leb_spec (digit_count (decimal z)) max_str_digits) as [L|L];
      [|exact C].
    split; [exact C | apply int_of_decimal, L].
  - intros dm1 dm2 id H1 H2.
    destruct (R dm1 id H1) as [_ R1]. destruct (R dm2 id H2) as [_ R2].
    rewrite R2 in R1. injection R1 as -> ->. auto.
  - intros dm. unfold get_full_id.
    pose proof (str_of_int_cases (board dm)) as B.
    pose proof (str_of_int_cases (domain dm)) as D.
    destruct (digit_count (decimal (board dm)) <=? max_str_digits)%nat;
      rewrite B; cbn [bind andb]; [|reflexivity].
    destruct (digit_count (decimal (domain dm)) <=? max_str_digits)%nat;
      rewrite D; reflexivity.
Qed.

Lemma full_id_round_trip_witness :
  get_full_id (sample_domain (lit "alice") 12) = Ok (lit "0.12")
  /\ unpack2_ints (split_on "."%char (lit "0.12")) = Ok (0%Z, 12%Z).
Proof.
  assert (H : get_full_id (sample_domain (lit "alice") 12) = Ok (lit "0.12"))
    by (vm_compute; reflexivity).
  split; [exact H|].
  destruct full_id_round_trip as [_ [R _]].
  exact (proj2 (R _ _ H)).
Defined.

(** ** Further properties: the lines of a report *)

Section Lines.

Lemma split_ws_cons (c : ascii) (s : str) :
  split_ws (c :: s)
  = if isspace c then split_ws s
    else match s with
         | [] => [[c]]
         | c' :: _ =>
             if isspace c' then [c] :: split_ws s
             else match split_ws s with
                  | h :: t => (c :: h) :: t
                  | [] => [[c]]
                  end
         end.
Proof. destruct s; reflexivity. Qed.

Lemma split_ws_tokens (s : str) : Forall token (split_ws s).
Proof.
  induction s as [|c s IH]; [constructor|]. rewrite split_ws_cons.
  destruct (isspace c) eqn:Ec; [exact IH|].
  assert (T1 : token [c]).
  { split; [discriminate | simpl; rewrite Ec; reflexivity]. }
  destruct s as [|c' s']; [constructor; [exact T1 | constructor]|].
  destruct (isspace c') eqn:Ec'; [constructor; [exact T1 | exact IH]|].
  destruct (split_ws (c' :: s')) as [|h t];
    [constructor; [exact T1 | constructor]|].
  inversion IH as [|? ? [_ Hh] Ht]; subst.
  constructor; [|exact Ht].
  split; [discriminate | simpl; rewrite Ec, Hh; reflexivity].
Qed.

Lemma field_token (parts : list str) (i : nat) :
  Forall token parts -> (i < length parts)%nat -> token (field parts i).
Proof.
  intros H Hi. rewrite Forall_forall in H. apply H. apply nth_In. exact Hi.
Qed.

Lemma cluster_not_board (line : str) :
  startswith line (lit "Cluster") = true ->
  startswith line (lit "Board") = false.
Proof.
  intros H. apply startswith_app in H as [r ->]. reflexivity.
Qed.

(** The four ways [process_line] can leave the frame, with what was read
    from the line. *)
Lemma process_line_effect (fr fr' : frame) (line0 : str) :
  process_line fr line0 = Ok fr' ->
  (fr' = fr /\ cluster_of_line (strip line0) = None
   /\ board_of_line (strip line0) = None)
  \/ (exists c, cluster_of_line (strip line0) = Some c /\ (0 <= c)%Z
        /\ fr' = mkFrame (self_boards fr) (Some c) (current_board fr)
                         (allocated fr))
  \/ (exists id st,
        cluster_of_line (strip line0) = None
        /\ board_of_line (strip line0) = Some (id, st)
        /\ (0 <= id)%Z /\ st <> [] /\ forallb isword st = true
        /\ fr' = mkFrame (self_boards fr ++ [Board_init id (current_cluster fr) st])
                         (current_cluster fr)
                         (Some (length (self_boards fr))) (allocated fr))
  \/ (exists i x y,
        cluster_of_line (strip line0) = None
        /\ board_of_line (strip line0) = None
        /\ current_board fr = Some i
        /\ accepted fr (strip line0)
        /\ int_dot_int (field (split_ws (strip line0)) 0) x y
        /\ fr' = attach fr i (domain_of_fields (allocated fr)
                                (split_ws (strip line0)) x y)).
Proof.
  intros H. destruct (domain_shaped (strip line0)) eqn:DS.
  - destruct (domain_shaped_branch _ DS) as [HC HB].
    assert (NC : cluster_of_line (strip line0) = None)
      by (unfold cluster_of_line; rewrite HC; reflexivity).
    assert (NB : board_of_line (strip line0) = None)
      by (unfold board_of_line; rewrite HB; reflexivity).
    destruct (process_line_domain_cases fr line0 DS)
      as [[A [i [x [y [CB [I P]]]]]] | [_ P]]; rewrite H in P; injection P as ->.
    + right; right; right. exists i, x, y. auto 7.
    + left; auto.
  - unfold process_line in H. unfold cluster_of_line, board_of_line.
    destruct (strip line0) as [|c l].
    { injection H as <-. left; auto. }
    destruct (startswith (c :: l) (lit "Cluster")) eqn:SC.
    { rewrite (cluster_not_board _ SC). cbn [andb].
      destruct (Re.re_match Patterns.cluster_re (c :: l)) as [m|] eqn:E;
        [|injection H as <-; left; auto].
      apply cluster_re_groups in E as [a [b [-> [Hne [Ha _]]]]].
      cbn [Re.group Nat.sub nth] in *.
      destruct (int_of_str a) as [z|e] eqn:Hz; [|discriminate H].
      pose proof (int_of_digits_nonneg a z Hne Ha Hz) as Pz.
      simpl in H. injection H as <-. right; left. exists z. auto. }
    destruct (startswith (c :: l) (lit "Board") && contains (lit "has") (c :: l)
              && contains (lit "domains") (c :: l)).
    { destruct (Re.re_match Patterns.board_re (c :: l)) as [m|] eqn:E;
        [|injection H as <-; left; auto].
      apply board_re_groups in E as [a [b [-> [Hne [Ha [Hb Wb]]]]]].
      cbn [Re.group Nat.sub nth] in *.
      destruct (int_of_str a) as [z|e] eqn:Hz; [|discriminate H].
      pose proof (int_of_digits_nonneg a z Hne Ha Hz) as Pz.
      simpl in H. injection H as <-. right; right; left. exists z, b. auto 8. }
    rewrite DS in H. injection H as <-. left; auto.
Qed.

End Lines.

Section WellFormed.

Lemma alter_nth_Forall {A} (P : A -> Prop) (f : A -> A) (l : list A) :
  (forall x, P x -> P (f x)) -> forall i,
  Forall P l -> Forall P (alter_nth f i l).
Proof.
  intros Hf. induction l as [|x l IH]; intros [|i] H; simpl; auto;
    inversion H; subst; constructor; auto.
Qed.

Lemma model_domains_attach_in (dm d : Domain) (bs : list Board) : forall i,
  In d (model_domains (alter_nth (fun b => add_domain b dm) i bs)) ->
  d = dm \/ In d (model_domains bs).
Proof.
  unfold model_domains. induction bs as [|b bs IH]; intros [|i]; simpl; auto.
  - rewrite <- app_assoc. intros H.
    apply in_app_or in H as [H|[H|H]]; auto using in_or_app.
  - intros H. apply in_app_or in H as [H|H]; [auto using in_or_app|].
    destruct (IH i H); auto using in_or_app.
Qed.

Lemma domain_of_fields_ok (o : nat) (line : str) (x y : Z) :
  (8 <= length (split_ws line))%nat ->
  domain_ok (domain_of_fields o (split_ws line) x y).
Proof.
  intros L. pose proof (split_ws_tokens line) as T.
  set (parts := split_ws line) in *.
  assert (F : forall i, (i < 8)%nat -> token (field parts i))
    by (intros i Hi; apply field_token; [exact T | lia]).
  unfold domain_ok, domain_of_fields.
  cbn [owner pid design elapsed_time reserved_key t_pod Domain_init].
  split; [reflexivity|].
  repeat (split; [apply F; lia|]).
  split; [|split].
  - destruct (Nat.leb_spec 9 (length parts));
      [apply field_token; [exact T | lia] | split; [discriminate | reflexivity]].
  - destruct (str_eqb (field parts 5) (lit "--")) eqn:E; [discriminate|].
    intros C. rewrite C in E. discriminate.
  - destruct (str_eqb (field parts 5) (lit "--")); [reflexivity|].
    apply (F 5%nat). lia.
Qed.

Lemma process_line_ok (fr fr' : frame) (line0 : str) :
  model_ok fr -> process_line fr line0 = Ok fr' -> model_ok fr'.
Proof.
  intros [CC [BO DO]] H. unfold model_ok.
  destruct (process_line_effect _ _ _ H)
    as [[-> _] | [[c [_ [Pc ->]]] | [[id [st [_ [_ [Pid [Hst [Wst ->]]]]]]]
       | [i [x [y [_ [_ [CB [[_ [L _]] [I ->]]]]]]]]]]];
    cbn [current_cluster self_boards attach].
  - auto.
  - split; [intros c' [= <-]; exact Pc | auto].
  - split; [exact CC|]. split.
    + apply Forall_app. split; [exact BO|]. constructor; [|constructor].
      unfold board_ok, Board_init; cbn. auto.
    + unfold model_domains in *. rewrite flat_map_app. simpl.
      rewrite !app_nil_r. exact DO.
  - split; [exact CC|]. split.
    + apply alter_nth_Forall; [|exact BO]. intros b Hb. exact Hb.
    + apply Forall_forall. intros d Hd.
      apply model_domains_attach_in in Hd as [->|Hd].
      * apply domain_of_fields_ok. exact L.
      * rewrite Forall_forall in DO. apply DO. exact Hd.
Qed.

Lemma run_lines_ok (ls : list str) : forall fr fr',
  model_ok fr -> run_lines fr ls = Ok fr' -> model_ok fr'.
Proof.
  induction ls as [|l ls IH]; intros fr fr' Hok H; simpl in H.
  - injection H as <-. exact Hok.
  - destruct (process_line fr l) as [fr1|e] eqn:E; simpl in H; [|discriminate].
    apply (IH fr1 fr'); [|exact H]. exact (process_line_ok _ _ _ Hok E).
Qed.

End WellFormed.

(** X7: in every model [parse_output] returns, the board ids and the
    cluster ids are not negative and each status is a non-empty run of word
    characters; every [Domain] is as [Domain.__init__] leaves it (free
    exactly when its owner is "NONE"), its owner, pid, design, elapsed
    time and reserved key are non-empty and free of whitespace, and its pod
    is free of whitespace and never "--". *)
Theorem parsed_model_well_formed :
  forall self now output m,
    parse_output self now output = Ok m ->
    Forall board_ok (boards m)
    /\ Forall domain_ok (model_domains (boards m))
    /\ (forall dm, In dm (model_domains (boards m)) ->
          (is_free dm = true <-> owner dm = lit "NONE")).
Proof.
  intros self now output m P.
  destruct (parse_output_ok _ _ _ _ P) as [fr [R [B _]]].
  rewrite B.
  assert (S0 : model_ok loop_start).
  { unfold model_ok, loop_start; simpl.
    split; [discriminate | split; constructor]. }
  destruct (run_lines_ok _ _ _ S0 R) as [_ [BO DO]].
  split; [exact BO|]. split; [exact DO|].
  intros dm Hdm. rewrite Forall_forall in DO.
  destruct (DO dm Hdm) as [C _]. unfold constructed in C.
  rewrite C at 1. cbn [is_free Domain_init]. apply str_eqb_eq.
Qed.

Lemma parsed_model_well_formed_witness :
  parse_output Parser_init now0 minus_report = Ok minus_model
  /\ Forall board_ok (boards minus_model).
Proof.
  assert (P : parse_output Parser_init now0 minus_report = Ok minus_model)
    by (vm_compute; reflexivity).
  split; [exact P|].
  exact (proj1 (parsed_model_well_formed Parser_init now0 minus_report
                  minus_model P)).
Defined.

Section Declared.

Lemma alter_nth_heads (dm : Domain) (bs : list Board) : forall i,
  map board_head (alter_nth (fun b => add_domain b dm) i bs)
  = map board_head bs.
Proof.
  induction bs as [|b bs IH]; intros [|i]; simpl; auto.
  rewrite IH. reflexivity.
Qed.

Lemma run_lines_heads (ls : list str) : forall fr fr',
  run_lines fr ls = Ok fr' ->
  map board_head (self_boards fr')
  = map board_head (self_boards fr) ++ declared_boards (current_cluster fr) ls.
Proof.
  induction ls as [|l ls IH]; intros fr fr' H; simpl in H.
  - injection H as <-. simpl. rewrite app_nil_r. reflexivity.
  - destruct (process_line fr l) as [fr1|e] eqn:E; simpl in H; [|discriminate].
    rewrite (IH _ _ H). cbn [declared_boards].
    destruct (process_line_effect _ _ _ E)
      as [[-> [NC NB]] | [[c [SC [_ ->]]] | [[id [st [NC [SB [_ [_ [_ ->]]]]]]]
         | [i [x [y [NC [NB [_ [_ [_ ->]]]]]]]]]]];
      cbn [current_cluster self_boards attach].
    + rewrite NC, NB. reflexivity.
    + rewrite SC. reflexivity.
    + rewrite NC, SB, map_app, <- app_assoc. reflexivity.
    + rewrite NC, NB, alter_nth_heads. reflexivity.
Qed.

End Declared.

(** X8: the boards of a parsed model are, in order, the boards the lines
    after the header declare: one per line that matches the board pattern,
    with the id and the status read from that line and the number of the
    last cluster line before it (unset when there is none).  Domain lines
    and all other lines change none of this. *)
Theorem boards_are_the_declared_ones :
  forall self now output m,
    parse_output self now output = Ok m ->
    map board_head (boards m) = declared_boards None (body_lines output)
    /\ total_boards (get_resource_summary m)
       = length (declared_boards None (body_lines output)).
Proof.
  intros self now output m P.
  destruct (parse_output_ok _ _ _ _ P) as [fr [R [B _]]].
  pose proof (run_lines_heads _ _ _ R) as H. simpl in H.
  rewrite <- B in H. split; [exact H|].
  cbn [get_resource_summary total_boards]. rewrite <- H, length_map.
  reflexivity.
Qed.

Lemma boards_are_the_declared_ones_witness :
  parse_output Parser_init now0 example_report = Ok example_model
  /\ map board_head (boards example_model) = [(0%Z, Some 0%Z, lit "UP")].
Proof.
  assert (P : parse_output Parser_init now0 example_report = Ok example_model)
    by (vm_compute; reflexivity).
  split; [exact P|].
  rewrite (proj1 (boards_are_the_declared_ones Parser_init now0 example_report
                    example_model P)).
  reflexivity.
Defined.

Section Growth.

Lemma run_lines_app (ls1 ls2 : list str) : forall fr,
  run_lines fr (ls1 ++ ls2)
  = bind (run_lines fr ls1) (fun fr1 => run_lines fr1 ls2).
Proof.
  induction ls1 as [|l ls1 IH]; intros fr; simpl; [reflexivity|].
  destruct (process_line fr l); simpl; [apply IH | reflexivity].
Qed.

Lemma grows_refl (bs : list Board) : grows bs bs.
Proof.
  intros i b H. exists b, []. rewrite app_nil_r. auto.
Qed.

Lemma grows_length (bs1 bs2 : list Board) :
  grows bs1 bs2 -> (length bs1 <= length bs2)%nat.
Proof.
  intros G. destruct (Nat.eq_dec (length bs1) 0) as [Z|NZ]; [lia|].
  destruct (nth_error bs1 (length bs1 - 1)) as [b|] eqn:N.
  - destruct (G _ _ N) as [b' [more [N' _]]].
    assert (length bs1 - 1 < length bs2)%nat
      by (apply nth_error_Some; congruence).
    lia.
  - apply nth_error_None in N. lia.
Qed.

Lemma grows_trans (bs1 bs2 bs3 : list Board) :
  grows bs1 bs2 -> grows bs2 bs3 -> grows bs1 bs3.
Proof.
  intros G12 G23 i b H.
  destruct (G12 i b H) as [b2 [m2 [H2 [E2 [D2 L2]]]]].
  destruct (G23 i b2 H2) as [b3 [m3 [H3 [E3 [D3 L3]]]]].
  exists b3, (m2 ++ m3). split; [exact H3|]. split; [congruence|]. split.
  - rewrite D3, D2, app_assoc. reflexivity.
  - intros Hi. pose proof (grows_length _ _ G12).
    rewrite (L2 Hi), (L3 ltac:(lia)). reflexivity.
Qed.

Lemma process_line_grows (fr fr' : frame) (line0 : str) :
  current_is_last fr -> process_line fr line0 = Ok fr' ->
  current_is_last fr' /\ grows (self_boards fr) (self_boards fr').
Proof.
  intros CL H. unfold current_is_last in *.
  destruct (process_line_effect _ _ _ H)
    as [[-> _] | [[c [_ [_ ->]]] | [[id [st [_ [_ [_ [_ [_ ->]]]]]]]
       | [i [x [y [_ [_ [CB [_ [_ ->]]]]]]]]]]];
    cbn [current_board self_boards attach].
  - split; [exact CL | apply grows_refl].
  - split; [exact CL | apply grows_refl].
  - split.
    + destruct (self_boards fr); simpl; [reflexivity|].
      rewrite length_app; simpl. f_equal. lia.
    + intros j b Hj. exists b, []. rewrite app_nil_r.
      split; [|auto]. rewrite nth_error_app1; [exact Hj|].
      apply nth_error_Some. congruence.
  - assert (Hi : self_boards fr <> []
                 /\ i = (length (self_boards fr) - 1)%nat).
    { rewrite CB in CL. destruct (self_boards fr);
        [discriminate | split; [discriminate | congruence]]. }
    destruct Hi as [Hne ->].
    set (dm := domain_of_fields (allocated fr) (split_ws (strip line0)) x y).
    pose proof (alter_nth_length (fun b => add_domain b dm) (self_boards fr)
                  (length (self_boards fr) - 1)) as L.
    split.
    + rewrite CB.
      destruct (alter_nth (fun b => add_domain b dm)
                  (length (self_boards fr) - 1) (self_boards fr)) as [|b1 l1].
      * destruct (self_boards fr); [congruence | discriminate].
      * rewrite L. reflexivity.
    + intros j b Hj.
      destruct (Nat.eq_dec (length (self_boards fr) - 1) j) as [<-|Nj].
      * exists (add_domain b dm), [dm].
        split; [apply (alter_nth_lookup
                         (fun b' => add_domain b' dm) _ _ _ Hj)|].
        split; [reflexivity|]. split; [reflexivity|]. intros C. lia.
      * exists b, []. rewrite app_nil_r, alter_nth_other by exact Nj. auto.
Qed.

Lemma run_lines_grows (ls : list str) : forall fr fr',
  current_is_last fr -> run_lines fr ls = Ok fr' ->
  current_is_last fr' /\ grows (self_boards fr) (self_boards fr').
Proof.
  induction ls as [|l ls IH]; intros fr fr' CL H; simpl in H.
  - injection H as <-. split; [exact CL | apply grows_refl].
  - destruct (process_line fr l) as [fr1|e] eqn:E; simpl in H; [|discriminate].
    destruct (process_line_grows _ _ _ CL E) as [CL1 G1].
    destruct (IH _ _ CL1 H) as [CL' G'].
    split; [exact CL' | exact (grows_trans _ _ _ G1 G')].
Qed.

End Growth.

(** X9: reading more lines never removes or renames a board and never
    removes a domain: the boards built from the first lines are still there,
    with the same id, cluster and status, after any further lines; their
    lists of domains can only grow at the end, and only the last board can
    still grow. *)
Theorem reading_on_only_grows_last_board :
  forall ls1 ls2 fr1 fr2,
    run_lines loop_start ls1 = Ok fr1 ->
    run_lines loop_start (ls1 ++ ls2) = Ok fr2 ->
    forall i b,
      nth_error (self_boards fr1) i = Some b ->
      exists b' more,
        nth_error (self_boards fr2) i = Some b'
        /\ board_head b' = board_head b
        /\ domains b' = domains b ++ more
        /\ ((S i < length (self_boards fr1))%nat -> more = []).
Proof.
  intros ls1 ls2 fr1 fr2 R1 R2.
  rewrite run_lines_app, R1 in R2. cbn [bind] in R2.
  destruct (run_lines_grows ls1 loop_start fr1 eq_refl R1) as [CL _].
  destruct (run_lines_grows ls2 fr1 fr2 CL R2) as [_ G]. exact G.
Qed.

Lemma reading_on_only_grows_last_board_witness :
  exists fr1 fr2 b' more,
    run_lines loop_start [lit "Board 0 has 2 domains Board: UP"] = Ok fr1
    /\ run_lines loop_start
         ([lit "Board 0 has 2 domains Board: UP"] ++ [alice_line]) = Ok fr2
    /\ nth_error (self_boards fr2) 0 = Some b'
    /\ domains b' = [] ++ more.
Proof.
  pose (fr1 := mkFrame [Board_init 0 None (lit "UP")] None (Some 0%nat) 0).
  pose (fr2 := attach fr1 0
                 (domain_of_fields 0 (split_ws (strip alice_line)) 0 1)).
  assert (R1 : run_lines loop_start [lit "Board 0 has 2 domains Board: UP"]
               = Ok fr1) by reflexivity.
  assert (R2 : run_lines loop_start
                 ([lit "Board 0 has 2 domains Board: UP"] ++ [alice_line])
               = Ok fr2) by reflexivity.
  destruct (reading_on_only_grows_last_board _ _ _ _ R1 R2 0%nat
              (Board_init 0 None (lit "UP")) eq_refl)
    as [b' [more [N [_ [D _]]]]].
  exists fr1, fr2, b', more. auto.
Defined.

Section Ignored.

Lemma ignored_inert (line0 : str) :
  ignored (strip line0) -> forall fr, process_line fr line0 = Ok fr.
Proof.
  intros [H|[[SC RM]|[[SC [BC RM]]|[[SC [BC DS]]|[DS H]]]]] fr.
  - unfold process_line. rewrite H. reflexivity.
  - unfold process_line. destruct (strip line0); [reflexivity|].
    rewrite SC, RM. reflexivity.
  - unfold process_line. destruct (strip line0); [reflexivity|].
    rewrite SC, BC, RM. reflexivity.
  - unfold process_line. destruct (strip line0); [reflexivity|].
    rewrite SC, BC, DS. reflexivity.
  - destruct (process_line_domain_cases fr line0 DS)
      as [[[CH [L [_ [x [y I]]]]] _] | [_ P]]; [exfalso | exact P].
    destruct H as [H|[H|H]]; [congruence | lia | exact (H x y I)].
Qed.

End Ignored.

(** X10: a line that [parse_output] passes over (blank, a malformed cluster
    or board line, a column-header row, a domain line with fewer than 8
    fields or with an id that does not read as [<int>.<int>], or a line of
    no known shape) has no effect on the lines around it: the loop gives
    the same result with the line as without it. *)
Theorem ignored_line_changes_nothing :
  forall line,
    ignored (strip line) ->
    forall fr before after,
      run_lines fr (before ++ line :: after) = run_lines fr (before ++ after).
Proof.
  intros line H fr before after. rewrite !run_lines_app.
  destruct (run_lines fr before) as [fr1|e]; [|reflexivity].
  cbn [bind run_lines]. rewrite (ignored_inert line H fr1). reflexivity.
Qed.

Lemma ignored_line_changes_nothing_witness :
  ignored (strip (lit "0.5 bob 77"))
  /\ run_lines loop_start
       ([lit "Board 0 has 2 domains Board: UP"] ++ lit "0.5 bob 77" :: [alice_line])
     = run_lines loop_start
         ([lit "Board 0 has 2 domains Board: UP"] ++ [alice_line]).
Proof.
  assert (H : ignored (strip (lit "0.5 bob 77"))).
  { right; right; right; right. split; [reflexivity|].
    right; left. vm_compute. lia. }
  split; [exact H|].
  apply (ignored_line_changes_nothing (lit "0.5 bob 77") H).
Defined.

(** ** Further properties: well-formed cluster and board lines *)

(** X11: a cluster line of the documented shape, "Cluster N has M boards",
    whitespace, "CCD: " and a word, sets the current cluster to N and
    changes nothing else, no board and no domain is made by it, when N has
    at most 4300 digits; when N has more, the turn raises [ValueError]. *)
Theorem cluster_line_sets_current_cluster :
  forall fr line0 n k ws tok rest,
    strip line0
    = lit "Cluster " ++ n ++ lit " has " ++ k ++ lit " boards" ++ ws
      ++ lit "CCD: " ++ tok ++ rest ->
    run_of isdecimal n -> run_of isdecimal k -> run_of isspace ws ->
    run_of isword tok -> stops isword rest ->
    if (length n <=? max_str_digits)%nat
    then exists c,
           int_of_str n = Ok c /\ (0 <= c)%Z
           /\ process_line fr line0
              = Ok (mkFrame (self_boards fr) (Some c) (current_board fr)
                            (allocated fr))
    else process_line fr line0 = Raise ValueError.
Proof.
  intros fr line0 n k ws tok rest E Hn Hk Hws Htok Hrest.
  pose proof (cluster_line_turn fr line0 n k ws tok rest E Hn Hk Hws Htok Hrest)
    as P.
  rewrite P. destruct (Nat.leb_spec (length n) max_str_digits) as [L|L].
  - destruct (int_of_digits n (proj1 Hn) (proj2 Hn) L) as [c [Hc Pc]].
    exists c. rewrite Hc. auto.
  - rewrite (int_of_long_digits n (proj2 Hn) L). reflexivity.
Qed.

Lemma cluster_line_sets_current_cluster_witness :
  exists c,
    int_of_str (lit "12") = Ok c
    /\ process_line one_board_frame (lit "  Cluster 12 has 3 boards   CCD: ok ")
       = Ok (mkFrame (self_boards one_board_frame) (Some c)
                     (current_board one_board_frame)
                     (allocated one_board_frame)).
Proof.
  pose proof (cluster_line_sets_current_cluster one_board_frame
                (lit "  Cluster 12 has 3 boards   CCD: ok ")
                (lit "12") (lit "3") (lit "   ") (lit "ok") []) as H.
  change (length (lit "12") <=? max_str_digits)%nat with true in H.
  destruct H as [c [Hc [_ P]]];
    try (split; [discriminate | reflexivity]); try reflexivity.
  exists c. split; [exact Hc | exact P].
Defined.

(** X12: a board line of the documented shape, "Board N has M domains",
    whitespace, "Board: " and a word, appends one board with id N, the
    current cluster and that word as status, without domains, and makes it
    the current board; the boards already there are left as they are.
    That is when N has at most 4300 digits; when N has more, the turn
    raises [ValueError] and no board is appended. *)
Theorem board_line_appends_board :
  forall fr line0 ws1 n ws2 k ws3 tok rest,
    strip line0
    = lit "Board" ++ ws1 ++ n ++ lit " has" ++ ws2 ++ k ++ lit " domains"
      ++ ws3 ++ lit "Board: " ++ tok ++ rest ->
    run_of isspace ws1 -> run_of isdecimal n -> run_of isspace ws2 ->
    run_of isdecimal k -> run_of isspace ws3 ->
    run_of isword tok -> stops isword rest ->
    if (length n <=? max_str_digits)%nat
    then exists id,
           int_of_str n = Ok id /\ (0 <= id)%Z
           /\ process_line fr line0
              = Ok (mkFrame
                      (self_boards fr ++ [mkBoard id (current_cluster fr) tok []])
                      (current_cluster fr) (Some (length (self_boards fr)))
                      (allocated fr))
    else process_line fr line0 = Raise ValueError.
Proof.
  intros fr line0 ws1 n ws2 k ws3 tok rest E H1 Hn H2 Hk H3 Htok Hrest.
  pose proof (board_re_matches ws1 n ws2 k ws3 tok rest H1 Hn H2 Hk H3 Htok
                Hrest) as M.
  assert (P : process_line fr line0
              = bind (int_of_str n) (fun id =>
                Ok (mkFrame
                      (self_boards fr ++ [mkBoard id (current_cluster fr) tok []])
                      (current_cluster fr) (Some (length (self_boards fr)))
                      (allocated fr)))).
  { unfold process_line. rewrite E.
    set (line := lit "Board" ++ ws1 ++ n ++ lit " has" ++ ws2 ++ k
                 ++ lit " domains" ++ ws3 ++ lit "Board: " ++ tok ++ rest) in *.
    assert (Hsc : startswith line (lit "Cluster") = false) by reflexivity.
    assert (Hsw : startswith line (lit "Board") = true)
      by (apply startswith_app; subst line; eauto).
    assert (Hhas : contains (lit "has") line = true).
    { subst line. do 3 apply contains_app_r.
      apply (contains_app_r _ [" "%char]). exact (contains_here (lit "has") _). }
    assert (Hdom : contains (lit "domains") line = true).
    { subst line. do 6 apply contains_app_r.
      apply (contains_app_r _ [" "%char]).
      exact (contains_here (lit "domains") _). }
    clearbody line. destruct line as [|c l]; [discriminate Hsw|].
    rewrite Hsc, Hsw, Hhas, Hdom, M. reflexivity. }
  rewrite P. destruct (Nat.leb_spec (length n) max_str_digits) as [L|L].
  - destruct (int_of_digits n (proj1 Hn) (proj2 Hn) L) as [id [Hid Pid]].
    exists id. rewrite Hid. auto.
  - rewrite (int_of_long_digits n (proj2 Hn) L). reflexivity.
Qed.

Lemma board_line_appends_board_witness :
  exists id,
    int_of_str (lit "7") = Ok id
    /\ process_line one_board_frame (lit "Board   7 has  4 domains  Board: UP x")
       = Ok (mkFrame
               (self_boards one_board_frame
                ++ [mkBoard id (current_cluster one_board_frame) (lit "UP") []])
               (current_cluster one_board_frame)
               (Some (length (self_boards one_board_frame)))
               (allocated one_board_frame)).
Proof.
  pose proof (board_line_appends_board one_board_frame
                (lit "Board   7 has  4 domains  Board: UP x")
                (lit "   ") (lit "7") (lit "  ") (lit "4") (lit "  ") (lit "UP")
                (lit " x")) as H.
  change (length (lit "7") <=? max_str_digits)%nat with true in H.
  destruct H as [id [Hid [_ P]]];
    try (split; [discriminate | reflexivity]); try reflexivity.
  exists id. split; [exact Hid | exact P].
Defined.

(** ** Further properties: the tokens of the header *)

Section HeaderTokens.
Import Re.

Lemma word_nonspace (x : ascii) : isword x = true -> isspace x = false.
Proof.
  destruct x as [[] [] [] [] [] [] [] []]; intros H;
    try reflexivity; discriminate H.
Qed.

(** The pattern [label\s*(c+)] finds the run of [c] that follows the first
    occurrence of the label. *)
Lemma token_after_label (label : str) (c : ascii -> bool)
    (header ws tok rest : str) :
  (forall x, c x = true -> isspace x = false) ->
  find_after label header = Some (ws ++ tok ++ rest) ->
  forallb isspace ws = true -> run_of c tok -> stops c rest ->
  re_search (RSeq (RLit label) (RSeq (RStar s) (RGroup (RPlus c)))) header
  = Some [tok].
Proof.
  intros Hc F Hws Htok Hrest.
  apply (re_search_first _ _ _ _ _ F). cbn [rmatch].
  apply (star_greedy_stop s
           (fun s' => rmatch (RGroup (RPlus c)) accept s' [])).
  - exact Hws.
  - apply group_takes_run; [exact Htok | exact Hrest | reflexivity].
  - destruct Htok as [Hne Ht]. destruct tok as [|x tok]; [congruence|].
    simpl in *. apply andb_true_iff in Ht as [Hx _]. apply Hc. exact Hx.
Qed.

Lemma re_search_inv (r : regex) (text : str) (m : groups) :
  re_search r text = Some m ->
  exists pre post, text = pre ++ post /\ re_match r post = Some m.
Proof.
  induction text as [|x text IH]; cbn [re_search].
  - destruct (re_match r []) eqn:E; [|discriminate].
    intros [= <-]. exists [], []. auto.
  - destruct (re_match r (x :: text)) eqn:E.
    + intros [= <-]. exists [], (x :: text). auto.
    + intros H. destruct (IH H) as [pre [post [-> M]]].
      exists (x :: pre), post. auto.
Qed.

(** A match of [label\s*(c+)]: its group is a run of [c]. *)
Lemma token_found (label : str) (c : ascii -> bool) (header : str)
    (m : groups) :
  re_search (RSeq (RLit label) (RSeq (RStar s) (RGroup (RPlus c)))) header
  = Some m ->
  exists tok, m = [tok] /\ run_of c tok /\ contains label header = true.
Proof.
  intros H. apply re_search_inv in H as [pre [post [-> M]]].
  unfold re_match in M.
  apply seq_lit_inv in M as [s1 [-> M]].
  cbn [rmatch] in M. apply star_greedy_inv in M as [w [s2 [-> [_ M]]]].
  apply group_plus_inv in M as [tok [s3 [Hne [Ht [-> M]]]]].
  injection M as <-. exists tok. split; [reflexivity|].
  split; [split; assumption|].
  apply contains_app_r, contains_here.
Qed.

Lemma star_lazy_inv (c : ascii -> bool) (k : str -> option groups) (s : str)
    res :
  star_lazy c k s = Some res ->
  exists a s', s = a ++ s' /\ forallb c a = true /\ k s' = Some res.
Proof.
  induction s as [|x s IH]; cbn [star_lazy].
  - destruct (k []) eqn:E; [|discriminate].
    intros [= <-]. exists [], []. auto.
  - destruct (k (x :: s)) eqn:E.
    + intros [= <-]. exists [], (x :: s). auto.
    + destruct (c x) eqn:Hx; [|discriminate]. intros H.
      destruct (IH H) as [a [s' [-> [Ha Hk]]]].
      exists (x :: a), s'. simpl. rewrite Hx, Ha. auto.
Qed.

(** A match of the hardware pattern: its group is a run of word characters
    and whitespace. *)
Lemma hardware_found (header : str) (m : groups) :
  re_search Patterns.hardware_re header = Some m ->
  exists g, m = [g] /\ run_of w_or_s g
            /\ contains (lit "Hardware:") header = true.
Proof.
  intros H. apply re_search_inv in H as [pre [post [-> M]]].
  unfold re_match, Patterns.hardware_re in M. cbn [seq] in M.
  apply seq_lit_inv in M as [s1 [-> M]].
  cbn [rmatch] in M. apply star_greedy_inv in M as [w0 [s2 [-> [_ M]]]].
  destruct s2 as [|x s2]; [discriminate|].
  destruct (w_or_s x) eqn:Hx; [|discriminate].
  apply star_lazy_inv in M as [a [s3 [-> [Ha M]]]].
  change (x :: a ++ s3) with ((x :: a) ++ s3) in M.
  rewrite firstn_consumed in M.
  assert (Hm : m = [x :: a]).
  { destruct (strip_prefix (lit "Configmgr:") s3);
      [|destruct (at_end s3); [|discriminate M]];
      unfold accept in M; injection M as <-; reflexivity. }
  exists (x :: a). split; [exact Hm|].
  split; [split; [discriminate | simpl; rewrite Hx, Ha; reflexivity]|].
  apply contains_app_r, contains_here.
Qed.

Lemma lstrip_idem (s : str) : lstrip (lstrip s) = lstrip s.
Proof.
  destruct (lstrip s) as [|c r] eqn:E; [reflexivity|].
  apply lstrip_nonspace. exact (lstrip_head _ _ _ E).
Qed.

(** A stripped text has no whitespace left to strip. *)
Lemma strip_idem (s : str) : strip (strip s) = strip s.
Proof.
  unfold strip, rstrip.
  set (t := lstrip s).
  assert (L : lstrip (rev (lstrip (rev t))) = rev (lstrip (rev t))).
  { destruct (lstrip_split (rev t)) as [w [Hs Hw]].
    destruct (rev (lstrip (rev t))) as [|c r] eqn:E; [reflexivity|].
    apply lstrip_nonspace.
    assert (Ht : t = (c :: r) ++ rev w).
    { rewrite <- E, <- rev_app_distr, <- Hs, rev_involutive. reflexivity. }
    subst t. destruct (lstrip s) as [|c' r'] eqn:E'; [discriminate Ht|].
    injection Ht as -> _. exact (lstrip_head _ _ _ E'). }
  rewrite L, rev_involutive, lstrip_idem. reflexivity.
Qed.

End HeaderTokens.

(** X13: the emulator name is the run of characters other than whitespace
    that follows the first "Emulator:" and any whitespace after it; the
    config-manager name is read in the same way after "Configmgr:", and the
    system status is the run of word characters after "System Status:". *)
Theorem header_tokens_follow_labels :
  forall self header ws tok rest,
    forallb isspace ws = true ->
    (find_after (lit "Emulator:") header = Some (ws ++ tok ++ rest) ->
     run_of Re.S tok -> stops Re.S rest ->
     emulator_name (_parse_header self header) = Some tok)
    /\ (find_after (lit "Configmgr:") header = Some (ws ++ tok ++ rest) ->
        run_of Re.S tok -> stops Re.S rest ->
        configmgr (_parse_header self header) = Some tok)
    /\ (find_after (lit "System Status:") header = Some (ws ++ tok ++ rest) ->
        run_of isword tok -> stops isword rest ->
        system_status (_parse_header self header) = Some tok).
Proof.
  intros self header ws tok rest Hws.
  assert (NS : forall x, Re.S x = true -> isspace x = false).
  { intros x H. unfold Re.S in H. apply negb_true_iff in H. exact H. }
  split; [|split]; intros F Htok Hrest.
  - cbn [_parse_header emulator_name].
    unfold Patterns.emulator_re; cbn [Re.seq].
    rewrite (token_after_label _ Re.S header ws tok rest NS F Hws Htok Hrest).
    reflexivity.
  - cbn [_parse_header configmgr].
    unfold Patterns.configmgr_re; cbn [Re.seq].
    rewrite (token_after_label _ Re.S header ws tok rest NS F Hws Htok Hrest).
    reflexivity.
  - cbn [_parse_header system_status].
    unfold Patterns.status_re; cbn [Re.seq].
    rewrite (token_after_label _ Re.w header ws tok rest word_nonspace F Hws
               Htok Hrest).
    reflexivity.
Qed.

Lemma header_tokens_follow_labels_witness :
  emulator_name (_parse_header Parser_init example_header) = Some (lit "EMU1")
  /\ system_status (_parse_header Parser_init example_header) = Some (lit "OK").
Proof.
  split.
  - destruct (header_tokens_follow_labels Parser_init example_header
                (lit " ") (lit "EMU1")
                (lit " Hardware: Box3000 Configmgr: CM7 System Status: OK")
                eq_refl) as [H _].
    apply H; [reflexivity | split; [discriminate | reflexivity] | reflexivity].
  - destruct (header_tokens_follow_labels Parser_init example_header
                (lit " ") (lit "OK") [] eq_refl) as [_ [_ H]].
    apply H; [reflexivity | split; [discriminate | reflexivity] | exact I].
Defined.

(** X14: an emulator name, a config-manager name and a system status that
    [_parse_header] sets are never empty: the two names are non-empty and
    free of whitespace, the status is a non-empty run of word characters.
    A hardware descriptor that is set is made of word characters and
    whitespace, with no whitespace at either end, and it can be empty: the
    line "Emulator: EMU1 Hardware: Configmgr: CM7" sets it to the empty
    string.  The label of a set field occurs in the header line. *)
Theorem set_header_fields_are_tokens :
  forall self header tok,
    (emulator_name (_parse_header self header) = Some tok ->
     run_of Re.S tok /\ contains (lit "Emulator:") header = true)
    /\ (configmgr (_parse_header self header) = Some tok ->
        run_of Re.S tok /\ contains (lit "Configmgr:") header = true)
    /\ (system_status (_parse_header self header) = Some tok ->
        run_of isword tok /\ contains (lit "System Status:") header = true)
    /\ (hardware (_parse_header self header) = Some tok ->
        forallb Re.w_or_s tok = true /\ strip tok = tok
        /\ contains (lit "Hardware:") header = true)
    /\ hardware (_parse_header self (lit "Emulator: EMU1 Hardware: Configmgr: CM7"))
       = Some [].
Proof.
  intros self header tok.
  split; [|split; [|split; [|split]]]; try intros H.
  - cbn [_parse_header emulator_name] in H.
    unfold Patterns.emulator_re in H; cbn [Re.seq] in H.
    destruct (Re.re_search _ header) as [m|] eqn:E; [|discriminate].
    apply token_found in E as [t [-> [R C]]].
    cbn [Re.group Nat.sub nth] in H. injection H as <-. auto.
  - cbn [_parse_header configmgr] in H.
    unfold Patterns.configmgr_re in H; cbn [Re.seq] in H.
    destruct (Re.re_search _ header) as [m|] eqn:E; [|discriminate].
    apply token_found in E as [t [-> [R C]]].
    cbn [Re.group Nat.sub nth] in H. injection H as <-. auto.
  - cbn [_parse_header system_status] in H.
    unfold Patterns.status_re in H; cbn [Re.seq] in H.
    destruct (Re.re_search _ header) as [m|] eqn:E; [|discriminate].
    apply token_found in E as [t [-> [R C]]].
    cbn [Re.group Nat.sub nth] in H. injection H as <-. auto.
  - cbn [_parse_header hardware] in H.
    destruct (Re.re_search Patterns.hardware_re header) as [m|] eqn:E;
      [|discriminate].
    apply hardware_found in E as [g [-> [[_ R] C]]].
    cbn [Re.group Nat.sub nth] in H. injection H as <-.
    split; [|split; [apply strip_idem | exact C]].
    rewrite forallb_forall in *. intros c Hc. apply R, strip_In, Hc.
  - vm_compute. reflexivity.
Qed.

Lemma set_header_fields_are_tokens_witness :
  run_of Re.S (lit "EMU1") /\ contains (lit "Emulator:") example_header = true.
Proof.
  destruct (set_header_fields_are_tokens Parser_init example_header (lit "EMU1"))
    as [H _].
  apply H. reflexivity.
Defined.

(** ** Further properties: the state of the parser *)

Section ParserState.

Lemma parse_output_frame (self m : EmulatorResourceParser) (now output : str) :
  parse_output self now output = Ok m ->
  raw_output m = raw_output self
  /\ timestamp m = Some (match timestamp self with
                         | Some t => t
                         | None => now
                         end).
Proof.
  intros P. pose proof (parse_output_run self now output) as R.
  destruct (run_lines loop_start (body_lines output)); [|congruence].
  destruct R as [m' [P' [_ [_ [_ [_ [_ [RO TS]]]]]]]].
  rewrite P in P'. injection P' as <-. auto.
Qed.

(** The loop stops where it returns, when it returns. *)
Lemma run_lines_reach_ok (ls : list str) : forall fr fr',
  run_lines fr ls = Ok fr' -> run_lines_reach fr ls = fr'.
Proof.
  induction ls as [|l ls IH]; intros fr fr'; cbn [run_lines run_lines_reach].
  - intros [= <-]. reflexivity.
  - destruct (process_line fr l); cbn [bind]; [apply IH | discriminate].
Qed.

(** A call that returns leaves the model that the theorems describe. *)
Lemma parse_output_leaves_ok (self m : EmulatorResourceParser)
    (now output : str) :
  parse_output self now output = Ok m -> parse_output_leaves self now output = m.
Proof.
  unfold parse_output, parse_output_leaves.
  destruct (run_lines _ (tl (split_on nl (strip output)))) as [fr|e] eqn:R;
    cbn [bind]; [|discriminate].
  rewrite (run_lines_reach_ok _ _ _ R). intros [= <-]. reflexivity.
Qed.

(** What a call leaves behind in any case. *)
Lemma parse_output_leaves_fields (self : EmulatorResourceParser)
    (now output : str) :
  let m := parse_output_leaves self now output in
  boards m = self_boards (run_lines_reach loop_start (body_lines output))
  /\ emulator_name m = emulator_name (_parse_header Parser_init (header_line output))
  /\ hardware m = hardware (_parse_header Parser_init (header_line output))
  /\ configmgr m = configmgr (_parse_header Parser_init (header_line output))
  /\ system_status m = system_status (_parse_header Parser_init (header_line output))
  /\ raw_output m = raw_output self
  /\ timestamp m = Some (match timestamp self with
                         | Some t => t
                         | None => now
                         end).
Proof.
  unfold parse_output_leaves, header_line, body_lines.
  destruct (split_on_cons nl (strip output)) as [h [t E]].
  rewrite E. cbn [boards _parse_header tl hd emulator_name hardware configmgr
                  system_status raw_output timestamp].
  repeat split. destruct (timestamp self); reflexivity.
Qed.

Lemma get_board_first (bs : list Board) (id : Z) :
  (find (fun b => Z.eqb (board_id b) id) bs = None
   <-> forall b, In b bs -> board_id b <> id)
  /\ forall b, find (fun b => Z.eqb (board_id b) id) bs = Some b ->
       exists before after,
         bs = before ++ b :: after /\ board_id b = id
         /\ forall b', In b' before -> board_id b' <> id.
Proof.
  induction bs as [|x bs [IH1 IH2]]; cbn [find].
  - split; [split; [intros _ b [] | reflexivity] | discriminate].
  - destruct (Z.eqb_spec (board_id x) id) as [E|N]; split.
    + split; [discriminate |]. intros H. exfalso. apply (H x); [left|]; auto.
    + intros b [= <-]. exists [], bs. repeat split; auto.
    + rewrite IH1. split.
      * intros H b [<-|Hb]; auto.
      * intros H b Hb. apply H. right; exact Hb.
    + intros b Hb. destruct (IH2 b Hb) as [before [after [-> [Eb Hbefore]]]].
      exists (x :: before), after. repeat split; auto.
      intros b' [<-|Hb']; auto.
Qed.

Lemma declared_none (ls : list str) : forall cur,
  (forall l, In l ls -> board_of_line (strip l) = None) ->
  declared_boards cur ls = [].
Proof.
  induction ls as [|l ls IH]; intros cur H; cbn [declared_boards];
    [reflexivity|].
  rewrite (H l (or_introl eq_refl)).
  destruct (cluster_of_line (strip l)); apply IH;
    intros l' Hl'; apply H; right; exact Hl'.
Qed.

End ParserState.

(** X15: [parse_output] leaves [raw_output] alone and sets the timestamp
    only when it is unset, so a second parse keeps the timestamp of the
    first; the boards and the four header fields come from the text alone:
    whatever the parser held before is replaced, a header field that the
    new first line does not give being unset again. *)
Theorem parse_output_state_effects :
  forall self now output m,
    parse_output self now output = Ok m ->
    raw_output m = raw_output self
    /\ timestamp m = Some (match timestamp self with
                           | Some t => t
                           | None => now
                           end)
    /\ (forall now2 output2 m2,
          parse_output m now2 output2 = Ok m2 -> timestamp m2 = timestamp m)
    /\ (forall self' now', exists m',
          parse_output self' now' output = Ok m'
          /\ boards m' = boards m
          /\ emulator_name m' = emulator_name m
          /\ hardware m' = hardware m
          /\ configmgr m' = configmgr m
          /\ system_status m' = system_status m).
Proof.
  intros self now output m P.
  destruct (parse_output_ok _ _ _ _ P) as [fr [R [B [E1 [E2 [E3 E4]]]]]].
  destruct (parse_output_frame _ _ _ _ P) as [RO TS].
  repeat (split; [assumption|]). split.
  - intros now2 output2 m2 P2.
    destruct (parse_output_frame _ _ _ _ P2) as [_ TS2].
    rewrite TS2, TS. reflexivity.
  - intros self' now'.
    pose proof (parse_output_run self' now' output) as R'.
    rewrite R in R'.
    destruct R' as [m' [P' [B' [E1' [E2' [E3' [E4' _]]]]]]].
    exists m'. split; [exact P'|]. repeat split; congruence.
Qed.

Lemma parse_output_state_effects_witness :
  parse_output Parser_init now0 example_report = Ok example_model
  /\ timestamp example_model = Some now0.
Proof.
  assert (P : parse_output Parser_init now0 example_report = Ok example_model)
    by (vm_compute; reflexivity).
  split; [exact P|].
  destruct (parse_output_state_effects Parser_init now0 example_report
              example_model P) as [_ [T _]].
  exact T.
Defined.

(** X16: [get_board] returns the first board with the id asked for, also
    when several boards have it, and returns nothing exactly when no board
    has it. *)
Theorem get_board_returns_first :
  forall self id,
    (get_board self id = None
     <-> forall b, In b (boards self) -> board_id b <> id)
    /\ forall b, get_board self id = Some b ->
         exists before after,
           boards self = before ++ b :: after /\ board_id b = id
           /\ forall b', In b' before -> board_id b' <> id.
Proof. intros self id. apply get_board_first. Qed.

(** X17: without a line that matches the board pattern nothing is
    recorded: the model has no boards, so every domain line of the text is
    dropped and the summary counts no domain. *)
Theorem no_board_line_no_domains :
  forall self now output m,
    (forall l, In l (body_lines output) -> board_of_line (strip l) = None) ->
    parse_output self now output = Ok m ->
    boards m = []
    /\ total_domains (get_resource_summary m) = 0%nat
    /\ get_free_domains m None = [] /\ get_used_domains m None = [].
Proof.
  intros self now output m H P.
  destruct (parse_output_ok _ _ _ _ P) as [fr [R [B _]]].
  pose proof (run_lines_heads _ _ _ R) as Hh. simpl in Hh.
  rewrite (declared_none _ None H) in Hh.
  assert (E : boards m = []).
  { rewrite B. destruct (self_boards fr); [reflexivity | discriminate]. }
  split; [exact E|].
  unfold get_resource_summary, get_free_domains, get_used_domains.
  rewrite E. repeat split.
Qed.

Lemma no_board_line_no_domains_witness :
  exists m, parse_output Parser_init now0 orphan_report = Ok m /\ boards m = [].
Proof.
  destruct (parse_output Parser_init now0 orphan_report) as [m|e] eqn:P;
    [|vm_compute in P; discriminate P].
  exists m. split; [reflexivity|].
  refine (proj1 (no_board_line_no_domains Parser_init now0 orphan_report m _ P)).
  intros l H. repeat (destruct H as [<-|H]; [reflexivity|]). destruct H.
Defined.

(** ** Further properties: lines that start with "Domain" *)

Section DomainWord.

Lemma split_ws_first (c : ascii) (s : str) :
  isspace c = false -> exists h, field (split_ws (c :: s)) 0 = c :: h.
Proof.
  intros Hc. rewrite split_ws_cons, Hc. unfold field.
  destruct s as [|c' s']; [exists []; reflexivity|].
  destruct (isspace c'); [exists []; reflexivity|].
  destruct (split_ws (c' :: s')) as [|h t]; [exists [] | exists h]; reflexivity.
Qed.

Lemma not_int_dot_int (c : ascii) (h : str) :
  ~ int_char c -> c <> "."%char -> forall x y, ~ int_dot_int (c :: h) x y.
Proof.
  intros Hc Hdot x y [a [b [E [Ha _]]]].
  destruct a as [|c0 a]; simpl in E; injection E as E1 E2.
  - exact (Hdot E1).
  - subst c0. apply Hc. apply (int_of_str_chars _ _ Ha). left; reflexivity.
Qed.

End DomainWord.

(** X18: a line that starts with the word "Domain" never gives a [Domain]:
    its first field starts with a letter, so it does not read as
    [<int>.<int>] and the line is passed over, whatever follows the word
    and whatever the frame. *)
Theorem domain_word_line_is_skipped :
  forall line0,
    startswith (strip line0) (lit "Domain") = true ->
    ignored (strip line0) /\ forall fr, process_line fr line0 = Ok fr.
Proof.
  intros line0 H.
  assert (I : ignored (strip line0)).
  { right; right; right; right. split.
    - unfold domain_shaped. rewrite H. reflexivity.
    - right; right. apply startswith_app in H as [r ->].
      destruct (split_ws_first "D" (lit "omain" ++ r) eq_refl) as [h Hh].
      change (lit "Domain" ++ r) with ("D"%char :: (lit "omain" ++ r)).
      rewrite Hh. apply not_int_dot_int; [|discriminate].
      intros [C|[C|[C|[C|C]]]]; discriminate C. }
  split; [exact I | exact (ignored_inert line0 I)].
Qed.

Lemma domain_word_line_is_skipped_witness :
  process_line one_board_frame
    (lit "Domain1.2 alice 1 -- -- -- D 0:01 --") = Ok one_board_frame.
Proof.
  apply (domain_word_line_is_skipped
           (lit "Domain1.2 alice 1 -- -- -- D 0:01 --") eq_refl).
Defined.

Section JsonReturns.

(** [json_data] returns when the full id of every domain can be
    written. *)
Lemma json_data_returns (self : EmulatorResourceParser) :
  (forall dm, In dm (model_domains (boards self)) ->
              exists id, get_full_id dm = Ok id) ->
  exists j, json_data self = Ok j.
Proof.
  intros H. destruct (by_user_groups self) as [_ [_ [G _]]].
  assert (U : forall dm, In dm (get_used_domains self None) ->
                         exists id, get_full_id dm = Ok id).
  { intros dm Hd. apply H. rewrite used_in_order, no_filter_all in Hd.
    apply filter_In in Hd. tauto. }
  assert (F : forall dm, In dm (get_free_domains self None) ->
                         exists id, get_full_id dm = Ok id).
  { intros dm Hd. apply H. rewrite free_in_order, no_filter_all in Hd.
    apply filter_In in Hd. tauto. }
  unfold json_data.
  match goal with
  | |- context [map_result ?f (get_domains_by_user self)] =>
      destruct (map_result_returns f (get_domains_by_user self)) as [us ->]
  end.
  { intros [k vs] Hin. cbn [fst snd].
    destruct (map_result_returns domain_detail vs) as [ds ->].
    - intros dm Hdm. destruct (G k vs Hin) as [_ E]. rewrite E in Hdm.
      apply filter_In in Hdm as [Hd _]. destruct (U dm Hd) as [id I].
      unfold domain_detail. rewrite I. cbn [bind]. eauto.
    - cbn [bind]. eauto. }
  cbn [bind].
  destruct (map_result_returns free_entry (get_free_domains self None))
    as [fs ->].
  { intros dm Hd. destruct (F dm Hd) as [id I].
    unfold free_entry. rewrite I. cbn [bind]. eauto. }
  cbn [bind]. eauto.
Qed.

End JsonReturns.

(** X19: in the JSON projection the id of every entry agrees with the
    numbers beside it: the id of a free-domain entry, and of a domain entry
    of a user, reads back as its board and domain numbers; and the free
    entries are those of [get_free_domains], in the same order.  The data
    are built without an error for every model that [parse_output]
    returns: [str] writes every number that [int] has read. *)
Theorem json_ids_agree :
  (forall self j,
     json_data self = Ok j ->
     Forall (fun e => int_dot_int (fe_id e) (fe_board e) (fe_domain e))
            (j_free_domains j)
     /\ Forall (fun u =>
                  Forall (fun e => int_dot_int (dd_id e) (dd_board e)
                                     (dd_domain e))
                         (ue_domains (snd u)))
               (j_domains_by_user j)
     /\ map (fun e => (fe_board e, fe_domain e)) (j_free_domains j)
        = map (fun dm => (board dm, domain dm)) (get_free_domains self None))
  /\ (forall self now output m,
        parse_output self now output = Ok m -> exists j, json_data m = Ok j).
Proof.
  split.
  - intros self j J. destruct (json_data_ok self j J) as [_ [U F]].
    assert (FE : forall dm fe, free_entry dm = Ok fe ->
                   int_dot_int (fe_id fe) (fe_board fe) (fe_domain fe)
                   /\ (fe_board fe, fe_domain fe) = (board dm, domain dm)).
    { intros dm fe H. unfold free_entry in H.
      destruct (get_full_id dm) as [id|e] eqn:I; cbn [bind] in H; [|discriminate].
      injection H as <-. split; [|reflexivity].
      apply full_id_reads_back, I. }
    split; [|split].
    + apply (Forall2_right _ _ _ _ F). intros dm fe _ H. apply (FE dm fe H).
    + apply (Forall2_right _ _ _ _ U). intros ud e _ [_ [_ D]].
      apply (Forall2_right _ _ _ _ D). intros dm dd _ H.
      unfold domain_detail in H.
      destruct (get_full_id dm) as [id|e'] eqn:I; cbn [bind] in H;
        [|discriminate].
      injection H as <-. apply full_id_reads_back, I.
    + apply (Forall2_maps _ _ _ _ _ F). intros dm fe H. apply (FE dm fe H).
  - intros self now output m P.
    destruct (parse_output_ok _ _ _ _ P) as [fr [R [B _]]].
    destruct (run_lines_inv (body_lines output) (body_lines output) _ _
                (incl_refl _) (loop_start_inv _) R) as [_ [_ Hd]].
    apply json_data_returns. rewrite B. intros dm Hin.
    destruct (Hd dm Hin) as [_ [line [_ I]]].
    exact (read_id_returns dm _ I).
Qed.

Lemma json_ids_agree_witness :
  exists j,
    json_data example_model = Ok j
    /\ map (fun e => (fe_board e, fe_domain e)) (j_free_domains j)
       = [(0%Z, 0%Z)].
Proof.
  assert (P : parse_output Parser_init now0 example_report = Ok example_model)
    by (vm_compute; reflexivity).
  destruct json_ids_agree as [A R].
  destruct (R Parser_init now0 example_report example_model P) as [j J].
  exists j. split; [exact J|].
  destruct (A example_model j J) as [_ [_ H]].
  rewrite H. reflexivity.
Defined.

(** ** Further properties: running the command *)

(** X20: [run_command] stamps the parser with the time of the run before
    anything else.  When the command completes and the parse of its output
    returns, the parser holds the text of the output, the time of the run
    (also when an older timestamp was set) and the boards and header fields
    of that text, and nothing is raised.  When the parse raises, which it
    does exactly when a cluster or board number has more than 4300 digits,
    a [RuntimeError] is raised; the parser then holds the text, the time of
    the run, the header fields of the text and the boards of the lines
    before the one with that number; a parse that returns leaves the model
    it returns.  When the command times out or fails,
    a [RuntimeError] is raised and the boards, the header fields and the
    raw output of the earlier run are still there, under the new
    timestamp. *)
Theorem run_command_effects :
  forall self now,
    (forall stdout,
       let m := fst (run_command self now (Completed stdout)) in
       raw_output m = stdout
       /\ timestamp m = Some now
       /\ snd (run_command self now (Completed stdout))
          = (if forallb fits (body_lines stdout) then None
             else Some Failed_to_run)
       /\ emulator_name m
          = emulator_name (_parse_header Parser_init (header_line stdout))
       /\ hardware m = hardware (_parse_header Parser_init (header_line stdout))
       /\ configmgr m
          = configmgr (_parse_header Parser_init (header_line stdout))
       /\ system_status m
          = system_status (_parse_header Parser_init (header_line stdout))
       /\ boards m
          = self_boards (run_lines_reach loop_start (body_lines stdout))
       /\ match parse_output Parser_init now stdout with
          | Ok m0 =>
              run_command self now (Completed stdout) = (m, None)
              /\ boards m = boards m0
              /\ emulator_name m = emulator_name m0
              /\ hardware m = hardware m0
              /\ configmgr m = configmgr m0
              /\ system_status m = system_status m0
          | Raise _ =>
              run_command self now (Completed stdout) = (m, Some Failed_to_run)
          end)
    /\ (forall s n output m,
          parse_output s n output = Ok m -> parse_output_leaves s n output = m)
    /\ (forall p, p = TimedOut \/ p = Failed ->
        exists m e,
          run_command self now p = (m, Some e)
          /\ (p = TimedOut -> e = Timed_out)
          /\ (p = Failed -> e = Failed_to_run)
          /\ timestamp m = Some now
          /\ boards m = boards self
          /\ raw_output m = raw_output self
          /\ emulator_name m = emulator_name self
          /\ hardware m = hardware self
          /\ configmgr m = configmgr self
          /\ system_status m = system_status self).
Proof.
  intros self now. split.
  - intros stdout m. subst m. unfold run_command.
    cbn [emulator_name hardware configmgr system_status boards raw_output
         timestamp fst snd].
    match goal with
    | |- context [parse_output ?s now stdout] => set (self2 := s)
    end.
    destruct (parse_output_leaves_fields self2 now stdout)
      as [B [E1 [E2 [E3 [E4 [RO TS]]]]]].
    pose proof (parse_output_returns self2 now stdout) as T.
    pose proof (parse_output_returns Parser_init now stdout) as T0.
    split; [exact RO|]. split; [exact TS|].
    split; [|repeat (split; [assumption|])].
    + destruct (forallb fits (body_lines stdout));
        [destruct T as [m' ->] | rewrite T]; reflexivity.
    + destruct (forallb fits (body_lines stdout)).
      * destruct T as [m' P]. destruct T0 as [m0 P0]. rewrite P, P0.
        destruct (parse_output_ok _ _ _ _ P0) as [fr [R [B0 [F1 [F2 [F3 F4]]]]]].
        rewrite (run_lines_reach_ok _ _ _ R) in B.
        split; [reflexivity|]. repeat split; congruence.
      * rewrite T, T0. reflexivity.
  - split; [intros s n output m; apply parse_output_leaves_ok|].
    intros p [->| ->]; eexists _, _; (split; [reflexivity|]);
      repeat split; try reflexivity; discriminate.
Qed.
